(** * stereosat: the pairwise match-visualization batch pipeline

    A shallow embedding of [show_micmac_matches] from
    [src/micmac/viz_matches.py], with the parts of [pathlib], [itertools]
    and [multiprocessing] it relies on, and the properties of the pipeline
    that the specification states; then the workflow steps and the script of
    [src/micmac/sat_pleiades.py], with the parts of [shlex], [subprocess]
    and the file system they rely on. *)

From Stdlib Require Import String Ascii List ZArith Lia Permutation Sorted.
From Stdlib Require DecimalString.
From stdpp Require Import base strings list gmap sorting.

Local Open Scope nat_scope.

(** ** Paths

    A [pathlib] path is the sequence of its components, root first, as
    [PurePath.parts] gives it.  The empty sequence is the path ["."]; an
    absolute path starts with the component ["/"]. *)

Abbreviation Path := (list string).

Module Pathlib.

(** [p / s], for a component [s] that is relative and holds no separator.
    Every component joined by the pipeline is a literal directory name or is
    built around a [name], which never holds a separator. *)
Definition truediv (p : Path) (s : string) : Path := p ++ [s].

(** [p.name]: the final component, the empty string for ["."].  The pipeline
    takes the name of images only, which lie below the project directory. *)
Definition name (p : Path) : string := List.last p "".

(** [p.parent], for a path with a component below its anchor; ["."] is its
    own parent. *)
Definition parent (p : Path) : Path := removelast p.

(** ["/".join(l)] *)
Fixpoint join (l : list string) : string :=
  match l with
  | [] => ""
  | [s] => s
  | s :: l' => s +:+ "/" +:+ join l'
  end.

(** [str(p)], which is what an f-string writes for [{p}]. *)
Definition str (p : Path) : string :=
  match p with
  | [] => "."
  | r :: l => if String.eqb r "/" then "/" +:+ join l else join p
  end.

(** [p < q]: paths compare as their sequences of components do, and the
    components as strings, code point by code point. *)
Fixpoint compare (p q : Path) : comparison :=
  match p, q with
  | [], [] => Eq
  | [], _ :: _ => Lt
  | _ :: _, [] => Gt
  | a :: p', b :: q' =>
      match String.compare a b with
      | Eq => compare p' q'
      | c => c
      end
  end.

Definition ltb (p q : Path) : bool :=
  if compare p q is Lt then true else false.

Definition le (p q : Path) : Prop := compare p q <> Gt.

(** *** The pattern of [Path.glob], as CPython 3.11 reads it *)

(** [s.split("/")], with [cur] the component read so far. *)
Fixpoint split_sep (cur : string) (s : string) : list string :=
  match s with
  | EmptyString => [cur]
  | String c s' =>
      if Ascii.eqb c "/" then cur :: split_sep "" s'
      else split_sep (cur +:+ String c "") s'
  end.

(** ["**" in s] *)
Fixpoint has_double_star (s : string) : bool :=
  match s with
  | EmptyString => false
  | String a s' =>
      match s' with
      | EmptyString => false
      | String b _ =>
          (Ascii.eqb a "*" && Ascii.eqb b "*") || has_double_star s'
      end
  end.

(** [s[-1] == "/"] *)
Fixpoint ends_with_sep (s : string) : bool :=
  match s with
  | EmptyString => false
  | String c EmptyString => Ascii.eqb c "/"
  | String _ s' => ends_with_sep s'
  end.

(** The components of a relative pattern: [parse_parts] drops the empty
    ones and the ["."] ones, and [glob] adds an empty one when the pattern
    ends in a separator. *)
Definition pattern_parts (pattern : string) : list string :=
  filter (fun x => x <> "" /\ x <> ".") (split_sep "" pattern)
  ++ (if ends_with_sep pattern then [""] else []).

End Pathlib.

Declare Scope path_scope.
Delimit Scope path_scope with path.
Infix "/" := Pathlib.truediv : path_scope.

(** ** Builtins: [sorted] and [itertools.combinations] *)

(** [sorted] is stable and compares with [<] only.  Each element goes in
    front of the first element of the sorted rest that is not below it. *)
Fixpoint insort (x : Path) (l : list Path) : list Path :=
  match l with
  | [] => [x]
  | y :: l' => if Pathlib.ltb y x then y :: insort x l' else x :: y :: l'
  end.

Fixpoint sorted (l : list Path) : list Path :=
  match l with
  | [] => []
  | x :: l' => insort x (sorted l')
  end.

(** [combinations(l, 2)]: the pairs of positions [i < j], in lexicographic
    order of the positions. *)
Fixpoint combinations2 {A : Type} (l : list A) : list (A * A) :=
  match l with
  | [] => []
  | x :: l' => map (pair x) l' ++ combinations2 l'
  end.

(** ** The file system and what the pipeline does to the world *)

Inductive node : Type := File | Dir.

Abbreviation FS := (gmap Path node).

(** Values handed to the rendering collaborator. *)
Inductive pyval : Type :=
| PyPath (p : Path)
| PyStr (s : string)
| PyInt (z : Z)
| PyBool (b : bool)
| PyNone.

(** One call of [mm.show_micmac_matches]: its positional arguments and its
    keyword arguments, in the order they are written. *)
Record RenderCall : Type := mkCall {
  pos_args : list pyval;
  kw_args : list (string * pyval)
}.

Inductive exn : Type :=
| FileNotFoundError (msg : string)
| FileExistsError (msg : string)
| NotADirectoryError (msg : string)
| TypeError (msg : string)
| ValueError (msg : string)
| NotImplementedError (msg : string)
| IndexError (msg : string)
| AttributeError (msg : string)
| RenderingError (msg : string).

(** The exception [dir.glob(pattern)] raises before it yields anything, if
    it raises: on an empty pattern, on an absolute one, on one with no
    component left once the ["."] ones are dropped, and on one with a
    component that holds ["**"] next to something else.  The selectors of
    the components are made first to last ([_make_selector]). *)
Fixpoint selector_error (parts : list string) : option exn :=
  match parts with
  | [] => None
  | pat :: rest =>
      if String.eqb pat "" then None
      else if String.eqb pat "**" then selector_error rest
      else if Pathlib.has_double_star pat then
        Some (ValueError
          "Invalid pattern: '**' can only be an entire path component")
      else selector_error rest
  end.

Definition glob_refusal (pattern : string) : option exn :=
  match pattern with
  | EmptyString => Some (ValueError "Unacceptable pattern: ''")
  | String c _ =>
      if Ascii.eqb c "/" then
        Some (NotImplementedError "Non-relative patterns are unsupported")
      else
        match Pathlib.pattern_parts pattern with
        | [] => Some (IndexError "tuple index out of range")
        | pat :: rest =>
            if String.eqb pat "" then
              Some (AttributeError
                "'_TerminatingSelector' object has no attribute 'select_from'")
            else selector_error (pat :: rest)
        end
  end.

(** What an observer of a run sees, in the order it happens. *)
Inductive event : Type :=
| EvExists (p : Path) (found : bool)
| EvGlob (dir : Path) (pattern : string)
| EvMkdir (p : Path)
| EvPrint (line : string)
| EvRender (c : RenderCall).

(** A computation reads and changes the file system, leaves a trace, and
    returns a value or raises. *)
Definition M (A : Type) : Type := FS -> (exn + A) * FS * list event.

Definition ret {A : Type} (a : A) : M A := fun fs => (inr a, fs, []).

Definition raise {A : Type} (e : exn) : M A := fun fs => (inl e, fs, []).

Definition bind {A B : Type} (m : M A) (k : A -> M B) : M B := fun fs =>
  match m fs with
  | (inl e, fs1, t1) => (inl e, fs1, t1)
  | (inr a, fs1, t1) =>
      match k a fs1 with
      | (r, fs2, t2) => (r, fs2, t1 ++ t2)
      end
  end.

Declare Scope pipeline_scope.
Delimit Scope pipeline_scope with pipeline.
Notation "'let*' x := m 'in' k" := (bind m (fun x => k))
  (at level 10, x name, m at level 100, k at level 200) : pipeline_scope.
Notation "m >> k" := (bind m (fun _ => k))
  (at level 100, k at level 200, right associativity) : pipeline_scope.

(** [for x in l: body x] *)
Fixpoint for_each {A : Type} (l : list A) (body : A -> M unit) : M unit :=
  match l with
  | [] => ret tt
  | x :: l' => bind (body x) (fun _ => for_each l' body)
  end.

Definition result {A : Type} (o : (exn + A) * FS * list event) : exn + A :=
  fst (fst o).
Definition final_fs {A : Type} (o : (exn + A) * FS * list event) : FS :=
  snd (fst o).
Definition trace {A : Type} (o : (exn + A) * FS * list event) : list event :=
  snd o.

(** The rendering calls of a trace, in order. *)
Definition renders (t : list event) : list RenderCall :=
  omap (fun e => match e with EvRender c => Some c | _ => None end) t.

(** The paths whose existence a trace tests, in order. *)
Definition exists_checks (t : list event) : list Path :=
  omap (fun e => match e with EvExists p _ => Some p | _ => None end) t.

Module Os.

Definition errno (code what : string) (p : Path) : string :=
  "[Errno " +:+ code +:+ "] " +:+ what +:+ ": '" +:+ Pathlib.str p +:+ "'".

(** [os.mkdir(p)] *)
Definition mkdir (p : Path) (fs : FS) : exn + FS :=
  match fs !! p with
  | Some _ => inl (FileExistsError (errno "17" "File exists" p))
  | None =>
      match fs !! Pathlib.parent p with
      | Some Dir => inr (<[p := Dir]> fs)
      | Some File => inl (NotADirectoryError (errno "20" "Not a directory" p))
      | None =>
          inl (FileNotFoundError (errno "2" "No such file or directory" p))
      end
  end.

End Os.

(** [p.is_dir()] *)
Definition is_dir (p : Path) (fs : FS) : bool :=
  match fs !! p with Some Dir => true | _ => false end.

(** [p.mkdir(parents=False, exist_ok=exist_ok)] *)
Definition mkdir_flat (p : Path) (exist_ok : bool) (fs : FS) : exn + FS :=
  match Os.mkdir p fs with
  | inr fs' => inr fs'
  | inl (FileNotFoundError m) => inl (FileNotFoundError m)
  | inl e => if exist_ok && is_dir p fs then inr fs else inl e
  end.

(** [p.mkdir(parents=True, exist_ok=exist_ok)]: when the parent is missing it
    is made first, with its own parents, and then [p].  The recursion is on
    the number of components. *)
Fixpoint mkdir_parents (n : nat) (p : Path) (exist_ok : bool) (fs : FS)
  : exn + FS :=
  match Os.mkdir p fs with
  | inr fs' => inr fs'
  | inl (FileNotFoundError m) =>
      match n with
      | 0 => inl (FileNotFoundError m)
      | S n' =>
          if decide (Pathlib.parent p = p) then inl (FileNotFoundError m)
          else
            match mkdir_parents n' (Pathlib.parent p) true fs with
            | inl e => inl e
            | inr fs1 => mkdir_flat p exist_ok fs1
            end
      end
  | inl e => if exist_ok && is_dir p fs then inr fs else inl e
  end.

Definition mkdir (p : Path) (parents exist_ok : bool) (fs : FS) : exn + FS :=
  if parents then mkdir_parents (length p) p exist_ok fs
  else mkdir_flat p exist_ok fs.

(** *** The primitive actions *)

(** [p.exists()] *)
Definition path_exists (p : Path) : M bool := fun fs =>
  let found := bool_decide (is_Some (fs !! p)) in
  (inr found, fs, [EvExists p found]).

(** [p.mkdir(exist_ok=..., parents=...)] *)
Definition path_mkdir (p : Path) (parents exist_ok : bool) : M unit := fun fs =>
  match mkdir p parents exist_ok fs with
  | inl e => (inl e, fs, [EvMkdir p])
  | inr fs' => (inr tt, fs', [EvMkdir p])
  end.

(** [print(line)] *)
Definition print (line : string) : M unit := fun fs =>
  (inr tt, fs, [EvPrint line]).

(** [Pool._get_tasks(func, it, size)]: slices of [size] elements, until a
    slice comes out empty.  Every slice but the last takes an element away,
    so the loop ends within [length it] turns. *)
Fixpoint get_tasks_from {A : Type} (turns size : nat) (it : list A)
  : list (list A) :=
  match turns with
  | 0 => []
  | S turns' =>
      match take size it with
      | [] => []
      | x => x :: get_tasks_from turns' size (drop size it)
      end
  end.

Definition get_tasks {A : Type} (size : nat) (it : list A) : list (list A) :=
  get_tasks_from (length it) size it.

(** ** The pipeline *)

Section Pipeline.

Local Open Scope pipeline_scope.
Local Open Scope path_scope.

(** The walk of the selectors of a pattern below a directory
    ([selector.select_from(dir)]): the paths that match, in the order the
    operating system lists the entries. *)
Variable select_from : FS -> Path -> string -> list Path.

(** The rendering collaborator [mm.show_micmac_matches]: what it does to the
    file system, and the exception it raises, if any. *)
Variable mm_show_micmac_matches : RenderCall -> FS -> option string * FS.

(** [os.cpu_count()] *)
Variable cpu_count : option nat.

(** What [dir.glob(pattern)] yields: the walk of the selectors, and nothing
    when the pattern is refused. *)
Definition glob (fs : FS) (dir : Path) (pattern : string) : list Path :=
  match glob_refusal pattern with
  | Some _ => []
  | None => select_from fs dir pattern
  end.

(** Reading [dir.glob(pattern)] to its end, as [sorted] does. *)
Definition path_glob (dir : Path) (pattern : string) : M (list Path) :=
  fun fs =>
    match glob_refusal pattern with
    | Some e => (inl e, fs, [EvGlob dir pattern])
    | None => (inr (glob fs dir pattern), fs, [EvGlob dir pattern])
    end.

(** Running the collaborator on a call that is already bound. *)
Definition run_render (c : RenderCall) : M unit := fun fs =>
  match mm_show_micmac_matches c fs with
  | (Some err, fs') => (inl (RenderingError err), fs', [EvRender c])
  | (None, fs') => (inr tt, fs', [EvRender c])
  end.

(** A call with positional arguments, keyword arguments written out, and the
    dictionary [kwargs] spread after them: a key of [kwargs] that is also
    written out in the call is a [TypeError], raised before the callee
    runs.  The message is the interpreter's, without the name of the callee
    it puts in front. *)
Definition call_kw (args : list pyval) (kws kwargs : list (string * pyval))
  : M unit :=
  match List.find (fun kv => bool_decide (kv.1 ∈ kws.*1)) kwargs with
  | Some kv =>
      raise (TypeError
        ("got multiple values for keyword argument '" +:+ kv.1 +:+ "'"))
  | None => run_render (mkCall args (kws ++ kwargs))
  end.

(** [Pool()] starts [os.cpu_count() or 1] worker processes. *)
Definition processes : nat :=
  match cpu_count with
  | Some (S n) => S n
  | _ => 1
  end.

(** The size of the batches [Pool.starmap] cuts [n] tasks into
    ([_map_async] with [chunksize=None]). *)
Definition chunksize (n : nat) : nat :=
  let chunksize := (n / (processes * 4))%nat in
  let extra := (n mod (processes * 4))%nat in
  let chunksize := if extra =? 0 then chunksize else S chunksize in
  if n =? 0 then 0 else chunksize.

(** What a worker does with one batch ([starmapstar]): the calls of the
    batch, in order.  A call that raises ends the batch, and the exception
    is what the batch sends back. *)
Definition starmapstar (batch : list (list pyval)) : M unit :=
  for_each batch (fun args => run_render (mkCall args [])).

(** The batches are all run, whether an earlier one raised or not; the
    exception kept is that of the first batch that raised. *)
Fixpoint run_batches (batches : list (list (list pyval))) (fs : FS)
  : option exn * FS * list event :=
  match batches with
  | [] => (None, fs, [])
  | batch :: batches' =>
      match starmapstar batch fs with
      | (r, fs1, t1) =>
          match run_batches batches' fs1 with
          | (e, fs2, t2) =>
              (match r with inl e1 => Some e1 | inr _ => e end, fs2, t1 ++ t2)
          end
      end
  end.

(** [Pool().starmap(f, params)]: the tasks are cut into batches, every
    batch is run, and only then is the exception of a batch that raised
    raised again.  The schedule modelled takes the batches one after the
    other, in the order of [params]; the interleaving of the workers is not
    modelled. *)
Definition starmap (params : list (list pyval)) : M unit := fun fs =>
  match run_batches (get_tasks (chunksize (length params)) params) fs with
  | (Some e, fs', t) => (inl e, fs', t)
  | (None, fs', t) => (inr tt, fs', t)
  end.

(** The body of the loop of the sequential path, for one pair.  It reads
    [project_path], [homol_path], [matches_dir] and [kwargs] from the
    enclosing function. *)
Definition sequential_body (project_path homol_path matches_dir : Path)
    (kwargs : list (string * pyval)) (pair : Path * Path) : M unit :=
  let '(i0, i1) := pair in
  print ("Exporting matches between " +:+ Pathlib.name i0 +:+ " and "
         +:+ Pathlib.name i1) >>
  let matches_path :=
    homol_path / ("Pastis" +:+ Pathlib.name i0)
               / (Pathlib.name i1 +:+ ".txt") in
  let* found := path_exists matches_path in
  if negb found then
    raise (FileNotFoundError
      ("Matches file " +:+ Pathlib.str matches_path +:+ " does not exist"))
  else
  call_kw [PyPath matches_path; PyPath project_path]
          [("i0_name", PyStr (Pathlib.name i0));
           ("i1_name", PyStr (Pathlib.name i1));
           ("out", PyPath (matches_dir /
              ("matches_" +:+ Pathlib.name i0 +:+ "-"
               +:+ Pathlib.name i1 +:+ ".png")))]
          kwargs >>
  print "Done.".

(** The list [params] of the parallel path: one tuple of positional
    arguments per pair. *)
Definition params (project_path homol_path matches_dir : Path)
    (images : list Path) : list (list pyval) :=
  map (fun '(i0, i1) =>
         [PyPath (homol_path / ("Pastis" +:+ Pathlib.name i0)
                             / (Pathlib.name i1 +:+ ".txt"));
          PyPath project_path;
          PyPath (matches_dir /
            ("matches_" +:+ Pathlib.name i0 +:+ "-"
             +:+ Pathlib.name i1 +:+ ".png"))])
      (combinations2 images).

Definition show_micmac_matches (project_dir : Path) (img_pattern : string)
    (parallel : bool) (kwargs : list (string * pyval)) : M unit :=
  let project_path := project_dir in
  let* found := path_exists project_path in
  if negb found then
    raise (FileNotFoundError
      ("Project path " +:+ Pathlib.str project_path +:+ " does not exist"))
  else
  let homol_path := project_path / "Homol" in
  let* found := path_exists homol_path in
  if negb found then
    raise (FileNotFoundError
      ("Homol path " +:+ Pathlib.str homol_path +:+ " does not exist"))
  else
  let* listing := path_glob project_path img_pattern in
  let images := sorted listing in
  let matches_dir := project_path / "match_figs" in
  path_mkdir matches_dir true true >>
  if negb parallel then
    for_each (combinations2 images)
      (sequential_body project_path homol_path matches_dir kwargs)
  else
    starmap (params project_path homol_path matches_dir images).

End Pipeline.

(** * Reading a run

    The definitions below are not part of the pipeline: they name what the
    properties speak about. *)

(** ** Where the naming convention puts the files of a pair *)

(** [<project_dir>/Homol/Pastis<i0.name>/<i1.name>.txt] *)
Definition match_record (project_dir i0 i1 : Path) : Path :=
  project_dir ++
  ["Homol"; "Pastis" +:+ Pathlib.name i0; Pathlib.name i1 +:+ ".txt"].

(** [<project_dir>/match_figs/matches_<i0.name>-<i1.name>.png] *)
Definition artifact (project_dir i0 i1 : Path) : Path :=
  project_dir ++
  ["match_figs";
   "matches_" +:+ Pathlib.name i0 +:+ "-" +:+ Pathlib.name i1 +:+ ".png"].

(** The rendering call of the sequential path for a pair. *)
Definition sequential_call (project_dir : Path)
    (kwargs : list (string * pyval)) (pair : Path * Path) : RenderCall :=
  mkCall [PyPath (match_record project_dir pair.1 pair.2); PyPath project_dir]
         ([("i0_name", PyStr (Pathlib.name pair.1));
           ("i1_name", PyStr (Pathlib.name pair.2));
           ("out", PyPath (artifact project_dir pair.1 pair.2))] ++ kwargs).

(** The rendering call a worker of the parallel path makes for a pair. *)
Definition worker_call (project_dir : Path) (pair : Path * Path)
  : RenderCall :=
  mkCall [PyPath (match_record project_dir pair.1 pair.2); PyPath project_dir;
          PyPath (artifact project_dir pair.1 pair.2)] [].

(** The keys the sequential call writes out itself. *)
Definition reserved_keys : list string := ["i0_name"; "i1_name"; "out"].

Definition clashing (kwargs : list (string * pyval))
  : option (string * pyval) :=
  List.find (fun kv => bool_decide (kv.1 ∈ reserved_keys)) kwargs.

(** The events that open every run that passes the two directory checks. *)
Definition prologue (project_dir : Path) (img_pattern : string)
  : list event :=
  [EvExists project_dir true; EvExists (project_dir ++ ["Homol"]) true;
   EvGlob project_dir img_pattern; EvMkdir (project_dir ++ ["match_figs"])].

(** The events that open a run whose pattern is refused. *)
Definition refused_prologue (project_dir : Path) (img_pattern : string)
  : list event :=
  [EvExists project_dir true; EvExists (project_dir ++ ["Homol"]) true;
   EvGlob project_dir img_pattern].

(** ** The sequential loop, turn by turn *)

Section Turns.

Variable render : RenderCall -> FS -> option string * FS.

(** One turn of the sequential loop, case by case. *)
Definition sequential_step (P : Path) (kwargs : list (string * pyval))
    (pair : Path * Path) (fs : FS)
  : (exn + unit) * FS * list event :=
  let mp := match_record P pair.1 pair.2 in
  let c := sequential_call P kwargs pair in
  let hello :=
    EvPrint ("Exporting matches between " +:+ Pathlib.name pair.1 +:+ " and "
             +:+ Pathlib.name pair.2) in
  match fs !! mp with
  | None =>
      (inl (FileNotFoundError
              ("Matches file " +:+ Pathlib.str mp +:+ " does not exist")),
       fs, [hello; EvExists mp false])
  | Some _ =>
      match clashing kwargs with
      | Some kv =>
          (inl (TypeError
             ("got multiple values for keyword argument '" +:+ kv.1 +:+ "'")),
           fs, [hello; EvExists mp true])
      | None =>
          match render c fs with
          | (Some err, fs') =>
              (inl (RenderingError err), fs',
               [hello; EvExists mp true; EvRender c])
          | (None, fs') =>
              (inr tt, fs',
               [hello; EvExists mp true; EvRender c; EvPrint "Done."])
          end
      end
  end.

(** The sequential loop is the iteration of [sequential_step]. *)
Fixpoint sequential_loop (P : Path) (kwargs : list (string * pyval))
    (pairs : list (Path * Path)) (fs : FS)
  : (exn + unit) * FS * list event :=
  match pairs with
  | [] => (inr tt, fs, [])
  | pr :: pairs' =>
      match sequential_step P kwargs pr fs with
      | (inl e, fs1, t1) => (inl e, fs1, t1)
      | (inr _, fs1, t1) =>
          match sequential_loop P kwargs pairs' fs1 with
          | (r, fs2, t2) => (r, fs2, t1 ++ t2)
          end
      end
  end.

End Turns.

(** The call a worker makes of a task. *)
Definition task_call (args : list pyval) : RenderCall := mkCall args [].

(** The file system after the effects of a sequence of rendering calls. *)
Definition after_renders (render : RenderCall -> FS -> option string * FS)
    (calls : list RenderCall) (fs : FS) : FS :=
  foldl (fun fs' c => (render c fs').2) fs calls.

(** ** Directories and names *)

(** The directories [a/c1], [a/c1/c2], ... added to a file system. *)
Fixpoint add_dirs (a : Path) (cs : list string) (fs : FS) : FS :=
  match cs with
  | [] => fs
  | c :: cs' => add_dirs (a ++ [c]) cs' (<[a ++ [c] := Dir]> fs)
  end.

(** The errors of the operating system, which are those [mkdir] raises. *)
Definition os_error (e : exn) : Prop :=
  match e with
  | FileNotFoundError m | FileExistsError m | NotADirectoryError m =>
      exists code what q, m = Os.errno code what q
  | _ => False
  end.

(** [c in s] *)
Fixpoint has_char (c : ascii) (s : string) : bool :=
  match s with
  | EmptyString => false
  | String a s' => Ascii.eqb a c || has_char c s'
  end.

(** ** A small project, to run the pipeline on *)

Module Demo.

Definition project : Path := ["proj"].

Definition image (n : string) : Path := project ++ [n].

(** Three images; the match record of the first pair only. *)
Definition fs : FS :=
  list_to_map
    [([], Dir); (project, Dir); (project ++ ["Homol"], Dir);
     (image "a.tif", File); (image "b.tif", File); (image "c.tif", File);
     (project ++ ["Homol"; "Pastisa.tif"], Dir);
     (project ++ ["Homol"; "Pastisa.tif"; "b.tif.txt"], File)].

(** The same project with no image. *)
Definition fs_empty : FS :=
  list_to_map [([], Dir); (project, Dir); (project ++ ["Homol"], Dir)].

(** The same, with a regular file in the place of the output directory. *)
Definition fs_blocked : FS := <[project ++ ["match_figs"] := File]> fs_empty.

(** A project that is not there at all. *)
Definition fs_bare : FS := list_to_map [([], Dir)].

(** A project without its [Homol] directory. *)
Definition fs_no_homol : FS := list_to_map [([], Dir); (project, Dir)].

(** A walk that lists the images of a directory as the file system holds
    them, in some order of the operating system's. *)
Definition select_from (fs : FS) (dir : Path) (pattern : string)
  : list Path :=
  filter (fun p => is_Some (fs !! p))
         [dir ++ ["c.tif"]; dir ++ ["a.tif"]; dir ++ ["b.tif"]].

(** A host with four processors. *)
Definition cpu_count : option nat := Some 4.

(** A renderer that writes its artifact where the call says: at the
    keyword [out], or else at the third positional argument. *)
Definition render (c : RenderCall) (fs : FS) : option string * FS :=
  match List.find (fun kv => String.eqb kv.1 "out") (kw_args c) with
  | Some (_, PyPath o) => (None, <[o := File]> fs)
  | _ =>
      match pos_args c !! 2 with
      | Some (PyPath o) => (None, <[o := File]> fs)
      | _ => (Some "no output path", fs)
      end
  end.

Definition kwargs : list (string * pyval) := [("line_thickness", PyInt (-1))].

(** Images whose names hold a hyphen. *)
Definition hyphenated : list Path :=
  [image "a"; image "a-b"; image "b-c"; image "c"].

(** Images in two subdirectories, as a pattern such as ["*/*.tif"] finds
    them. *)
Definition nested : list Path :=
  [project ++ ["a"; "z.tif"]; project ++ ["b"; "a.tif"]].

(** Images in two subdirectories, one name a prefix of the other. *)
Definition nested_prefix : list Path :=
  [project ++ ["a-b"; "x.tif"]; project ++ ["a"; "x.tif"]].

End Demo.

(** ** A complete turn of the sequential loop *)

(** What a turn that runs to its end leaves in the trace. *)
Definition pair_events (project_dir : Path) (kwargs : list (string * pyval))
    (pair : Path * Path) : list event :=
  [EvPrint ("Exporting matches between " +:+ Pathlib.name pair.1 +:+ " and "
            +:+ Pathlib.name pair.2);
   EvExists (match_record project_dir pair.1 pair.2) true;
   EvRender (sequential_call project_dir kwargs pair);
   EvPrint "Done."].

(** ** A project with all its match records *)

Module Gallery.

Definition project : Path := ["proj"].

Definition image (n : string) : Path := project ++ [n].

Definition fs : FS :=
  list_to_map
    [([], Dir); (project, Dir); (project ++ ["Homol"], Dir);
     (image "a.tif", File); (image "b.tif", File); (image "c.tif", File);
     (project ++ ["Homol"; "Pastisa.tif"], Dir);
     (project ++ ["Homol"; "Pastisb.tif"], Dir);
     (project ++ ["Homol"; "Pastisa.tif"; "b.tif.txt"], File);
     (project ++ ["Homol"; "Pastisa.tif"; "c.tif.txt"], File);
     (project ++ ["Homol"; "Pastisb.tif"; "c.tif.txt"], File)].

Definition select_from (fs : FS) (dir : Path) (pattern : string)
  : list Path :=
  [dir ++ ["b.tif"]; dir ++ ["c.tif"]; dir ++ ["a.tif"]].

Definition cpu_count : option nat := Some 4.

(** A renderer that returns without touching the file system. *)
Definition quiet (c : RenderCall) (fs : FS) : option string * FS := (None, fs).

(** A renderer that cannot read its images. *)
Definition broken (c : RenderCall) (fs : FS) : option string * FS :=
  (Some "cannot read image", fs).

Definition kwargs : list (string * pyval) := [("line_thickness", PyInt (-1))].

(** Options that name the output themselves. *)
Definition kwargs_out : list (string * pyval) :=
  [("line_thickness", PyInt (-1)); ("out", PyStr "here.png")].

End Gallery.

(** ** A project whose first match record is missing *)

Module Studio.

Definition project : Path := ["proj"].

Definition image (n : string) : Path := project ++ [n].

(** Four images, and every match record but that of the first pair. *)
Definition fs : FS :=
  list_to_map
    [([], Dir); (project, Dir); (project ++ ["Homol"], Dir);
     (image "a.tif", File); (image "b.tif", File); (image "c.tif", File);
     (image "d.tif", File);
     (project ++ ["Homol"; "Pastisa.tif"], Dir);
     (project ++ ["Homol"; "Pastisb.tif"], Dir);
     (project ++ ["Homol"; "Pastisc.tif"], Dir);
     (project ++ ["Homol"; "Pastisa.tif"; "c.tif.txt"], File);
     (project ++ ["Homol"; "Pastisa.tif"; "d.tif.txt"], File);
     (project ++ ["Homol"; "Pastisb.tif"; "c.tif.txt"], File);
     (project ++ ["Homol"; "Pastisb.tif"; "d.tif.txt"], File);
     (project ++ ["Homol"; "Pastisc.tif"; "d.tif.txt"], File)].

Definition select_from (fs : FS) (dir : Path) (pattern : string)
  : list Path :=
  [dir ++ ["a.tif"]; dir ++ ["b.tif"]; dir ++ ["c.tif"]; dir ++ ["d.tif"]].

(** A host with one processor. *)
Definition cpu_count : option nat := Some 1.

(** A renderer that raises when the match record it is given is not
    there. *)
Definition render (c : RenderCall) (fs : FS) : option string * FS :=
  match pos_args c with
  | PyPath record :: _ =>
      match fs !! record with
      | Some File => (None, fs)
      | _ => (Some "cannot read the match record", fs)
      end
  | _ => (Some "no match record", fs)
  end.

End Studio.

(** * The workflow steps of [src/micmac/sat_pleiades.py] *)

(** ** Formatting *)

(** The double quote and the line feed, as one-character strings. *)
Definition dquote : string := String "034" EmptyString.
Definition newline : string := String "010" EmptyString.

(** [str(z)] of an [int]: decimal digits, with a sign in front when it is
    negative. *)
Definition str_of_int (z : Z) : string :=
  DecimalString.NilZero.string_of_int (Z.to_int z).

(** [int(b)] of a [bool], formatted. *)
Definition str_of_flag (b : bool) : string := if b then "1" else "0".

(** ** [shlex.split], in its default POSIX mode *)

Module Shlex.

Definition is_whitespace (c : ascii) : bool :=
  Ascii.eqb c " " || Ascii.eqb c "009" || Ascii.eqb c "013"
  || Ascii.eqb c "010".

Definition is_quote (c : ascii) : bool :=
  Ascii.eqb c "'" || Ascii.eqb c "034".

Definition is_escape (c : ascii) : bool := Ascii.eqb c "\".

(** Where the lexer is: between tokens, in a word, inside quotes, or right
    after an escape character, with the state it goes back to (a word, or
    the quotes it is in). *)
Inductive state : Type :=
| Blank
| Word
| Quote (q : ascii)
| Escape (back : option ascii).

Definition emit (tok : string) (r : string + list string)
  : string + list string :=
  match r with
  | inl msg => inl msg
  | inr l => inr (tok :: l)
  end.

Definition snoc (tok : string) (c : ascii) : string :=
  tok +:+ String c EmptyString.

(** The tokens of [s], or the message of the [ValueError].  [tok] is the
    token read so far, and [quoted] tells whether quotes were met in it. *)
Fixpoint lex (st : state) (tok : string) (quoted : bool) (s : string)
  : string + list string :=
  match s with
  | EmptyString =>
      match st with
      | Blank => inr []
      | Word => if quoted || negb (String.eqb tok "") then inr [tok] else inr []
      | Quote _ => inl "No closing quotation"
      | Escape _ => inl "No escaped character"
      end
  | String c s' =>
      match st with
      | Blank =>
          if is_whitespace c then
            if quoted || negb (String.eqb tok "")
            then emit tok (lex Blank "" false s')
            else lex Blank tok quoted s'
          else if is_escape c then lex (Escape None) tok quoted s'
          else if is_quote c then lex (Quote c) tok quoted s'
          else lex Word (String c EmptyString) quoted s'
      | Word =>
          if is_whitespace c then
            if quoted || negb (String.eqb tok "")
            then emit tok (lex Blank "" false s')
            else lex Blank tok quoted s'
          else if is_quote c then lex (Quote c) tok quoted s'
          else if is_escape c then lex (Escape None) tok quoted s'
          else lex Word (snoc tok c) quoted s'
      | Quote q =>
          if Ascii.eqb c q then lex Word tok true s'
          else if is_escape c && Ascii.eqb q "034"
          then lex (Escape (Some q)) tok true s'
          else lex (Quote q) (snoc tok c) true s'
      | Escape None => lex Word (snoc tok c) quoted s'
      | Escape (Some q) =>
          let tok' :=
            if negb (is_escape c) && negb (Ascii.eqb c q)
            then snoc tok "\" else tok in
          lex (Quote q) (snoc tok' c) quoted s'
      end
  end.

Definition split (s : string) : string + list string := lex Blank "" false s.

End Shlex.

(** ** The steps *)

Module Workflow.

(** The disk holds regular files with their text, and directories. *)
Inductive fnode : Type := Regular (content : string) | Directory.

Abbreviation Disk := (gmap Path fnode).

(** The current directory is always there. *)
Definition node_at (d : Disk) (p : Path) : option fnode :=
  match p with
  | [] => Some Directory
  | _ => d !! p
  end.

Inductive error : Type :=
| ValueError (msg : string)
| TypeError (msg : string)
| OSError (kind : string) (p : Path)
| CRSError (msg : string)
| ProcessError (msg : string).

Inductive wevent : Type :=
| Log (line : string)
| Print (line : string)
| Spawn (argv : list string).

Definition W (A : Type) : Type := Disk -> (error + A) * Disk * list wevent.

Definition pure {A : Type} (a : A) : W A := fun d => (inr a, d, []).

Definition raise {A : Type} (e : error) : W A := fun d => (inl e, d, []).

Definition bind {A B : Type} (m : W A) (k : A -> W B) : W B := fun d =>
  match m d with
  | (inl e, d1, t1) => (inl e, d1, t1)
  | (inr a, d1, t1) =>
      match k a d1 with
      | (r, d2, t2) => (r, d2, t1 ++ t2)
      end
  end.

Declare Scope workflow_scope.
Delimit Scope workflow_scope with workflow.
Notation "'let*' x := m 'in' k" := (bind m (fun x => k))
  (at level 10, x name, m at level 100, k at level 200) : workflow_scope.
Notation "m >> k" := (bind m (fun _ => k))
  (at level 100, k at level 200, right associativity) : workflow_scope.

(** [logger.info(line)] and [print(line)] *)
Definition log (line : string) : W unit := fun d => (inr tt, d, [Log line]).
Definition print (line : string) : W unit := fun d =>
  (inr tt, d, [Print line]).

(** [if b: m] *)
Definition when (b : bool) (m : W unit) : W unit := if b then m else pure tt.

(** [shlex.split(cmd)] *)
Definition shlex_split (cmd : string) : W (list string) :=
  match Shlex.split cmd with
  | inl msg => raise (ValueError msg)
  | inr argv => pure argv
  end.

(** An element of the argument list given to [subprocess.run]. *)
Inductive arg : Type := Str (s : string) | Int (z : Z).

Fixpoint strings_of (args : list arg) : option (list string) :=
  match args with
  | [] => Some []
  | Str s :: args' => cons s <$> strings_of args'
  | Int _ :: _ => None
  end.

(** [p.exists()] and [p.unlink()] *)
Definition path_exists (p : Path) : W bool := fun d =>
  (inr (bool_decide (is_Some (node_at d p))), d, []).

Definition path_unlink (p : Path) : W unit := fun d =>
  match node_at d p with
  | Some (Regular _) => (inr tt, delete p d, [])
  | Some Directory => (inl (OSError "IsADirectoryError" p), d, [])
  | None => (inl (OSError "FileNotFoundError" p), d, [])
  end.

(** [open(p, "w")]: the file is created, or emptied. *)
Definition open_w (p : Path) : W unit := fun d =>
  match node_at d p with
  | Some Directory => (inl (OSError "IsADirectoryError" p), d, [])
  | _ =>
      match node_at d (Pathlib.parent p) with
      | Some Directory => (inr tt, <[p := Regular ""]> d, [])
      | Some (Regular _) => (inl (OSError "NotADirectoryError" p), d, [])
      | None => (inl (OSError "FileNotFoundError" p), d, [])
      end
  end.

(** [f.write(text)] on the file opened at [p] *)
Definition file_write (p : Path) (text : string) : W unit := fun d =>
  match d !! p with
  | Some (Regular content) => (inr tt, <[p := Regular (content +:+ text)]> d, [])
  | _ => (inl (OSError "EBADF" p), d, [])
  end.

(** The argument of [create_sysproj_xml]: an [int], a [str], or anything
    else. *)
Inductive epsg_arg : Type :=
| EpsgInt (code : Z)
| EpsgStr (text : string)
| EpsgOther.

Section Steps.

Local Open Scope workflow_scope.

(** The external program: what starting it with an argument vector does to
    the disk, and its standard output, or the reason it could not be
    started. *)
Variable spawn : list string -> Disk -> (string + string) * Disk.

(** [pyproj]: a coordinate reference system from an EPSG code, from a
    string (with the fallback of lines 49 to 52), and its PROJ.4 form. *)
Variable CRS : Type.
Variable crs_from_epsg : Z -> error + CRS.
Variable crs_from_text : string -> error + CRS.
Variable to_proj4 : CRS -> string.

(** [subprocess.run(args, ...)] without [check]: every argument has to be a
    string; the exit status is not looked at. *)
Definition subprocess_run (args : list arg) : W string := fun d =>
  match strings_of args with
  | None =>
      (inl (TypeError "expected str, bytes or os.PathLike object, not int"),
       d, [])
  | Some argv =>
      match spawn argv d with
      | (inl msg, d') => (inl (ProcessError msg), d', [Spawn argv])
      | (inr out, d') => (inr out, d', [Spawn argv])
      end
  end.

Definition create_sysproj_xml (epsg : epsg_arg) (fname : Path) : W Path :=
  let* found := path_exists fname in
  when found (path_unlink fname) >>
  let* crs :=
    match epsg with
    | EpsgInt code =>
        match crs_from_epsg code with
        | inl e => raise e
        | inr crs => pure crs
        end
    | EpsgStr text =>
        match crs_from_text text with
        | inl e => raise e
        | inr crs => pure crs
        end
    | EpsgOther => raise (ValueError "EPSG must be an integer or string.")
    end in
  let proj := to_proj4 crs in
  open_w fname >>
  file_write fname
    ("<?xml version=" +:+ dquote +:+ "1.0" +:+ dquote +:+ " ?>" +:+ newline) >>
  file_write fname ("<SystemeCoord>" +:+ newline) >>
  file_write fname ("     <BSC>" +:+ newline) >>
  file_write fname
    ("          <TypeCoord>eTC_Proj4</TypeCoord>" +:+ newline) >>
  file_write fname
    ("          <AuxStr>" +:+ proj +:+ "</AuxStr>" +:+ newline) >>
  file_write fname ("     </BSC>" +:+ newline) >>
  file_write fname ("</SystemeCoord>" +:+ newline) >>
  log ("Created SysPROJ.xml file: " +:+ Pathlib.str fname) >>
  pure fname.

Definition find_tiepoints (ext_im : string) (pref_im : option string)
    (method : string) (resize : Z) (export_text use_schnaps verbose : bool)
  : W unit :=
  log "Computing tie points..." >>
  if negb (bool_decide
             (method ∈ ["MulScale"; "All"; "Line"; "File"; "Graph"])) then
    raise (ValueError
      "Invalid method. Must be one of: MulScale, All, Line, File, Graph")
  else
  let pref_im := default "" pref_im in
  let cmd :=
    "mm3d Tapioca " +:+ method +:+ " " +:+ dquote +:+ pref_im +:+ "(.*)."
    +:+ ext_im +:+ dquote +:+ " " +:+ str_of_int resize +:+ " ExpTxt="
    +:+ str_of_flag export_text in
  when verbose (print cmd) >>
  let* argv := shlex_split cmd in
  let* ret := subprocess_run (Str <$> argv) in
  when verbose (print ret) >>
  when use_schnaps
    (let* _ := subprocess_run
                 [Str "mm3d"; Str "Schnaps"; Str (".*" +:+ ext_im);
                  Str "MoveBadImgs"; Int 1] in
     pure tt) >>
  log "Tie points computed.".

Definition convert_rpc_info (pref_im ext_im rpc_ext : string) (deg : Z)
    (proj_file : string) (verbose : bool) : W string :=
  let cmd :=
    "mm3d Convert2GenBundle " +:+ dquote +:+ pref_im +:+ "(.*)." +:+ ext_im
    +:+ dquote +:+ " " +:+ dquote +:+ "$1." +:+ rpc_ext +:+ dquote +:+ " "
    +:+ dquote +:+ "RPC-d" +:+ str_of_int deg +:+ dquote +:+ " Degre="
    +:+ str_of_int deg +:+ " ChSys=" +:+ proj_file in
  let* argv := shlex_split cmd in
  let* ret := subprocess_run (Str <$> argv) in
  when verbose (print ret) >>
  let maltOri_dir := "RPC-d" +:+ str_of_int deg in
  log ("RPC information converted. Output directory: " +:+ maltOri_dir) >>
  pure maltOri_dir.

Definition bundle_adjustment (pref_im ext_im : string) (deg : Z)
    (homol_set : option string) (export_text verbose : bool) : W string :=
  log "Performing bundle adjustment..." >>
  let cmd :=
    "mm3d Campari '" +:+ pref_im +:+ "(.*)." +:+ ext_im +:+ "') RPC-d"
    +:+ str_of_int deg +:+ " RPC-d" +:+ str_of_int deg +:+ "-adj ExpTxt="
    +:+ str_of_flag export_text in
  print cmd >>
  let* argv := shlex_split cmd in
  let* ret := subprocess_run (Str <$> argv) in
  print ret >>
  let maltOri_dir := "RPC-d" +:+ str_of_int deg +:+ "-adj" in
  log ("Bundle adjustment completed. Output directory: " +:+ maltOri_dir) >>
  pure maltOri_dir.

(** The values the script runs with (lines 203 to 223), without the
    entries that no step reads. *)
Record config : Type := {
  proj : string;
  pref_im : string;
  ext_im : string;
  rpc_ext : string;
  deg : Z;
  resize : Z;
  export_text : bool;
  use_schnaps : bool;
}.

(** The processing part of the script (lines 226 to 257).  The first two
    arguments of [find_tiepoints] are given by position: the prefix lands in
    [ext_im] and the extension in [pref_im]. *)
Definition script (args : config) : W unit :=
  let* sysproj := create_sysproj_xml (EpsgStr (proj args)) ["SysPROJ.xml"] in
  find_tiepoints (pref_im args) (Some (ext_im args)) "All" (resize args)
    (export_text args) (use_schnaps args) true >>
  let* _ := convert_rpc_info (pref_im args) (ext_im args) (rpc_ext args)
              (deg args) (Pathlib.str sysproj) true in
  let* _ := bundle_adjustment (pref_im args) (ext_im args) (deg args) None
              false true in
  print "Done.".

End Steps.

Definition args : config :=
  {| proj := "EPSG:32632"; pref_im := "IMG"; ext_im := "tif";
     rpc_ext := "xml"; deg := 3; resize := 5000; export_text := true;
     use_schnaps := false |}.

(** The programs started in a run, in order. *)
Definition spawns (t : list wevent) : list (list string) :=
  omap (fun e => match e with Spawn argv => Some argv | _ => None end) t.

(** What [create_sysproj_xml] makes of its argument, before it writes. *)
Definition resolve_epsg {CRS : Type} (crs_from_epsg : Z -> error + CRS)
    (crs_from_text : string -> error + CRS) (epsg : epsg_arg) : error + CRS :=
  match epsg with
  | EpsgInt code => crs_from_epsg code
  | EpsgStr text => crs_from_text text
  | EpsgOther => inl (ValueError "EPSG must be an integer or string.")
  end.

(** The text of the projection file for a PROJ.4 string. *)
Definition sysproj_text (proj : string) : string :=
  "<?xml version=" +:+ dquote +:+ "1.0" +:+ dquote +:+ " ?>" +:+ newline
  +:+ "<SystemeCoord>" +:+ newline
  +:+ "     <BSC>" +:+ newline
  +:+ "          <TypeCoord>eTC_Proj4</TypeCoord>" +:+ newline
  +:+ "          <AuxStr>" +:+ proj +:+ "</AuxStr>" +:+ newline
  +:+ "     </BSC>" +:+ newline
  +:+ "</SystemeCoord>" +:+ newline.

End Workflow.

(** ** A bench to run the steps on *)

Module Bench.

(** A program that starts, reports its first two arguments, and leaves a
    file named after the second one. *)
Definition spawn (argv : list string) (d : Workflow.Disk)
  : (string + string) * Workflow.Disk :=
  match argv with
  | prog :: tool :: _ =>
      (inr (prog +:+ " " +:+ tool +:+ ": done"),
       <[[tool +:+ ".log"] := Workflow.Regular "ok"]> d)
  | _ => (inl "nothing to run", d)
  end.

(** Coordinate reference systems stand for themselves: an EPSG code is
    known when it is positive, a text when it is not empty. *)
Definition crs_from_epsg (code : Z) : Workflow.error + string :=
  if (0 <? code)%Z then inr ("+init=epsg:" +:+ str_of_int code)
  else inl (Workflow.CRSError "Invalid projection").

Definition crs_from_text (text : string) : Workflow.error + string :=
  if String.eqb text "" then inl (Workflow.CRSError "Invalid projection")
  else inr ("+init=" +:+ text).

Definition to_proj4 (crs : string) : string := crs +:+ " +type=crs".

(** A disk with an old projection file. *)
Definition disk : Workflow.Disk :=
  list_to_map [(["SysPROJ.xml"], Workflow.Regular "old text")].

End Bench.


(** ** Characters that tokenization leaves alone *)

(** [f] holds of every character of [s]. *)
Fixpoint all_chars (f : ascii -> bool) (s : string) : bool :=
  match s with
  | EmptyString => true
  | String c s' => f c && all_chars f s'
  end.

(** Outside quotes: no whitespace, no quote, no backslash. *)
Definition plain (c : ascii) : bool :=
  negb (Shlex.is_whitespace c) && negb (Shlex.is_quote c)
  && negb (Shlex.is_escape c).

(** Inside double quotes: no double quote, no backslash. *)
Definition dquote_safe (c : ascii) : bool :=
  negb (Ascii.eqb c "034") && negb (Shlex.is_escape c).

(** Inside single quotes: no single quote. *)
Definition squote_safe (c : ascii) : bool := negb (Ascii.eqb c "'").

(** * Properties *)

(** ** The order on paths *)

Section PathOrder.

Lemma string_compare_refl (s : string) : String.compare s s = Eq.
Proof.
  induction s as [|a s IH]; simpl; [reflexivity|].
  unfold Ascii.compare. rewrite N.compare_refl. exact IH.
Qed.

Lemma string_compare_lt_trans (s t u : string) :
  String.compare s t = Lt -> String.compare t u = Lt ->
  String.compare s u = Lt.
Proof.
  intros Hst Htu.
  assert (Hle : String.le s u).
  { transitivity t; unfold String.le, String.leb.
    - by rewrite Hst.
    - by rewrite Htu. }
  unfold String.le, String.leb in Hle.
  destruct (String.compare s u) eqn:Hsu; [|reflexivity|by destruct Hle].
  apply String.compare_eq_iff in Hsu. subst u.
  rewrite String.compare_antisym, Htu in Hst. discriminate.
Qed.

Lemma compare_refl (p : Path) : Pathlib.compare p p = Eq.
Proof.
  induction p as [|a p IH]; simpl; [reflexivity|].
  by rewrite string_compare_refl.
Qed.

Lemma compare_eq (p q : Path) : Pathlib.compare p q = Eq -> p = q.
Proof.
  revert q. induction p as [|a p IH]; intros [|b q]; simpl; try done.
  destruct (String.compare a b) eqn:Hab; try done.
  intros Hpq. apply String.compare_eq_iff in Hab. f_equal; auto.
Qed.

Lemma compare_antisym (p q : Path) :
  Pathlib.compare p q = CompOpp (Pathlib.compare q p).
Proof.
  revert q. induction p as [|a p IH]; intros [|b q]; simpl; try done.
  rewrite (String.compare_antisym a b).
  destruct (String.compare b a); simpl; auto.
Qed.

Lemma compare_lt_trans (p q r : Path) :
  Pathlib.compare p q = Lt -> Pathlib.compare q r = Lt ->
  Pathlib.compare p r = Lt.
Proof.
  revert q r. induction p as [|a p IH]; intros [|b q] [|c r]; simpl; try done.
  destruct (String.compare a b) eqn:Hab; try done.
  - apply String.compare_eq_iff in Hab. subst b.
    destruct (String.compare a c); try done. apply IH.
  - destruct (String.compare b c) eqn:Hbc; try done.
    + apply String.compare_eq_iff in Hbc. subst c. by rewrite Hab.
    + by rewrite (string_compare_lt_trans a b c).
Qed.

Lemma ltb_lt (p q : Path) :
  Pathlib.ltb p q = true <-> Pathlib.compare p q = Lt.
Proof. unfold Pathlib.ltb. destruct (Pathlib.compare p q); naive_solver. Qed.

Lemma le_not_ltb (p q : Path) : Pathlib.le p q <-> Pathlib.ltb q p = false.
Proof.
  unfold Pathlib.le, Pathlib.ltb. rewrite (compare_antisym q p).
  destruct (Pathlib.compare p q); simpl; naive_solver.
Qed.

Lemma ltb_le (p q : Path) : Pathlib.ltb p q = true -> Pathlib.le p q.
Proof. rewrite ltb_lt. unfold Pathlib.le. by intros ->. Qed.

Lemma le_neq_ltb (p q : Path) :
  Pathlib.le p q -> p <> q -> Pathlib.ltb p q = true.
Proof.
  unfold Pathlib.le. rewrite ltb_lt. intros Hle Hne.
  destruct (Pathlib.compare p q) eqn:Hc; try done.
  by apply compare_eq in Hc.
Qed.

#[global] Instance path_le_refl : Reflexive Pathlib.le.
Proof. intros p. unfold Pathlib.le. by rewrite compare_refl. Qed.

#[global] Instance path_le_trans : Transitive Pathlib.le.
Proof.
  intros p q r. unfold Pathlib.le. intros Hpq Hqr.
  destruct (Pathlib.compare p q) eqn:Hc1; try done.
  - apply compare_eq in Hc1. by subst q.
  - destruct (Pathlib.compare q r) eqn:Hc2; try done.
    + apply compare_eq in Hc2. subst r. by rewrite Hc1.
    + by rewrite (compare_lt_trans p q r).
Qed.

#[global] Instance path_le_antisym : AntiSymm (=) Pathlib.le.
Proof.
  intros p q. unfold Pathlib.le. rewrite (compare_antisym q p).
  destruct (Pathlib.compare p q) eqn:Hc; simpl; try done.
  intros _ _. by apply compare_eq.
Qed.

#[global] Instance path_le_total : Total Pathlib.le.
Proof.
  intros p q. unfold Pathlib.le. rewrite (compare_antisym q p).
  destruct (Pathlib.compare p q); simpl; auto.
Qed.

End PathOrder.

(** ** [sorted] returns the sorted arrangement of its argument *)

Section Sorted.

Lemma insort_Permutation (x : Path) (l : list Path) : insort x l ≡ₚ x :: l.
Proof.
  induction l as [|y l IH]; simpl; [done|].
  destruct (Pathlib.ltb y x); [|done].
  rewrite IH. apply perm_swap.
Qed.

Lemma sorted_Permutation (l : list Path) : sorted l ≡ₚ l.
Proof.
  induction l as [|x l IH]; simpl; [done|].
  by rewrite insort_Permutation, IH.
Qed.

Lemma insort_HdRel (a x : Path) (l : list Path) :
  Pathlib.le a x -> HdRel Pathlib.le a l -> HdRel Pathlib.le a (insort x l).
Proof.
  intros Hax Hal. destruct l as [|y l]; simpl; [by constructor|].
  destruct (Pathlib.ltb y x); constructor; [by inv Hal|done].
Qed.

Lemma insort_Sorted (x : Path) (l : list Path) :
  Sorted Pathlib.le l -> Sorted Pathlib.le (insort x l).
Proof.
  induction 1 as [|y l Hl IH Hy]; simpl; [by repeat constructor|].
  destruct (Pathlib.ltb y x) eqn:Hyx.
  - constructor; [done|]. apply insort_HdRel; [by apply ltb_le|done].
  - constructor; [by constructor|]. constructor. by apply le_not_ltb.
Qed.

Lemma sorted_Sorted (l : list Path) : Sorted Pathlib.le (sorted l).
Proof.
  induction l as [|x l IH]; simpl; [constructor|by apply insort_Sorted].
Qed.

Lemma sorted_StronglySorted (l : list Path) :
  StronglySorted Pathlib.le (sorted l).
Proof. apply Sorted_StronglySorted; [apply _|apply sorted_Sorted]. Qed.

(** The result depends on the elements only, not on the order they came in. *)
Lemma sorted_order_independent (l1 l2 : list Path) :
  l1 ≡ₚ l2 -> sorted l1 = sorted l2.
Proof.
  intros Hperm. apply (Sorted_unique Pathlib.le); try apply sorted_Sorted.
  by rewrite !sorted_Permutation.
Qed.

Lemma sorted_NoDup (l : list Path) : NoDup l -> NoDup (sorted l).
Proof. intros Hnd. by rewrite sorted_Permutation. Qed.

End Sorted.

(** ** Pair enumeration *)

Section Combinations.

Context {A : Type}.
Implicit Types (l : list A) (x y : A).

Lemma combinations2_length_double l :
  2 * length (combinations2 l) = length l * (length l - 1).
Proof.
  induction l as [|x l IH]; simpl; [reflexivity|].
  rewrite length_app, length_map, Nat.sub_0_r.
  destruct (length l) as [|n]; simpl in *; lia.
Qed.

Lemma combinations2_length l :
  length (combinations2 l) = length l * (length l - 1) / 2.
Proof.
  rewrite <-combinations2_length_double, Nat.mul_comm.
  symmetry. apply Nat.div_mul. lia.
Qed.

(** The pairs are the pairs of positions [i < j]. *)
Lemma combinations2_elem_of l x y :
  (x, y) ∈ combinations2 l <->
  exists i j, i < j /\ l !! i = Some x /\ l !! j = Some y.
Proof.
  induction l as [|a l IH]; simpl.
  - split; [by intros ?%elem_of_nil|]. by intros (i & j & _ & ? & _).
  - rewrite elem_of_app, IH, list_elem_of_fmap. split.
    + intros [(b & [= -> ->] & Hb)|(i & j & Hij & Hi & Hj)].
      * apply list_elem_of_lookup in Hb as [j Hj].
        exists 0, (S j). split; [lia|done].
      * exists (S i), (S j). split; [lia|done].
    + intros (i & j & Hij & Hi & Hj).
      destruct j as [|j]; [lia|]. destruct i as [|i]; simpl in *.
      * left. exists y. split; [congruence|].
        apply list_elem_of_lookup. eauto.
      * right. exists i, j. split; [lia|done].
Qed.

Lemma combinations2_fst_elem_of l x y : (x, y) ∈ combinations2 l -> x ∈ l.
Proof.
  rewrite combinations2_elem_of. intros (i & j & _ & Hi & _).
  apply list_elem_of_lookup. eauto.
Qed.

Lemma combinations2_snd_elem_of l x y : (x, y) ∈ combinations2 l -> y ∈ l.
Proof.
  rewrite combinations2_elem_of. intros (i & j & _ & _ & Hj).
  apply list_elem_of_lookup. eauto.
Qed.

Lemma combinations2_NoDup l : NoDup l -> NoDup (combinations2 l).
Proof.
  induction 1 as [|a l Ha Hl IH]; simpl; [constructor|].
  apply NoDup_app. split; [|split; [|done]].
  - apply NoDup_fmap_2; [|done]. by intros ?? [= ->].
  - intros [x y] (b & [= -> ->] & _)%list_elem_of_fmap Hin.
    by apply combinations2_fst_elem_of in Hin.
Qed.

Lemma combinations2_distinct l x y :
  NoDup l -> (x, y) ∈ combinations2 l -> x <> y.
Proof.
  rewrite combinations2_elem_of. intros Hnd (i & j & Hij & Hi & Hj) ->.
  assert (i = j) by (eapply NoDup_lookup; eauto). lia.
Qed.

Lemma combinations2_no_flip l x y :
  NoDup l -> (x, y) ∈ combinations2 l -> (y, x) ∉ combinations2 l.
Proof.
  rewrite !combinations2_elem_of.
  intros Hnd (i & j & Hij & Hi & Hj) (i' & j' & Hij' & Hi' & Hj').
  assert (i = j') by (eapply NoDup_lookup; eauto).
  assert (j = i') by (eapply NoDup_lookup; eauto). lia.
Qed.

End Combinations.

(** In a sorted image set, the first member of a pair is below the second. *)
Lemma combinations2_sorted_ltb (l : list Path) (i0 i1 : Path) :
  NoDup l -> (i0, i1) ∈ combinations2 (sorted l) -> Pathlib.ltb i0 i1 = true.
Proof.
  intros Hnd Hin.
  assert (Hne : i0 <> i1).
  { eapply combinations2_distinct; [|done]. by apply sorted_NoDup. }
  apply le_neq_ltb; [|done].
  apply combinations2_elem_of in Hin as (i & j & Hij & Hi & Hj).
  pose proof (sorted_StronglySorted l) as Hs.
  rewrite <-(take_drop_middle _ _ _ Hi) in Hs, Hj.
  apply StronglySorted_app_1_r in Hs.
  apply StronglySorted_cons in Hs as [Hall _].
  rewrite Forall_forall in Hall. apply Hall.
  rewrite lookup_app_r in Hj by (rewrite length_take; lia).
  rewrite length_take_le in Hj by (apply lookup_lt_Some in Hi; lia).
  destruct (j - i) as [|d] eqn:Hd; [lia|]. simpl in Hj.
  apply list_elem_of_lookup. eauto.
Qed.

(** ** Loops *)

Section Loops.

Context {A : Type}.
Implicit Types (body : A -> M unit) (l : list A) (fs : FS).

Lemma for_each_app body l1 l2 fs :
  for_each (l1 ++ l2) body fs =
  bind (for_each l1 body) (fun _ => for_each l2 body) fs.
Proof.
  revert fs. induction l1 as [|x l1 IH]; intros fs; simpl.
  - unfold bind, ret. simpl. by destruct (for_each l2 body fs) as [[??]?].
  - unfold bind. destruct (body x fs) as [[[e|[]] fs1] t1]; [done|].
    rewrite IH. unfold bind.
    destruct (for_each l1 body fs1) as [[[e|[]] fs2] t2]; [done|].
    destruct (for_each l2 body fs2) as [[r fs3] t3]. by rewrite app_assoc.
Qed.

End Loops.

(** ** Batches of tasks *)

Section Batches.

Context {A : Type}.
Implicit Types (l : list A).

(** The batches, put end to end, are the tasks: the turns allowed are
    enough. *)
Lemma get_tasks_from_concat (turns size : nat) l :
  0 < size -> length l <= turns -> concat (get_tasks_from turns size l) = l.
Proof.
  revert l. induction turns as [|turns IH]; intros l Hsize Hlen; simpl.
  - destruct l; [done|simpl in Hlen; lia].
  - destruct (take size l) as [|x b] eqn:Htake.
    + destruct l as [|y l]; [done|]. destruct size; [lia|done].
    + simpl. rewrite IH; [|done|].
      * change (x :: b ++ drop size l) with ((x :: b) ++ drop size l).
        by rewrite <-Htake, take_drop.
      * rewrite length_drop. destruct l; [by destruct size|].
        simpl in *. lia.
Qed.

Lemma get_tasks_concat (size : nat) l :
  (l <> [] -> 0 < size) -> concat (get_tasks size l) = l.
Proof.
  intros Hsize. unfold get_tasks. destruct l as [|x l]; [done|].
  apply get_tasks_from_concat; [by apply Hsize|done].
Qed.

End Batches.

Lemma chunksize_pos (cpu_count : option nat) (n : nat) :
  0 < n -> 0 < chunksize cpu_count n.
Proof.
  intros Hn. unfold chunksize.
  assert (Hm : processes cpu_count * 4 <> 0).
  { unfold processes. destruct cpu_count as [[|k]|]; lia. }
  destruct (n =? 0) eqn:Hz; [apply Nat.eqb_eq in Hz; lia|].
  destruct (n mod (processes cpu_count * 4) =? 0) eqn:Hextra; [|lia].
  apply Nat.eqb_eq in Hextra.
  pose proof (Nat.div_mod_eq n (processes cpu_count * 4)) as Hdm.
  rewrite Hextra in Hdm.
  destruct (n / (processes cpu_count * 4)); lia.
Qed.

(** ** Runs of the pipeline *)

Section Runs.

Variable select_from : FS -> Path -> string -> list Path.
Variable render : RenderCall -> FS -> option string * FS.
Variable cpu_count : option nat.

Implicit Types (P : Path) (fs : FS) (kwargs : list (string * pyval)).

Lemma match_record_join P (i0 i1 : Path) :
  (P / "Homol" / ("Pastis" +:+ Pathlib.name i0)
     / (Pathlib.name i1 +:+ ".txt"))%path = match_record P i0 i1.
Proof. unfold Pathlib.truediv, match_record. by rewrite <-!app_assoc. Qed.

Lemma artifact_join P (i0 i1 : Path) :
  (P / "match_figs" /
     ("matches_" +:+ Pathlib.name i0 +:+ "-" +:+ Pathlib.name i1 +:+ ".png"))%path
  = artifact P i0 i1.
Proof. unfold Pathlib.truediv, artifact. by rewrite <-!app_assoc. Qed.

Lemma sequential_body_step P kwargs pair fs :
  sequential_body render P (P ++ ["Homol"]) (P ++ ["match_figs"]) kwargs
    pair fs
  = sequential_step render P kwargs pair fs.
Proof.
  destruct pair as [i0 i1].
  pose proof (match_record_join P i0 i1) as Hmp.
  pose proof (artifact_join P i0 i1) as Hout.
  unfold Pathlib.truediv in Hmp, Hout.
  unfold sequential_body, sequential_step, sequential_call, Pathlib.truediv.
  rewrite Hmp, Hout. unfold bind, print, path_exists. simpl.
  destruct (fs !! match_record P i0 i1) as [n|] eqn:Hlook; simpl; [|done].
  unfold call_kw, clashing, reserved_keys. simpl.
  destruct (List.find _ kwargs) as [kv|]; simpl; [done|].
  unfold run_render.
  by destruct (render _ fs) as [[err|] fs'].
Qed.

Lemma for_each_sequential_loop P kwargs pairs fs :
  for_each pairs
    (sequential_body render P (P ++ ["Homol"]) (P ++ ["match_figs"]) kwargs)
    fs
  = sequential_loop render P kwargs pairs fs.
Proof.
  revert fs. induction pairs as [|pr pairs IH]; intros fs; simpl; [done|].
  unfold bind. rewrite sequential_body_step.
  destruct (sequential_step render P kwargs pr fs) as [[[e|[]] fs1] t1]; [done|].
  by rewrite IH.
Qed.

(** The tasks of the parallel path are the workers' calls of the pairs. *)
Lemma params_calls P (images : list Path) :
  map task_call (params P (P ++ ["Homol"]) (P ++ ["match_figs"]) images)
  = map (worker_call P) (combinations2 images).
Proof.
  unfold params. rewrite map_map. apply map_ext. intros [i0 i1].
  pose proof (match_record_join P i0 i1) as Hmp.
  pose proof (artifact_join P i0 i1) as Hout.
  unfold Pathlib.truediv in *. unfold task_call, worker_call.
  by rewrite Hmp, Hout.
Qed.

(** A listing that is not empty comes from a pattern that is accepted. *)
Lemma glob_accepted fs P pat :
  glob select_from fs P pat <> [] -> glob_refusal pat = None.
Proof. unfold glob. by destruct (glob_refusal pat). Qed.

Lemma pairs_accepted fs P pat (pre post : list (Path * Path))
    (pr : Path * Path) :
  combinations2 (sorted (glob select_from fs P pat)) = pre ++ pr :: post ->
  glob_refusal pat = None.
Proof.
  intros Hpairs. apply (glob_accepted fs P). intros Hnil.
  rewrite Hnil in Hpairs. by destruct pre.
Qed.

(** A run on a project path that does not exist. *)
Lemma run_without_project P pat (parallel : bool) kwargs fs :
  fs !! P = None ->
  show_micmac_matches select_from render cpu_count P pat parallel kwargs fs =
  (inl (FileNotFoundError
          ("Project path " +:+ Pathlib.str P +:+ " does not exist")),
   fs, [EvExists P false]).
Proof.
  intros HP. unfold show_micmac_matches, bind, path_exists.
  rewrite bool_decide_eq_false_2; [done|].
  rewrite HP. by intros [? ?].
Qed.

(** A run on a project path that exists and has no [Homol] entry. *)
Lemma run_without_homol P pat (parallel : bool) kwargs fs :
  is_Some (fs !! P) -> fs !! (P ++ ["Homol"]) = None ->
  show_micmac_matches select_from render cpu_count P pat parallel kwargs fs =
  (inl (FileNotFoundError
          ("Homol path " +:+ Pathlib.str (P ++ ["Homol"])
           +:+ " does not exist")),
   fs, [EvExists P true; EvExists (P ++ ["Homol"]) false]).
Proof.
  intros HP HH. unfold show_micmac_matches, bind, path_exists, Pathlib.truediv.
  rewrite (bool_decide_eq_true_2 _ HP). cbn [negb].
  rewrite bool_decide_eq_false_2; [done|].
  rewrite HH. by intros [? ?].
Qed.

(** A run that passes the two directory checks: the listing, which may
    be refused, then the creation of the output directory, then the
    pairs. *)
Lemma show_micmac_matches_checked P pat (parallel : bool) kwargs fs :
  is_Some (fs !! P) -> is_Some (fs !! (P ++ ["Homol"])) ->
  show_micmac_matches select_from render cpu_count P pat parallel kwargs fs =
  match glob_refusal pat with
  | Some e => (inl e, fs, refused_prologue P pat)
  | None =>
      match mkdir (P ++ ["match_figs"]) true true fs with
      | inl e => (inl e, fs, prologue P pat)
      | inr fs1 =>
          let images := sorted (glob select_from fs P pat) in
          match (if parallel
                 then starmap render cpu_count
                        (params P (P ++ ["Homol"]) (P ++ ["match_figs"]) images)
                        fs1
                 else sequential_loop render P kwargs (combinations2 images)
                        fs1) with
          | (r, fs2, t) => (r, fs2, prologue P pat ++ t)
          end
      end
  end.
Proof.
  intros HP HH.
  unfold show_micmac_matches, bind, path_exists, path_glob, path_mkdir, prologue,
    refused_prologue, Pathlib.truediv.
  rewrite (bool_decide_eq_true_2 _ HP). cbn [negb].
  rewrite (bool_decide_eq_true_2 _ HH). cbn [negb].
  destruct (glob_refusal pat) as [e|]; [done|].
  destruct (mkdir (P ++ ["match_figs"]) true true fs) as [e|fs1]; [done|].
  destruct parallel; simpl.
  - by destruct (starmap _ _ _ _) as [[??]?].
  - rewrite for_each_sequential_loop.
    by destruct (sequential_loop _ _ _ _) as [[??]?].
Qed.

(** The same, for a pattern that is accepted. *)
Lemma show_micmac_matches_accepted P pat (parallel : bool) kwargs fs :
  is_Some (fs !! P) -> is_Some (fs !! (P ++ ["Homol"])) ->
  glob_refusal pat = None ->
  show_micmac_matches select_from render cpu_count P pat parallel kwargs fs =
  match mkdir (P ++ ["match_figs"]) true true fs with
  | inl e => (inl e, fs, prologue P pat)
  | inr fs1 =>
      let images := sorted (glob select_from fs P pat) in
      match (if parallel
             then starmap render cpu_count
                    (params P (P ++ ["Homol"]) (P ++ ["match_figs"]) images)
                    fs1
             else sequential_loop render P kwargs (combinations2 images)
                    fs1) with
      | (r, fs2, t) => (r, fs2, prologue P pat ++ t)
      end
  end.
Proof.
  intros HP HH Hpat. rewrite show_micmac_matches_checked by done.
  by rewrite Hpat.
Qed.

End Runs.

(** ** Creating a directory with [parents=True, exist_ok=True] *)

Section Mkdir.

Implicit Types (p a : Path) (cs : list string) (fs : FS).

Lemma parent_snoc p (c : string) : Pathlib.parent (p ++ [c]) = p.
Proof. unfold Pathlib.parent. apply removelast_last. Qed.

Lemma mkdir_parents_existing (n : nat) p fs :
  fs !! p = Some Dir -> mkdir_parents n p true fs = inr fs.
Proof.
  intros Hp. destruct n; simpl; unfold Os.mkdir, is_dir; by rewrite Hp.
Qed.

Lemma mkdir_flat_ok p (ok : bool) fs fs' :
  mkdir_flat p ok fs = inr fs' -> fs' !! p = Some Dir /\ fs ⊆ fs'.
Proof.
  unfold mkdir_flat, Os.mkdir, is_dir.
  destruct (fs !! p) as [[]|] eqn:Hp; simpl; rewrite ?andb_false_r.
  - done.
  - destruct ok; simpl; [|done]. by intros [= <-].
  - destruct (fs !! Pathlib.parent p) as [[]|]; rewrite ?andb_false_r;
      try done.
    intros [= <-]. split; [apply lookup_insert_eq|by apply insert_subseteq].
Qed.

Lemma mkdir_parents_ok n p (ok : bool) fs fs' :
  mkdir_parents n p ok fs = inr fs' -> fs' !! p = Some Dir /\ fs ⊆ fs'.
Proof.
  revert p ok fs fs'. induction n as [|n IH]; intros p ok fs fs'; simpl.
  - unfold Os.mkdir, is_dir.
    destruct (fs !! p) as [[]|] eqn:Hp; simpl; rewrite ?andb_false_r.
    + done.
    + destruct ok; simpl; [|done]. by intros [= <-].
    + destruct (fs !! Pathlib.parent p) as [[]|]; rewrite ?andb_false_r;
        try done.
      intros [= <-]. split; [apply lookup_insert_eq|by apply insert_subseteq].
  - unfold Os.mkdir, is_dir.
    destruct (fs !! p) as [[]|] eqn:Hp; simpl; rewrite ?andb_false_r.
    + done.
    + destruct ok; simpl; [|done]. by intros [= <-].
    + destruct (fs !! Pathlib.parent p) as [[]|] eqn:Hpar;
        rewrite ?andb_false_r; try done.
      * intros [= <-].
        split; [apply lookup_insert_eq|by apply insert_subseteq].
      * destruct (decide (Pathlib.parent p = p)); [done|].
        destruct (mkdir_parents n (Pathlib.parent p) true fs) as [e|fs1] eqn:Hrec;
          [done|].
        apply IH in Hrec as [_ Hsub1].
        intros [Hdir Hsub2]%mkdir_flat_ok. split; [done|by etrans].
Qed.

Lemma add_dirs_snoc a cs (c : string) fs :
  add_dirs a (cs ++ [c]) fs = <[a ++ cs ++ [c] := Dir]> (add_dirs a cs fs).
Proof.
  revert a fs. induction cs as [|c' cs IH]; intros a fs; simpl; [done|].
  by rewrite IH, <-app_assoc.
Qed.

(** [add_dirs] makes the paths [a ++ cs'], for the non-empty prefixes [cs']
    of [cs], directories, and touches no other path. *)
Lemma add_dirs_lookup_new a cs fs (k : nat) :
  0 < k <= length cs -> add_dirs a cs fs !! (a ++ take k cs) = Some Dir.
Proof.
  revert fs k. induction cs as [|c cs IH] using rev_ind; intros fs k Hk.
  - simpl in Hk. lia.
  - rewrite length_app in Hk. simpl in Hk. rewrite add_dirs_snoc.
    destruct (decide (k = length cs + 1)) as [->|Hne].
    + rewrite take_ge by (rewrite length_app; simpl; lia).
      apply lookup_insert_eq.
    + rewrite take_app_le by lia.
      destruct (decide (a ++ cs ++ [c] = a ++ take k cs)) as [Heq|Hneq].
      * rewrite Heq. apply lookup_insert_eq.
      * rewrite lookup_insert_ne by done. apply IH. lia.
Qed.

Lemma add_dirs_lookup_other a cs fs (q : Path) :
  (forall k, 0 < k <= length cs -> q <> a ++ take k cs) ->
  add_dirs a cs fs !! q = fs !! q.
Proof.
  revert fs. induction cs as [|c cs IH] using rev_ind; intros fs Hq.
  - done.
  - rewrite add_dirs_snoc, lookup_insert_ne.
    + apply IH. intros k Hk. specialize (Hq k).
      rewrite length_app, take_app_le in Hq by lia. apply Hq. simpl. lia.
    + specialize (Hq (length (cs ++ [c]))).
      rewrite firstn_all in Hq. intros Heq. apply Hq; [|done].
      rewrite length_app. simpl. lia.
Qed.

(** When [a] is a directory and nothing exists below it on the way to
    [a ++ cs], the whole chain is created. *)
Lemma mkdir_parents_chain a cs fs :
  fs !! a = Some Dir ->
  (forall k, 0 < k <= length cs -> fs !! (a ++ take k cs) = None) ->
  mkdir_parents (length (a ++ cs)) (a ++ cs) true fs = inr (add_dirs a cs fs).
Proof.
  induction cs as [|c cs IH] using rev_ind; intros Ha Hnone.
  - rewrite app_nil_r. by apply mkdir_parents_existing.
  - assert (Hp : fs !! (a ++ cs ++ [c]) = None).
    { specialize (Hnone (length (cs ++ [c]))). rewrite firstn_all in Hnone.
      apply Hnone. rewrite length_app. simpl. lia. }
    assert (Hlen : length (a ++ cs ++ [c]) = S (length (a ++ cs))).
    { rewrite !length_app. simpl. lia. }
    rewrite Hlen. simpl. unfold Os.mkdir. rewrite Hp.
    rewrite app_assoc, parent_snoc, <-app_assoc.
    destruct cs as [|c' cs'] using rev_ind.
    + rewrite app_nil_r, Ha. done.
    + clear IHcs'. set (cs := cs' ++ [c']) in *.
      assert (Hcs : 0 < length cs) by (subst cs; rewrite length_app; simpl; lia).
      assert (Hpar : fs !! (a ++ cs) = None).
      { specialize (Hnone (length cs)).
        rewrite take_app_le, firstn_all in Hnone by lia.
        apply Hnone. rewrite length_app. simpl. lia. }
      rewrite Hpar. rewrite decide_False.
      2:{ intros Heq. apply (f_equal length) in Heq.
          rewrite !length_app in Heq. simpl in Heq. lia. }
      rewrite IH; [|done|].
      2:{ intros k Hk. specialize (Hnone k).
          rewrite take_app_le in Hnone by lia. apply Hnone.
          rewrite length_app. simpl. lia. }
      unfold mkdir_flat, Os.mkdir.
      rewrite add_dirs_lookup_other.
      2:{ intros k Hk Heq. apply (f_equal length) in Heq.
          rewrite !length_app, length_take in Heq. simpl in Heq. lia. }
      rewrite Hp, app_assoc, parent_snoc.
      pose proof (add_dirs_lookup_new a cs fs (length cs)) as Hnew.
      rewrite firstn_all in Hnew. rewrite Hnew by lia.
      by rewrite add_dirs_snoc, app_assoc.
Qed.

(** [mkdir(parents=True, exist_ok=True)] on a path it has already made
    changes nothing. *)
Lemma mkdir_twice p fs fs' :
  mkdir p true true fs = inr fs' -> mkdir p true true fs' = inr fs'.
Proof.
  unfold mkdir. intros [Hdir _]%mkdir_parents_ok.
  by apply mkdir_parents_existing.
Qed.

End Mkdir.

(** ** What a run does, pair by pair *)

Section Shapes.

Variable select_from : FS -> Path -> string -> list Path.
Variable render : RenderCall -> FS -> option string * FS.
Variable cpu_count : option nat.

Implicit Types (P : Path) (fs : FS) (kwargs : list (string * pyval))
  (pairs : list (Path * Path)).

Lemma sequential_loop_shape P kwargs pairs fs :
  let o := sequential_loop render P kwargs pairs fs in
  (exists k, renders (trace o) = take k (map (sequential_call P kwargs) pairs)) /\
  (exists k, exists_checks (trace o)
             = take k (map (fun pr => match_record P pr.1 pr.2) pairs)) /\
  (result o = inr tt ->
   renders (trace o) = map (sequential_call P kwargs) pairs) /\
  final_fs o = after_renders render (renders (trace o)) fs.
Proof.
  revert fs. induction pairs as [|pr pairs IH]; intros fs; simpl.
  - repeat split; by exists 0.
  - unfold sequential_step.
    destruct (fs !! match_record P pr.1 pr.2) as [n|] eqn:Hlook; simpl.
    2:{ repeat split; [by exists 0|by exists 1|done]. }
    destruct (clashing kwargs) as [kv|]; simpl.
    { repeat split; [by exists 0|by exists 1|done]. }
    destruct (render (sequential_call P kwargs pr) fs) as [[err|] fs1] eqn:Hr;
      simpl.
    { repeat split; [by exists 1|by exists 1|done|].
      unfold final_fs, after_renders. simpl. by rewrite Hr. }
    specialize (IH fs1).
    destruct (sequential_loop render P kwargs pairs fs1) as [[r fs2] t2].
    unfold result, final_fs, trace in *. simpl in *.
    destruct IH as ([k Hk] & [k' Hk'] & Hall & Hfs).
    repeat split.
    + exists (S k). simpl. by rewrite Hk.
    + exists (S k'). simpl. by rewrite Hk'.
    + intros Hres. by rewrite Hall.
    + unfold after_renders. simpl. by rewrite Hr.
Qed.

Lemma renders_app (t1 t2 : list event) :
  renders (t1 ++ t2) = renders t1 ++ renders t2.
Proof. apply omap_app. Qed.

Lemma exists_checks_app (t1 t2 : list event) :
  exists_checks (t1 ++ t2) = exists_checks t1 ++ exists_checks t2.
Proof. apply omap_app. Qed.

Lemma after_renders_app (l1 l2 : list RenderCall) fs :
  after_renders render (l1 ++ l2) fs
  = after_renders render l2 (after_renders render l1 fs).
Proof. apply foldl_app. Qed.

(** One batch: the calls of a prefix of its tasks, of all when none
    raises. *)
Lemma starmapstar_shape (batch : list (list pyval)) fs :
  let o := starmapstar render batch fs in
  (exists k, renders (trace o) = take k (map task_call batch)) /\
  exists_checks (trace o) = [] /\
  (result o = inr tt -> renders (trace o) = map task_call batch) /\
  final_fs o = after_renders render (renders (trace o)) fs.
Proof.
  unfold starmapstar. revert fs.
  induction batch as [|args batch IH]; intros fs.
  - repeat split. by exists 0.
  - cbn [for_each]. unfold bind, run_render. fold (task_call args).
    destruct (render (task_call args) fs) as [[err|] fs1] eqn:Hr.
    { repeat split; [by exists 1|done|].
      unfold final_fs, after_renders. simpl. by rewrite Hr. }
    specialize (IH fs1).
    destruct (for_each batch _ fs1) as [[r fs2] t2].
    unfold result, final_fs, trace in *. simpl in *.
    destruct IH as ([k Hk] & Hex & Hall & Hfs).
    repeat split; [|done| |].
    + exists (S k). simpl. by rewrite Hk.
    + intros Hres. by rewrite Hall.
    + unfold after_renders. simpl. by rewrite Hr.
Qed.

(** All the batches: each call made is the call of a task, the calls come
    in the order of the tasks, and no task is called twice. *)
Lemma run_batches_shape (batches : list (list (list pyval))) fs :
  let o := run_batches render batches fs in
  renders o.2 `sublist_of` map task_call (concat batches) /\
  exists_checks o.2 = [] /\
  (o.1.1 = None -> renders o.2 = map task_call (concat batches)) /\
  o.1.2 = after_renders render (renders o.2) fs.
Proof.
  revert fs. induction batches as [|b bs IH]; intros fs; simpl; [done|].
  pose proof (starmapstar_shape b fs) as ([k Hk] & Hex1 & Hall1 & Hfs1).
  destruct (starmapstar render b fs) as [[r fs1] t1].
  specialize (IH fs1).
  destruct (run_batches render bs fs1) as [[e fs2] t2].
  unfold result, final_fs, trace in *. simpl in *.
  destruct IH as (Hsub & Hex2 & Hall2 & Hfs2).
  rewrite renders_app, exists_checks_app, map_app, after_renders_app.
  split_and!.
  - apply sublist_app; [|done]. rewrite Hk. apply sublist_take.
  - by rewrite Hex1, Hex2.
  - intros He. destruct r as [e1|[]]; [done|].
    by rewrite Hall1, Hall2.
  - by rewrite <-Hfs1.
Qed.

Lemma starmap_shape (tasks : list (list pyval)) fs :
  let o := starmap render cpu_count tasks fs in
  renders (trace o) `sublist_of` map task_call tasks /\
  exists_checks (trace o) = [] /\
  (result o = inr tt -> renders (trace o) = map task_call tasks) /\
  final_fs o = after_renders render (renders (trace o)) fs.
Proof.
  unfold starmap.
  pose proof (run_batches_shape
                (get_tasks (chunksize cpu_count (length tasks)) tasks) fs)
    as (Hsub & Hex & Hall & Hfs).
  rewrite get_tasks_concat in Hsub, Hall.
  2,3: intros Hne; apply chunksize_pos; destruct tasks; [done|simpl; lia].
  destruct (run_batches _ _ _) as [[[e|] fs'] t];
    unfold result, final_fs, trace in *; simpl in *; split_and!; try done.
  intros _. by apply Hall.
Qed.

Lemma starmapstar_complete (batch : list (list pyval)) fs :
  (forall c m, (render c m).1 = None) ->
  result (starmapstar render batch fs) = inr tt.
Proof.
  intros Hquiet. unfold starmapstar. revert fs.
  induction batch as [|args batch IH]; intros fs; [done|].
  cbn [for_each]. unfold bind, run_render.
  pose proof (Hquiet (mkCall args []) fs) as Hq.
  destruct (render (mkCall args []) fs) as [[err|] fs1]; simpl in *; [done|].
  specialize (IH fs1).
  by destruct (for_each batch _ fs1) as [[r fs2] t2].
Qed.

Lemma starmap_complete (tasks : list (list pyval)) fs :
  (forall c m, (render c m).1 = None) ->
  result (starmap render cpu_count tasks fs) = inr tt.
Proof.
  intros Hquiet. unfold starmap.
  generalize (get_tasks (chunksize cpu_count (length tasks)) tasks).
  intros batches.
  assert (Hnone : (run_batches render batches fs).1.1 = None).
  { revert fs. induction batches as [|b bs IH]; intros fs; simpl; [done|].
    pose proof (starmapstar_complete b fs Hquiet) as Hb.
    destruct (starmapstar render b fs) as [[r fs1] t1].
    specialize (IH fs1).
    destruct (run_batches render bs fs1) as [[e fs2] t2].
    unfold result in Hb. simpl in *. by subst r. }
  destruct (run_batches render batches fs) as [[[e|] fs'] t]; simpl in *; done.
Qed.

(** A sequential run makes the rendering calls of a prefix of the
    enumerated pairs, in enumeration order, and of all the pairs when it
    returns. *)
Lemma sequential_run_renders P pat kwargs fs :
  let o := show_micmac_matches select_from render cpu_count P pat false
             kwargs fs in
  let pairs := combinations2 (sorted (glob select_from fs P pat)) in
  (exists k, renders (trace o) = take k (map (sequential_call P kwargs) pairs)) /\
  (result o = inr tt ->
   renders (trace o) = map (sequential_call P kwargs) pairs).
Proof.
  destruct (fs !! P) as [n|] eqn:HP.
  2:{ rewrite run_without_project by done. split; [by exists 0|done]. }
  destruct (fs !! (P ++ ["Homol"])) as [n'|] eqn:HH.
  2:{ rewrite run_without_homol by (by rewrite ?HP).
      split; [by exists 0|done]. }
  rewrite show_micmac_matches_checked by (by rewrite ?HP, ?HH).
  destruct (glob_refusal pat) as [e|]; cbv beta iota zeta.
  { split; [by exists 0|done]. }
  destruct (mkdir (P ++ ["match_figs"]) true true fs) as [e|fs1]; simpl.
  { split; [by exists 0|done]. }
  pose proof (sequential_loop_shape P kwargs
                (combinations2 (sorted (glob select_from fs P pat))) fs1)
    as (Hk & _ & Hall & _).
  by destruct (sequential_loop _ _ _ _ _) as [[r fs2] t2].
Qed.

(** A parallel run makes calls of the workers for enumerated pairs only,
    none twice, and of all the pairs when it returns. *)
Lemma parallel_run_renders P pat kwargs fs :
  let o := show_micmac_matches select_from render cpu_count P pat true
             kwargs fs in
  let pairs := combinations2 (sorted (glob select_from fs P pat)) in
  renders (trace o) `sublist_of` map (worker_call P) pairs /\
  (result o = inr tt -> renders (trace o) = map (worker_call P) pairs).
Proof.
  destruct (fs !! P) as [n|] eqn:HP.
  2:{ rewrite run_without_project by done. split; [apply sublist_nil_l|done]. }
  destruct (fs !! (P ++ ["Homol"])) as [n'|] eqn:HH.
  2:{ rewrite run_without_homol by (by rewrite ?HP).
      split; [apply sublist_nil_l|done]. }
  rewrite show_micmac_matches_checked by (by rewrite ?HP, ?HH).
  destruct (glob_refusal pat) as [e|]; cbv beta iota zeta.
  { split; [apply sublist_nil_l|done]. }
  destruct (mkdir (P ++ ["match_figs"]) true true fs) as [e|fs1]; simpl.
  { split; [apply sublist_nil_l|done]. }
  pose proof (starmap_shape
                (params P (P ++ ["Homol"]) (P ++ ["match_figs"])
                   (sorted (glob select_from fs P pat))) fs1)
    as (Hsub & _ & Hall & _).
  rewrite params_calls in Hsub, Hall.
  by destruct (starmap _ _ _ _) as [[r fs2] t2].
Qed.

(** The existence tests of a run: the project directory, [Homol], and then,
    in sequential mode only, the match records of a prefix of the pairs. *)
Lemma run_exists_checks P pat (parallel : bool) kwargs fs :
  let o := show_micmac_matches select_from render cpu_count P pat parallel kwargs fs in
  let pairs := combinations2 (sorted (glob select_from fs P pat)) in
  exists k, exists_checks (trace o)
            = take k ([P; P ++ ["Homol"]] ++
                      if parallel then []
                      else map (fun pr => match_record P pr.1 pr.2) pairs).
Proof.
  destruct (fs !! P) as [n|] eqn:HP.
  2:{ rewrite run_without_project by done. by exists 1. }
  destruct (fs !! (P ++ ["Homol"])) as [n'|] eqn:HH.
  2:{ rewrite run_without_homol by (by rewrite ?HP). by exists 2. }
  rewrite show_micmac_matches_checked by (by rewrite ?HP, ?HH).
  destruct (glob_refusal pat) as [e|]; cbv beta iota zeta.
  { by exists 2. }
  destruct (mkdir (P ++ ["match_figs"]) true true fs) as [e|fs1]; simpl.
  { by exists 2. }
  destruct parallel; simpl.
  - pose proof (starmap_shape
                  (params P (P ++ ["Homol"]) (P ++ ["match_figs"])
                     (sorted (glob select_from fs P pat))) fs1)
      as (_ & Hex & _ & _).
    destruct (starmap _ _ _ _) as [[r fs2] t2].
    unfold trace in *. simpl in *. exists 2.
    unfold exists_checks in *. simpl. by rewrite Hex.
  - pose proof (sequential_loop_shape P kwargs
                  (combinations2 (sorted (glob select_from fs P pat))) fs1)
      as (_ & [k Hk] & _ & _).
    destruct (sequential_loop _ _ _ _ _) as [[r fs2] t2].
    unfold trace in *. simpl in *. exists (S (S k)).
    unfold exists_checks in *. simpl. by rewrite Hk.
Qed.

End Shapes.

(** ** Auxiliary facts for the claims *)

Section Auxiliary.

Implicit Types (P p : Path) (fs : FS).

Lemma combinations2_short {A : Type} (l : list A) :
  length l < 2 -> combinations2 l = [].
Proof. destruct l as [|x [|y l]]; simpl; [done|done|lia]. Qed.

Lemma sorted_length (l : list Path) : length (sorted l) = length l.
Proof. by rewrite sorted_Permutation. Qed.

(** Making a directory directly below an existing one. *)
Lemma mkdir_child P (c : string) fs :
  fs !! P = Some Dir -> fs !! (P ++ [c]) <> Some File ->
  mkdir (P ++ [c]) true true fs = inr (<[P ++ [c] := Dir]> fs).
Proof.
  intros HP Hc. unfold mkdir.
  destruct (fs !! (P ++ [c])) as [[]|] eqn:Hlook; [done| |].
  - rewrite mkdir_parents_existing by done. by rewrite insert_id.
  - rewrite (mkdir_parents_chain P [c] fs); [done|done|].
    intros k Hk. simpl in Hk. by replace k with 1 by lia.
Qed.

Lemma os_mkdir_error p fs (e : exn) : Os.mkdir p fs = inl e -> os_error e.
Proof.
  unfold Os.mkdir.
  destruct (fs !! p); [intros [= <-]; simpl; eauto|].
  destruct (fs !! Pathlib.parent p) as [[]|]; intros [= <-]; simpl; eauto.
Qed.

Lemma mkdir_flat_error p (ok : bool) fs (e : exn) :
  mkdir_flat p ok fs = inl e -> os_error e.
Proof.
  unfold mkdir_flat.
  destruct (Os.mkdir p fs) as [e'|] eqn:Hos; [|done].
  apply os_mkdir_error in Hos.
  destruct e'; try (intros [= <-]; done);
    destruct (ok && is_dir p fs); try done; by intros [= <-].
Qed.

Lemma mkdir_parents_error (n : nat) p (ok : bool) fs (e : exn) :
  mkdir_parents n p ok fs = inl e -> os_error e.
Proof.
  revert p ok fs. induction n as [|n IH]; intros p ok fs; simpl.
  - destruct (Os.mkdir p fs) as [e'|] eqn:Hos; [|done].
    apply os_mkdir_error in Hos.
    destruct e'; try (intros [= <-]; done);
      destruct (ok && is_dir p fs); try done; by intros [= <-].
  - destruct (Os.mkdir p fs) as [e'|] eqn:Hos; [|done].
    apply os_mkdir_error in Hos.
    destruct e';
      try (destruct (ok && is_dir p fs); try done; by intros [= <-]).
    destruct (decide (Pathlib.parent p = p)); [by intros [= <-]|].
    destruct (mkdir_parents n (Pathlib.parent p) true fs) as [e'|fs1] eqn:Hrec.
    + intros [= <-]. by eapply IH.
    + apply mkdir_flat_error.
Qed.

(** The messages of the pipeline's own errors tell them apart, and apart
    from the operating system's. *)
Lemma matches_message_not_project (x y : string) :
  "Project path " +:+ x <> "Matches file " +:+ y.
Proof. intros H. cbv [String.append] in H. discriminate. Qed.

Lemma matches_message_not_homol (x y : string) :
  "Homol path " +:+ x <> "Matches file " +:+ y.
Proof. intros H. cbv [String.append] in H. discriminate. Qed.

Lemma matches_message_not_os (e : exn) (y : string) :
  os_error e -> e <> FileNotFoundError ("Matches file " +:+ y).
Proof.
  intros Hos ->. destruct Hos as (code & what & q & H).
  unfold Os.errno in H. cbv [String.append] in H. discriminate.
Qed.

Lemma after_renders_keeps (render : RenderCall -> FS -> option string * FS)
    (calls : list RenderCall) p fs :
  (forall c m, m !! p = Some Dir -> (render c m).2 !! p = Some Dir) ->
  fs !! p = Some Dir -> after_renders render calls fs !! p = Some Dir.
Proof.
  intros Hkeep. revert fs. unfold after_renders.
  induction calls as [|c calls IH]; intros fs Hp; simpl; [done|].
  apply IH. by apply Hkeep.
Qed.

Lemma string_length_app (s t : string) :
  String.length (s +:+ t) = String.length s + String.length t.
Proof. induction s as [|a s IH]; simpl; [done|]. by rewrite IH. Qed.

Lemma string_app_inv_tail (s1 s2 t : string) :
  s1 +:+ t = s2 +:+ t -> s1 = s2.
Proof.
  revert s2. induction s1 as [|a s1 IH]; intros [|b s2] H; try done.
  - apply (f_equal String.length) in H.
    rewrite !string_length_app in H. simpl in H. lia.
  - apply (f_equal String.length) in H.
    rewrite !string_length_app in H. simpl in H. lia.
  - cbv [String.append] in H. fold String.append in H.
    injection H as -> H. f_equal. by apply IH.
Qed.

(** A string is cut at its first ["-"] in one way only. *)
Lemma cut_at_first_hyphen (a a' b b' : string) :
  has_char "-" a = false -> has_char "-" a' = false ->
  a +:+ "-" +:+ b = a' +:+ "-" +:+ b' -> a = a' /\ b = b'.
Proof.
  revert a'. induction a as [|c a IH]; intros [|c' a'] Ha Ha' H;
    cbv [String.append] in H; fold String.append in H.
  - by injection H as ->.
  - injection H as <- _. simpl in Ha'. done.
  - injection H as -> _. simpl in Ha. done.
  - injection H as -> H. simpl in Ha, Ha'.
    apply orb_false_iff in Ha as [_ Ha]. apply orb_false_iff in Ha' as [_ Ha'].
    destruct (IH a' Ha Ha' H) as [-> ->]. done.
Qed.

Lemma artifact_inj P (i0 i1 j0 j1 : Path) :
  has_char "-" (Pathlib.name i0) = false ->
  has_char "-" (Pathlib.name j0) = false ->
  artifact P i0 i1 = artifact P j0 j1 ->
  Pathlib.name i0 = Pathlib.name j0 /\ Pathlib.name i1 = Pathlib.name j1.
Proof.
  intros Hi Hj Heq. unfold artifact in Heq.
  apply app_inv_head in Heq.
  assert (Hlast : "matches_" +:+ Pathlib.name i0 +:+ "-" +:+ Pathlib.name i1
                  +:+ ".png"
                  = "matches_" +:+ Pathlib.name j0 +:+ "-" +:+ Pathlib.name j1
                  +:+ ".png") by congruence.
  clear Heq. apply (inj (String.app "matches_")) in Hlast. rename Hlast into Heq.
  apply cut_at_first_hyphen in Heq as [Hn0 Hn1]; [|done..].
  split; [done|]. by apply string_app_inv_tail in Hn1.
Qed.

Lemma NoDup_fmap_elem_inj {A B : Type} (f : A -> B) (l : list A) (x y : A) :
  NoDup (f <$> l) -> x ∈ l -> y ∈ l -> f x = f y -> x = y.
Proof.
  induction l as [|a l IH]; simpl; [by intros _ ?%elem_of_nil|].
  rewrite NoDup_cons, !elem_of_cons. intros [Ha Hl] [->|Hx] [->|Hy] Hf; auto.
  - exfalso. apply Ha. rewrite Hf. by apply list_elem_of_fmap_2.
  - exfalso. apply Ha. rewrite <-Hf. by apply list_elem_of_fmap_2.
Qed.

Lemma compare_app_same (d p q : Path) :
  Pathlib.compare (d ++ p) (d ++ q) = Pathlib.compare p q.
Proof.
  induction d as [|c d IH]; simpl; [done|]. by rewrite string_compare_refl.
Qed.

Lemma le_siblings (d : Path) (n m : string) :
  Pathlib.le (d ++ [n]) (d ++ [m]) -> String.le n m.
Proof.
  unfold Pathlib.le, String.le, String.leb. rewrite compare_app_same. simpl.
  by destruct (String.compare n m).
Qed.

Lemma name_snoc (d : Path) (n : string) : Pathlib.name (d ++ [n]) = n.
Proof. unfold Pathlib.name. apply last_last. Qed.

Lemma StronglySorted_on {A : Type} (R R' : relation A) (l : list A) :
  (forall x y, x ∈ l -> y ∈ l -> R x y -> R' x y) ->
  StronglySorted R l -> StronglySorted R' l.
Proof.
  intros Himp Hs. induction Hs as [|x l Hs IH Hall]; constructor.
  - apply IH. intros y z Hy Hz. apply Himp; by right.
  - rewrite Forall_forall in *. intros y Hy.
    apply Himp; [by left|by right|by apply Hall].
Qed.

Lemma params_worker_calls P (images : list Path) :
  params P (P ++ ["Homol"]) (P ++ ["match_figs"]) images
  = map (fun pr => pos_args (worker_call P pr)) (combinations2 images).
Proof.
  unfold params. apply map_ext. intros [i0 i1].
  pose proof (match_record_join P i0 i1) as Hmp.
  pose proof (artifact_join P i0 i1) as Hout.
  unfold Pathlib.truediv in *. by rewrite Hmp, Hout.
Qed.

End Auxiliary.

(** ** Patterns that are refused *)

Lemma selector_error_kind (parts : list string) (e : exn) :
  selector_error parts = Some e -> exists m, e = ValueError m.
Proof.
  induction parts as [|x parts IH]; simpl; [done|].
  destruct (String.eqb x ""); [done|].
  destruct (String.eqb x "**"); [done|].
  destruct (Pathlib.has_double_star x); [|done].
  intros [= <-]. by eexists.
Qed.

Lemma glob_refusal_kind (pattern : string) (e : exn) :
  glob_refusal pattern = Some e ->
  (exists m, e = ValueError m) \/ (exists m, e = NotImplementedError m) \/
  (exists m, e = IndexError m) \/ (exists m, e = AttributeError m).
Proof.
  unfold glob_refusal. destruct pattern as [|c pattern].
  { intros [= <-]. left. by eexists. }
  destruct (Ascii.eqb c "/").
  { intros [= <-]. right; left. by eexists. }
  destruct (Pathlib.pattern_parts (String c pattern)) as [|part parts].
  { intros [= <-]. right; right; left. by eexists. }
  destruct (String.eqb part "").
  { intros [= <-]. right; right; right. by eexists. }
  intros H. left. by eapply selector_error_kind.
Qed.

(** ** Whole runs *)

Section RunFacts.

Variable select_from : FS -> Path -> string -> list Path.
Variable render : RenderCall -> FS -> option string * FS.
Variable cpu_count : option nat.

Implicit Types (P : Path) (fs : FS) (kwargs : list (string * pyval))
  (pairs : list (Path * Path)).

Lemma sequential_loop_returns P kwargs pairs fs fs' (t : list event) :
  sequential_loop render P kwargs pairs fs = (inr tt, fs', t) ->
  t = concat (map (pair_events P kwargs) pairs).
Proof.
  revert fs t. induction pairs as [|pr pairs IH]; intros fs t; simpl.
  - by intros [= _ <-].
  - unfold sequential_step.
    destruct (fs !! match_record P pr.1 pr.2); [|done].
    destruct (clashing kwargs); [done|].
    destruct (render (sequential_call P kwargs pr) fs) as [[err|] fs1]; [done|].
    destruct (sequential_loop render P kwargs pairs fs1) as [[r fs2] t2] eqn:Hrec.
    intros [= -> -> <-]. by rewrite (IH _ _ Hrec).
Qed.

(** The five ways a run can go: no project directory, no [Homol], a
    pattern that is refused, no output directory, or on to the pairs. *)
Lemma run_checked_cases P pat (parallel : bool) kwargs fs :
  (exists e, show_micmac_matches select_from render cpu_count P pat parallel
               kwargs fs
             = (inl e, fs, [EvExists P false])) \/
  (exists e, show_micmac_matches select_from render cpu_count P pat parallel
               kwargs fs
             = (inl e, fs, [EvExists P true; EvExists (P ++ ["Homol"]) false])) \/
  (exists e, glob_refusal pat = Some e /\
             show_micmac_matches select_from render cpu_count P pat parallel
               kwargs fs
             = (inl e, fs, refused_prologue P pat)) \/
  (exists e, mkdir (P ++ ["match_figs"]) true true fs = inl e /\
             show_micmac_matches select_from render cpu_count P pat parallel
               kwargs fs
             = (inl e, fs, prologue P pat)) \/
  (exists fs1,
     is_Some (fs !! P) /\
     glob_refusal pat = None /\
     mkdir (P ++ ["match_figs"]) true true fs = inr fs1 /\
     show_micmac_matches select_from render cpu_count P pat parallel kwargs fs =
     let images := sorted (glob select_from fs P pat) in
     match (if parallel
            then starmap render cpu_count
                   (params P (P ++ ["Homol"]) (P ++ ["match_figs"]) images) fs1
            else sequential_loop render P kwargs (combinations2 images) fs1)
     with
     | (r, fs2, t) => (r, fs2, prologue P pat ++ t)
     end).
Proof.
  destruct (fs !! P) as [n|] eqn:HP.
  2:{ left. eexists. by apply run_without_project. }
  destruct (fs !! (P ++ ["Homol"])) as [n'|] eqn:HH.
  2:{ right; left. eexists. apply run_without_homol; by rewrite ?HP. }
  right; right.
  rewrite show_micmac_matches_checked by (by rewrite ?HP, ?HH).
  destruct (glob_refusal pat) as [e|].
  { left. by exists e. }
  right.
  destruct (mkdir (P ++ ["match_figs"]) true true fs) as [e|fs1].
  - left. by exists e.
  - right. exists fs1. split_and!; [by eexists|done|done|done].
Qed.

Lemma clashing_None kwargs :
  (forall kv, kv ∈ kwargs -> kv.1 ∉ reserved_keys) -> clashing kwargs = None.
Proof.
  unfold clashing. induction kwargs as [|kv kwargs IH]; intros Hfree; simpl;
    [done|].
  rewrite bool_decide_eq_false_2 by (apply Hfree; by left).
  apply IH. intros kv' Hin. apply Hfree. by right.
Qed.

Lemma clashing_Some kwargs (kv : string * pyval) :
  kv ∈ kwargs -> kv.1 ∈ reserved_keys ->
  exists kv', clashing kwargs = Some kv' /\ kv'.1 ∈ reserved_keys.
Proof.
  unfold clashing. induction kwargs as [|kv0 kwargs IH]; simpl.
  - by intros ?%elem_of_nil.
  - intros Hin Hres. destruct (decide (kv0.1 ∈ reserved_keys)) as [Hyes|Hno].
    + rewrite bool_decide_eq_true_2 by done. by exists kv0.
    + rewrite bool_decide_eq_false_2 by done. apply IH; [|done].
      apply elem_of_cons in Hin as [->|Hin]; done.
Qed.

Lemma sequential_loop_complete P kwargs pairs fs :
  (forall pr, pr ∈ pairs -> is_Some (fs !! match_record P pr.1 pr.2)) ->
  clashing kwargs = None ->
  (forall c m, (render c m).1 = None) ->
  (forall c m (p : Path), is_Some (m !! p) -> is_Some ((render c m).2 !! p)) ->
  result (sequential_loop render P kwargs pairs fs) = inr tt.
Proof.
  intros Hrec Hclash Hquiet Hkeep. revert fs Hrec.
  induction pairs as [|pr pairs IH]; intros fs Hrec; simpl; [done|].
  unfold sequential_step. rewrite Hclash.
  destruct (Hrec pr) as [n ->]; [by left|].
  pose proof (Hquiet (sequential_call P kwargs pr) fs) as Hq.
  pose proof (Hkeep (sequential_call P kwargs pr) fs) as Hk.
  destruct (render (sequential_call P kwargs pr) fs) as [[err|] fs1];
    simpl in *; [done|].
  specialize (IH fs1).
  destruct (sequential_loop render P kwargs pairs fs1) as [[r fs2] t2].
  unfold result in *. simpl in *. apply IH.
  intros pr' Hin. apply Hk, Hrec. by right.
Qed.

(** The errors of the two loops are not those of the operating system. *)
Lemma sequential_loop_error P kwargs pairs fs (e : exn) :
  result (sequential_loop render P kwargs pairs fs) = inl e -> ~ os_error e.
Proof.
  revert fs. induction pairs as [|pr pairs IH]; intros fs; simpl; [done|].
  unfold sequential_step.
  destruct (fs !! match_record P pr.1 pr.2).
  2:{ unfold result. simpl. intros [= <-] Hos.
      by eapply matches_message_not_os. }
  destruct (clashing kwargs).
  { unfold result. simpl. intros [= <-]. simpl. by intros ?. }
  destruct (render (sequential_call P kwargs pr) fs) as [[err|] fs1].
  { unfold result. simpl. intros [= <-]. simpl. by intros ?. }
  specialize (IH fs1).
  destruct (sequential_loop render P kwargs pairs fs1) as [[r fs2] t2].
  unfold result in *. simpl in *. done.
Qed.

Lemma starmap_error_kind (tasks : list (list pyval)) fs (e : exn) :
  result (starmap render cpu_count tasks fs) = inl e ->
  exists err : string, e = RenderingError err.
Proof.
  unfold starmap.
  generalize (get_tasks (chunksize cpu_count (length tasks)) tasks).
  intros batches.
  assert (Hstar : forall (b : list (list pyval)) (m : FS) (e' : exn),
    result (starmapstar render b m) = inl e' ->
    exists err : string, e' = RenderingError err).
  { unfold starmapstar. intros b. induction b as [|args b IH]; intros m e';
      [done|].
    cbn [for_each]. unfold bind, run_render.
    destruct (render (mkCall args []) m) as [[err|] m1].
    { unfold result. simpl. intros [= <-]. by eexists. }
    specialize (IH m1 e').
    destruct (for_each b _ m1) as [[r m2] t2].
    unfold result in *. simpl in *. done. }
  assert (Herr : forall e', (run_batches render batches fs).1.1 = Some e' ->
                            exists err : string, e' = RenderingError err).
  { revert fs. induction batches as [|b bs IH]; intros fs e'; simpl; [done|].
    pose proof (Hstar b fs) as Hb.
    destruct (starmapstar render b fs) as [[r fs1] t1].
    specialize (IH fs1 e').
    destruct (run_batches render bs fs1) as [[e2 fs2] t2].
    unfold result in Hb. simpl in *.
    destruct r as [e1|[]]; [|done]. intros [= <-]. by apply Hb. }
  destruct (run_batches render batches fs) as [[[e'|] fs'] t]; simpl in *;
    unfold result; simpl; [|done].
  intros [= <-]. by apply Herr.
Qed.

Lemma starmap_error (tasks : list (list pyval)) fs (e : exn) :
  result (starmap render cpu_count tasks fs) = inl e -> ~ os_error e.
Proof. intros [err ->]%starmap_error_kind. simpl. by intros ?. Qed.

(** A run on a project where the parallel path cannot fail. *)
Lemma parallel_run_complete P pat kwargs fs :
  fs !! P = Some Dir -> is_Some (fs !! (P ++ ["Homol"])) ->
  glob_refusal pat = None ->
  fs !! (P ++ ["match_figs"]) <> Some File ->
  (forall c m, (render c m).1 = None) ->
  result (show_micmac_matches select_from render cpu_count P pat true kwargs fs)
  = inr tt.
Proof.
  intros HP HH Hpat Hmd Hquiet.
  rewrite show_micmac_matches_accepted by (by rewrite ?HP).
  rewrite mkdir_child by done. cbv beta iota zeta.
  pose proof (starmap_complete render cpu_count
    (params P (P ++ ["Homol"]) (P ++ ["match_figs"])
       (sorted (glob select_from fs P pat)))
    (<[P ++ ["match_figs"] := Dir]> fs) Hquiet) as Hloop.
  by destruct (starmap _ _ _ _) as [[r fs2] t2].
Qed.

(** A run on a project where the sequential path cannot fail. *)
Lemma sequential_run_complete P pat kwargs fs :
  fs !! P = Some Dir -> is_Some (fs !! (P ++ ["Homol"])) ->
  glob_refusal pat = None ->
  fs !! (P ++ ["match_figs"]) <> Some File ->
  (forall c m, (render c m).1 = None) ->
  (forall pr, pr ∈ combinations2 (sorted (glob select_from fs P pat)) ->
              is_Some (fs !! match_record P pr.1 pr.2)) ->
  (forall kv, kv ∈ kwargs -> kv.1 ∉ ["i0_name"; "i1_name"; "out"]) ->
  (forall c m (p : Path), is_Some (m !! p) -> is_Some ((render c m).2 !! p)) ->
  result (show_micmac_matches select_from render cpu_count P pat false kwargs fs)
  = inr tt.
Proof.
  intros HP HH Hpat Hmd Hquiet Hrec Hfree Hkeep.
  rewrite show_micmac_matches_accepted by (by rewrite ?HP).
  rewrite mkdir_child by done. cbv beta iota zeta.
  pose proof (sequential_loop_complete P kwargs
    (combinations2 (sorted (glob select_from fs P pat)))
    (<[P ++ ["match_figs"] := Dir]> fs)) as Hloop.
  destruct (sequential_loop _ _ _ _ _) as [[r fs2] t2].
  apply Hloop; [|by apply clashing_None|done..].
  intros pr Hin. destruct (Hrec pr Hin) as [n Hn].
  destruct (decide (P ++ ["match_figs"] = match_record P pr.1 pr.2))
    as [<-|Hne].
  - rewrite lookup_insert_eq. by eexists.
  - rewrite lookup_insert_ne by done. by eexists.
Qed.

(** The existence tests of a sequential run that returns. *)
Lemma sequential_run_checks P pat kwargs fs :
  let o := show_micmac_matches select_from render cpu_count P pat false
             kwargs fs in
  result o = inr tt ->
  exists_checks (trace o)
  = [P; P ++ ["Homol"]] ++
    map (fun pr => match_record P pr.1 pr.2)
        (combinations2 (sorted (glob select_from fs P pat))).
Proof.
  intros o Hres. subst o.
  destruct (run_checked_cases P pat false kwargs fs)
    as [[e H]|[[e H]|[(e & _ & H)|[(e & _ & H)|(fs1 & _ & _ & _ & H)]]]];
    rewrite H in Hres |- *; try done.
  cbv beta iota zeta in *.
  destruct (sequential_loop render P kwargs _ fs1) as [[r fs2] t2] eqn:Hloop.
  unfold result, trace in *. simpl in *. subst r.
  rewrite (sequential_loop_returns _ _ _ _ _ _ Hloop).
  do 2 f_equal. clear Hloop H.
  induction (combinations2 (sorted (glob select_from fs P pat)))
    as [|pr pairs IH]; simpl; [done|].
  by rewrite IH.
Qed.

Lemma mkdir_below_existing P (c : string) fs fs1 :
  is_Some (fs !! P) -> mkdir (P ++ [c]) true true fs = inr fs1 ->
  fs1 = fs \/ fs1 = <[P ++ [c] := Dir]> fs.
Proof.
  intros [n HP]. unfold mkdir.
  replace (length (P ++ [c])) with (S (length P))
    by (rewrite length_app; simpl; lia).
  simpl. unfold Os.mkdir, is_dir. rewrite parent_snoc, HP.
  destruct (fs !! (P ++ [c])) as [[]|]; simpl; [done|by intros [= <-]; left|].
  destruct n; simpl; [done|]. intros [= <-]. by right.
Qed.

(** After any run the file system is the one the creation of the output
    directory left, changed by the rendering calls of the trace. *)
Lemma run_final_fs P pat (parallel : bool) kwargs fs :
  let o := show_micmac_matches select_from render cpu_count P pat parallel
             kwargs fs in
  exists fs_mid : FS,
    (fs_mid = fs \/ fs_mid = <[P ++ ["match_figs"] := Dir]> fs) /\
    final_fs o = after_renders render (renders (trace o)) fs_mid.
Proof.
  intros o. subst o.
  destruct (run_checked_cases P pat parallel kwargs fs)
    as [[e H]|[[e H]|[(e & _ & H)|[(e & _ & H)|(fs1 & HP & Hpat & Hmk & H)]]]];
    rewrite H;
    try (exists fs; split; [by left|done]).
  exists fs1. split; [by eapply mkdir_below_existing|].
  cbv beta iota zeta. destruct parallel.
  - pose proof (starmap_shape render cpu_count
                  (params P (P ++ ["Homol"]) (P ++ ["match_figs"])
                     (sorted (glob select_from fs P pat))) fs1)
      as (_ & _ & _ & Hfs).
    by destruct (starmap _ _ _ _) as [[r fs2] t2].
  - pose proof (sequential_loop_shape render P kwargs
                  (combinations2 (sorted (glob select_from fs P pat))) fs1)
      as (_ & _ & _ & Hfs).
    by destruct (sequential_loop _ _ _ _ _) as [[r fs2] t2].
Qed.

End RunFacts.

(** * The claims *)

Section Claims.

Variable select_from : FS -> Path -> string -> list Path.
Variable render : RenderCall -> FS -> option string * FS.
Variable cpu_count : option nat.

Implicit Types (P : Path) (fs : FS) (kwargs : list (string * pyval)).

(** C4: a missing project directory, and otherwise a missing [Homol]
    directory, raise [FileNotFoundError]; both checks come before image
    discovery, pair enumeration and pair processing: the run has tested
    nothing else, has listed no directory, has made no directory and no
    rendering call, and has left the file system as it was. *)
Theorem directory_checks_come_first P pat (parallel : bool) kwargs fs :
  (fs !! P = None ->
   show_micmac_matches select_from render cpu_count P pat parallel kwargs fs =
   (inl (FileNotFoundError
           ("Project path " +:+ Pathlib.str P +:+ " does not exist")),
    fs, [EvExists P false])) /\
  (is_Some (fs !! P) -> fs !! (P ++ ["Homol"]) = None ->
   show_micmac_matches select_from render cpu_count P pat parallel kwargs fs =
   (inl (FileNotFoundError
           ("Homol path " +:+ Pathlib.str (P ++ ["Homol"])
            +:+ " does not exist")),
    fs, [EvExists P true; EvExists (P ++ ["Homol"]) false])).
Proof.
  split.
  - apply run_without_project.
  - apply run_without_homol.
Qed.

(** C2: in sequential mode, when the loop has worked through the pairs
    [pre] and the match record of the next pair [(i0, i1)] does not exist,
    the run raises [FileNotFoundError] with a message that holds the missing
    path; the rendering calls made are those of [pre], in order, so there is
    none for [(i0, i1)] and none for a later pair, and nothing after the
    failed test happens. *)
Theorem missing_match_record_aborts P pat kwargs fs fs1
    (pre post : list (Path * Path)) (i0 i1 : Path) fs2 (t2 : list event) :
  is_Some (fs !! P) -> is_Some (fs !! (P ++ ["Homol"])) ->
  mkdir (P ++ ["match_figs"]) true true fs = inr fs1 ->
  combinations2 (sorted (glob select_from fs P pat)) = pre ++ (i0, i1) :: post ->
  for_each pre
    (sequential_body render P (P ++ ["Homol"]) (P ++ ["match_figs"]) kwargs)
    fs1 = (inr tt, fs2, t2) ->
  fs2 !! match_record P i0 i1 = None ->
  let o := show_micmac_matches select_from render cpu_count P pat false
             kwargs fs in
  result o =
    inl (FileNotFoundError
           ("Matches file " +:+ Pathlib.str (match_record P i0 i1)
            +:+ " does not exist")) /\
  renders (trace o) = map (sequential_call P kwargs) pre /\
  final_fs o = fs2 /\
  trace o =
    prologue P pat ++ t2 ++
    [EvPrint ("Exporting matches between " +:+ Pathlib.name i0 +:+ " and "
              +:+ Pathlib.name i1);
     EvExists (match_record P i0 i1) false].
Proof.
  intros HP HH Hmk Hpairs Hpre Hnone o. subst o.
  rewrite show_micmac_matches_accepted by (try done; by eapply pairs_accepted).
  rewrite Hmk. cbv beta iota zeta.
  rewrite Hpairs, <-for_each_sequential_loop, for_each_app.
  unfold bind. rewrite Hpre. cbn [for_each]. unfold bind.
  rewrite sequential_body_step. unfold sequential_step. cbn [fst snd].
  rewrite Hnone. unfold result, final_fs, trace. cbn [fst snd].
  split_and!; try reflexivity.
  rewrite for_each_sequential_loop in Hpre.
  pose proof (sequential_loop_shape render P kwargs pre fs1) as (_ & _ & Hall & _).
  rewrite Hpre in Hall. unfold result, trace in Hall. simpl in Hall.
  rewrite !renders_app, Hall by done. simpl.
  by rewrite app_nil_r.
Qed.

(** C3: for a discovered image set of [N] distinct paths, the enumeration
    has [N * (N - 1) / 2] pairs; its pairs are exactly the pairs of images at
    positions [i < j] of the image set, so the two members of a pair are
    distinct, the first one comes strictly first, no image is paired with
    itself, no pair comes twice and no pair comes in both orientations.
    Both paths of the function work on this enumeration: the sequential
    path makes the calls of a prefix of it, in order; the parallel path
    makes workers' calls of its pairs only, none more often than the pair is
    enumerated; each makes exactly the calls of all the pairs when it
    returns; and on a project where no step fails each returns, having made
    [N * (N - 1) / 2] calls. *)
Theorem pair_enumeration P pat kwargs fs :
  NoDup (glob select_from fs P pat) ->
  let images := sorted (glob select_from fs P pat) in
  let pairs := combinations2 images in
  let sequential :=
    show_micmac_matches select_from render cpu_count P pat false kwargs fs in
  let parallel :=
    show_micmac_matches select_from render cpu_count P pat true kwargs fs in
  length pairs = (length images * (length images - 1) / 2)%nat /\
  (forall i0 i1 : Path, (i0, i1) ∈ pairs <->
     exists i j, i < j /\ images !! i = Some i0 /\ images !! j = Some i1) /\
  (forall i0 i1 : Path, (i0, i1) ∈ pairs ->
     i0 <> i1 /\ Pathlib.ltb i0 i1 = true) /\
  NoDup pairs /\
  (forall i0 i1 : Path, (i0, i1) ∈ pairs -> (i1, i0) ∉ pairs) /\
  (exists k, renders (trace sequential)
             = take k (map (sequential_call P kwargs) pairs)) /\
  (result sequential = inr tt ->
   renders (trace sequential) = map (sequential_call P kwargs) pairs) /\
  renders (trace parallel) ⊆+ map (worker_call P) pairs /\
  (result parallel = inr tt ->
   renders (trace parallel) ≡ₚ map (worker_call P) pairs) /\
  (fs !! P = Some Dir -> is_Some (fs !! (P ++ ["Homol"])) ->
   glob_refusal pat = None ->
   fs !! (P ++ ["match_figs"]) <> Some File ->
   (forall c m, (render c m).1 = None) ->
   (result parallel = inr tt /\
    length (renders (trace parallel))
    = (length images * (length images - 1) / 2)%nat) /\
   ((forall pr, pr ∈ pairs -> is_Some (fs !! match_record P pr.1 pr.2)) ->
    (forall kv, kv ∈ kwargs -> kv.1 ∉ ["i0_name"; "i1_name"; "out"]) ->
    (forall c m (p : Path),
       is_Some (m !! p) -> is_Some ((render c m).2 !! p)) ->
    result sequential = inr tt /\
    length (renders (trace sequential))
    = (length images * (length images - 1) / 2)%nat)).
Proof.
  intros Hnd images pairs sequential parallel.
  assert (Hnd' : NoDup images) by by apply sorted_NoDup.
  destruct (sequential_run_renders select_from render cpu_count P pat kwargs fs)
    as [Hsk Hsall].
  destruct (parallel_run_renders select_from render cpu_count P pat kwargs fs)
    as [Hpsub Hpall].
  fold images pairs sequential in Hsk, Hsall.
  fold images pairs parallel in Hpsub, Hpall.
  split_and!.
  - apply combinations2_length.
  - intros i0 i1. apply combinations2_elem_of.
  - intros i0 i1 Hin. split.
    + by eapply combinations2_distinct.
    + by apply (combinations2_sorted_ltb (glob select_from fs P pat)).
  - by apply combinations2_NoDup.
  - intros i0 i1. by apply combinations2_no_flip.
  - exact Hsk.
  - exact Hsall.
  - by apply sublist_submseteq.
  - intros Hres. by rewrite Hpall.
  - intros HP HH Hpat Hmd Hquiet. split.
    + assert (Hres : result parallel = inr tt)
        by (by apply parallel_run_complete).
      split; [done|]. rewrite Hpall by done.
      rewrite length_map. apply combinations2_length.
    + intros Hrec Hfree Hkeep.
      assert (Hres : result sequential = inr tt)
        by (by apply sequential_run_complete).
      split; [done|]. rewrite Hsall by done.
      rewrite length_map. apply combinations2_length.
Qed.

(** C5: the match record of a pair is
    [<project_dir>/Homol/Pastis<i0.name>/<i1.name>.txt] and its output path
    is [<project_dir>/match_figs/matches_<i0.name>-<i1.name>.png], in both
    modes.  The sequential path tests the records of a prefix of the pairs,
    at these paths, and makes the calls of a prefix of the pairs, with the
    record first and the output path at the keyword [out]; the parallel path
    tests no record and makes workers' calls of pairs, with the record first
    and the output path third; each makes exactly the calls of all the pairs
    when it returns; and on a project where no step fails each returns. *)
Theorem naming_convention P pat kwargs fs :
  let pairs := combinations2 (sorted (glob select_from fs P pat)) in
  let record (pr : Path * Path) :=
    P ++ ["Homol"; "Pastis" +:+ Pathlib.name pr.1;
          Pathlib.name pr.2 +:+ ".txt"] in
  let out (pr : Path * Path) :=
    P ++ ["match_figs";
          "matches_" +:+ Pathlib.name pr.1 +:+ "-" +:+ Pathlib.name pr.2
          +:+ ".png"] in
  let sequential_args (pr : Path * Path) :=
    mkCall [PyPath (record pr); PyPath P]
           ([("i0_name", PyStr (Pathlib.name pr.1));
             ("i1_name", PyStr (Pathlib.name pr.2));
             ("out", PyPath (out pr))] ++ kwargs) in
  let worker_args (pr : Path * Path) :=
    mkCall [PyPath (record pr); PyPath P; PyPath (out pr)] [] in
  let sequential :=
    show_micmac_matches select_from render cpu_count P pat false kwargs fs in
  let parallel :=
    show_micmac_matches select_from render cpu_count P pat true kwargs fs in
  (exists k, drop 2 (exists_checks (trace sequential))
             = take k (map record pairs)) /\
  (exists k, renders (trace sequential) = take k (map sequential_args pairs)) /\
  (result sequential = inr tt ->
   drop 2 (exists_checks (trace sequential)) = map record pairs /\
   renders (trace sequential) = map sequential_args pairs) /\
  drop 2 (exists_checks (trace parallel)) = [] /\
  renders (trace parallel) ⊆+ map worker_args pairs /\
  (result parallel = inr tt ->
   renders (trace parallel) ≡ₚ map worker_args pairs) /\
  (fs !! P = Some Dir -> is_Some (fs !! (P ++ ["Homol"])) ->
   glob_refusal pat = None ->
   fs !! (P ++ ["match_figs"]) <> Some File ->
   (forall c m, (render c m).1 = None) ->
   result parallel = inr tt /\
   ((forall pr, pr ∈ pairs -> is_Some (fs !! record pr)) ->
    (forall kv, kv ∈ kwargs -> kv.1 ∉ ["i0_name"; "i1_name"; "out"]) ->
    (forall c m (p : Path),
       is_Some (m !! p) -> is_Some ((render c m).2 !! p)) ->
    result sequential = inr tt)).
Proof.
  intros pairs record out sequential_args worker_args sequential parallel.
  destruct (sequential_run_renders select_from render cpu_count P pat kwargs fs)
    as [Hsk Hsall].
  destruct (parallel_run_renders select_from render cpu_count P pat kwargs fs)
    as [Hpsub Hpall].
  destruct (run_exists_checks select_from render cpu_count P pat false kwargs fs)
    as [ns Hns].
  destruct (run_exists_checks select_from render cpu_count P pat true kwargs fs)
    as [np Hnp].
  fold pairs sequential in Hsk, Hsall, Hns.
  fold pairs parallel in Hpsub, Hpall, Hnp.
  split_and!.
  - exists (ns - 2). rewrite Hns, skipn_firstn_comm. done.
  - exact Hsk.
  - intros Hres. split; [|by apply Hsall].
    pose proof (sequential_run_checks select_from render cpu_count P pat
                  kwargs fs Hres) as Hchecks.
    fold pairs sequential in Hchecks. by rewrite Hchecks.
  - rewrite Hnp, skipn_firstn_comm. simpl. by rewrite take_nil.
  - by apply sublist_submseteq.
  - intros Hres. by rewrite Hpall.
  - intros HP HH Hpat Hmd Hquiet. split.
    + by apply parallel_run_complete.
    + intros Hrec Hfree Hkeep. by apply sequential_run_complete.
Qed.

(** C8: the function creates its output directory [match_figs] in a way
    that is safe to repeat.  On a run that reaches this step (the project
    directory is a directory, [Homol] exists and the pattern is accepted):
    when [match_figs] is absent it is created, and the function itself
    changes nothing else; when it is already a directory, the step raises
    nothing and changes nothing; in both cases the run goes on to the pairs,
    and the only errors it can still raise are those of the pairs.  And
    after a run whose renderer removes nothing and leaves directories in
    place, [match_figs] is a directory and a second run finds it so: its
    creation step raises nothing and changes nothing. *)
Theorem output_directory_creation_idempotent P pat (parallel : bool)
    kwargs fs :
  fs !! P = Some Dir -> is_Some (fs !! (P ++ ["Homol"])) ->
  glob_refusal pat = None ->
  let matches_dir := P ++ ["match_figs"] in
  let o :=
    show_micmac_matches select_from render cpu_count P pat parallel kwargs fs in
  (fs !! matches_dir = None ->
   take 4 (trace o) = prologue P pat /\
   (forall e, result o = inl e -> ~ os_error e) /\
   final_fs o
   = after_renders render (renders (trace o)) (<[matches_dir := Dir]> fs)) /\
  (fs !! matches_dir = Some Dir ->
   take 4 (trace o) = prologue P pat /\
   (forall e, result o = inl e -> ~ os_error e) /\
   final_fs o = after_renders render (renders (trace o)) fs) /\
  (fs !! matches_dir <> Some File ->
   (forall c m (p : Path),
      is_Some (m !! p) -> is_Some ((render c m).2 !! p)) ->
   (forall c m (p : Path),
      m !! p = Some Dir -> (render c m).2 !! p = Some Dir) ->
   final_fs o !! matches_dir = Some Dir /\
   let again :=
     show_micmac_matches select_from render cpu_count P pat parallel kwargs
       (final_fs o) in
   take 4 (trace again) = prologue P pat /\
   (forall e, result again = inl e -> ~ os_error e) /\
   final_fs again
   = after_renders render (renders (trace again)) (final_fs o)).
Proof.
  intros HP HH Hpat matches_dir o.
  assert (Hstep : forall (m : FS),
    m !! P = Some Dir -> is_Some (m !! (P ++ ["Homol"])) ->
    m !! matches_dir <> Some File ->
    let r := show_micmac_matches select_from render cpu_count P pat parallel
               kwargs m in
    take 4 (trace r) = prologue P pat /\
    (forall e, result r = inl e -> ~ os_error e) /\
    final_fs r
    = after_renders render (renders (trace r)) (<[matches_dir := Dir]> m)).
  { intros m HmP HmH Hmd r. subst r.
    rewrite show_micmac_matches_accepted by (by rewrite ?HmP, ?HmH).
    rewrite mkdir_child by done. cbv beta iota zeta. destruct parallel.
    - pose proof (starmap_shape render cpu_count
                    (params P (P ++ ["Homol"]) (P ++ ["match_figs"])
                       (sorted (glob select_from m P pat)))
                    (<[P ++ ["match_figs"] := Dir]> m))
        as (_ & _ & _ & Hfs).
      pose proof (starmap_error render cpu_count
                    (params P (P ++ ["Homol"]) (P ++ ["match_figs"])
                       (sorted (glob select_from m P pat)))
                    (<[P ++ ["match_figs"] := Dir]> m)) as Herr.
      by destruct (starmap _ _ _ _) as [[r fs2] t2].
    - pose proof (sequential_loop_shape render P kwargs
                    (combinations2 (sorted (glob select_from m P pat)))
                    (<[P ++ ["match_figs"] := Dir]> m))
        as (_ & _ & _ & Hfs).
      pose proof (sequential_loop_error render P kwargs
                    (combinations2 (sorted (glob select_from m P pat)))
                    (<[P ++ ["match_figs"] := Dir]> m)) as Herr.
      by destruct (sequential_loop _ _ _ _ _) as [[r fs2] t2]. }
  split_and!.
  - intros Hnone. apply Hstep; [done|done|]. by rewrite Hnone.
  - intros Hdir.
    destruct (Hstep fs HP HH) as (Ht & He & Hfs); [by rewrite Hdir|].
    split_and!; [done|done|].
    fold o in Hfs. rewrite Hfs. by rewrite insert_id.
  - intros Hmd Hstay Hkeep.
    destruct (Hstep fs HP HH Hmd) as (_ & _ & Hfs). fold o in Hfs.
    assert (Hhomol : is_Some (final_fs o !! (P ++ ["Homol"]))).
    { rewrite Hfs. clear Hfs.
      assert (Hmid : is_Some (<[matches_dir := Dir]> fs !! (P ++ ["Homol"]))).
      { destruct HH as [n Hn].
        destruct (decide (matches_dir = P ++ ["Homol"])) as [<-|Hne];
          [rewrite lookup_insert_eq|rewrite lookup_insert_ne by done];
          by eexists. }
      revert Hmid. generalize (<[matches_dir := Dir]> fs).
      unfold after_renders.
      induction (renders (trace o)) as [|c l IH]; intros m Hm; simpl; [done|].
      apply IH. by apply Hstay. }
    assert (Hkept : forall p : Path,
      <[matches_dir := Dir]> fs !! p = Some Dir ->
      final_fs o !! p = Some Dir).
    { intros p Hp. rewrite Hfs. apply after_renders_keeps; [|done].
      intros c m. apply Hkeep. }
    assert (Hdir : final_fs o !! matches_dir = Some Dir).
    { apply Hkept. apply lookup_insert_eq. }
    assert (Hother : forall p : Path,
      fs !! p = Some Dir -> final_fs o !! p = Some Dir).
    { intros p Hp. apply Hkept.
      destruct (decide (matches_dir = p)) as [<-|Hne];
        [apply lookup_insert_eq|by rewrite lookup_insert_ne]. }
    split; [done|].
    destruct (Hstep (final_fs o)) as (Ht & He & Hfs2);
      [by apply Hother|done|by rewrite Hdir|].
    cbv zeta. split_and!; [done|done|].
    rewrite Hfs2. by rewrite insert_id.
Qed.

(** C9, amended: when the project directory exists, [Homol] exists, the
    pattern is one that [glob] accepts, fewer than two images match and no
    regular file stands in the place of [match_figs], the run tests the two
    directories, lists the images, makes sure [match_figs] is a directory,
    and returns [None]: no match record is tested, no rendering call is made
    and nothing is raised, in either mode. *)
Theorem few_images_no_work P pat (parallel : bool) kwargs fs :
  fs !! P = Some Dir -> is_Some (fs !! (P ++ ["Homol"])) ->
  glob_refusal pat = None ->
  length (glob select_from fs P pat) < 2 ->
  fs !! (P ++ ["match_figs"]) <> Some File ->
  show_micmac_matches select_from render cpu_count P pat parallel kwargs fs =
  (inr tt, <[P ++ ["match_figs"] := Dir]> fs,
   [EvExists P true; EvExists (P ++ ["Homol"]) true; EvGlob P pat;
    EvMkdir (P ++ ["match_figs"])]).
Proof.
  intros HP HH Hpat Hfew Hmd.
  rewrite show_micmac_matches_accepted by (by rewrite ?HP).
  rewrite mkdir_child by done. cbv beta iota zeta.
  unfold params. rewrite combinations2_short by (by rewrite sorted_length).
  by destruct parallel.
Qed.

(** C10: a sequential run that aborts on a missing match record has
    created the output directory first: the creation closes the prologue of
    the trace, ahead of every test of a match record, and succeeded; the file
    system the run leaves behind is the one with [match_figs] in it, changed
    by the rendering calls made before the abort and by nothing else.  It is
    not put back as it was. *)
Theorem abort_keeps_output_directory P pat kwargs fs fs' (t : list event)
    (s : string) :
  show_micmac_matches select_from render cpu_count P pat false kwargs fs
  = (inl (FileNotFoundError ("Matches file " +:+ s)), fs', t) ->
  let matches_dir := P ++ ["match_figs"] in
  exists (fs1 : FS) (t' : list event),
    mkdir matches_dir true true fs = inr fs1 /\
    fs1 !! matches_dir = Some Dir /\
    t = [EvExists P true; EvExists (P ++ ["Homol"]) true; EvGlob P pat;
         EvMkdir matches_dir] ++ t' /\
    (exists k, exists_checks t'
               = take k (map (fun pr => match_record P pr.1 pr.2)
                             (combinations2
                                (sorted (glob select_from fs P pat))))) /\
    fs' = after_renders render (renders t') fs1 /\
    (renders t' = [] -> fs' = fs1) /\
    ((forall c m, m !! matches_dir = Some Dir ->
                  (render c m).2 !! matches_dir = Some Dir) ->
     fs' !! matches_dir = Some Dir).
Proof.
  intros Hrun matches_dir. subst matches_dir.
  destruct (fs !! P) as [n|] eqn:HP.
  2:{ rewrite run_without_project in Hrun by done.
      assert (Hmsg : "Project path " +:+ Pathlib.str P +:+ " does not exist"
                     = "Matches file " +:+ s) by congruence.
      by apply matches_message_not_project in Hmsg. }
  destruct (fs !! (P ++ ["Homol"])) as [n'|] eqn:HH.
  2:{ rewrite run_without_homol in Hrun by (by rewrite ?HP).
      assert (Hmsg : "Homol path " +:+ Pathlib.str (P ++ ["Homol"])
                     +:+ " does not exist"
                     = "Matches file " +:+ s) by congruence.
      by apply matches_message_not_homol in Hmsg. }
  rewrite show_micmac_matches_checked in Hrun by (by rewrite ?HP, ?HH).
  destruct (glob_refusal pat) as [e|] eqn:Hpat.
  { assert (He : e = FileNotFoundError ("Matches file " +:+ s)) by congruence.
    apply glob_refusal_kind in Hpat. subst e.
    by destruct Hpat as [[m ?]|[[m ?]|[[m ?]|[m ?]]]]. }
  destruct (mkdir (P ++ ["match_figs"]) true true fs) as [e|fs1] eqn:Hmk.
  { assert (He : e = FileNotFoundError ("Matches file " +:+ s)) by congruence.
    unfold mkdir in Hmk. apply mkdir_parents_error in Hmk.
    by apply matches_message_not_os in He. }
  cbv beta iota zeta in Hrun.
  pose proof (sequential_loop_shape render P kwargs
                (combinations2 (sorted (glob select_from fs P pat))) fs1)
    as (_ & Hchecks & _ & Hfs).
  destruct (sequential_loop _ _ _ _ _) as [[r fs2] t2].
  unfold final_fs, trace in *. simpl in *.
  injection Hrun as -> -> <-.
  assert (Hdir : fs1 !! (P ++ ["match_figs"]) = Some Dir).
  { unfold mkdir in Hmk. by apply mkdir_parents_ok in Hmk as [? _]. }
  exists fs1, t2. split_and!; try done.
  - intros Hnil. rewrite Hfs, Hnil. done.
  - intros Hkeep. rewrite Hfs. by apply after_renders_keeps.
Qed.

(** C6, amended: when the names of the images are pairwise distinct and
    hold no ["-"], two distinct pairs of the enumeration never get the same
    output path, so no two tasks of the parallel path have the same third
    argument. *)
Theorem artifact_paths_distinct P (images : list Path) :
  NoDup (Pathlib.name <$> images) ->
  (forall i : Path, i ∈ images -> has_char "-" (Pathlib.name i) = false) ->
  let tasks := params P (P ++ ["Homol"]) (P ++ ["match_figs"]) images in
  (forall (k k' : nat) (args args' : list pyval),
     tasks !! k = Some args -> tasks !! k' = Some args' -> k <> k' ->
     args !! 2 <> args' !! 2) /\
  (forall pr pr' : Path * Path,
     pr ∈ combinations2 images -> pr' ∈ combinations2 images -> pr <> pr' ->
     artifact P pr.1 pr.2 <> artifact P pr'.1 pr'.2).
Proof.
  intros Hnames Hhyphen tasks.
  assert (Hinj : forall pr pr' : Path * Path,
            pr ∈ combinations2 images -> pr' ∈ combinations2 images ->
            artifact P pr.1 pr.2 = artifact P pr'.1 pr'.2 -> pr = pr').
  { intros [i0 i1] [j0 j1] Hpr Hpr' Heq. simpl in Heq.
    pose proof (combinations2_fst_elem_of _ _ _ Hpr) as Hi0.
    pose proof (combinations2_snd_elem_of _ _ _ Hpr) as Hi1.
    pose proof (combinations2_fst_elem_of _ _ _ Hpr') as Hj0.
    pose proof (combinations2_snd_elem_of _ _ _ Hpr') as Hj1.
    apply artifact_inj in Heq as [Hn0 Hn1]; [|by apply Hhyphen..].
    f_equal; by eapply NoDup_fmap_elem_inj. }
  split.
  - intros k k' args args' Hk Hk' Hne Heq. subst tasks.
    rewrite params_worker_calls, list_lookup_fmap in Hk, Hk'.
    destruct (combinations2 images !! k) as [pr|] eqn:Hpr; [|done].
    destruct (combinations2 images !! k') as [pr'|] eqn:Hpr'; [|done].
    simpl in Hk, Hk'. injection Hk as <-. injection Hk' as <-.
    simpl in Heq. injection Heq as Heq.
    apply Hinj in Heq; [|by eapply list_elem_of_lookup_2..]. subst pr'.
    apply Hne. eapply NoDup_lookup; [|done..].
    apply combinations2_NoDup. by eapply NoDup_fmap_1.
  - intros pr pr' Hpr Hpr' Hne Heq. by apply Hne, Hinj.
Qed.

End Claims.

(** C7, amended: the discovered image set is the arrangement of the
    matching paths in the order of paths, compared component by component;
    it is the order of the file names when the paths all lie in one
    directory.  It depends on the set of matching paths only: two runs whose
    directory listings hold the same paths, in whatever order, discover the
    same image set, enumerate the same pairs in the same orientation, and do
    the same.  The function works in this order: the sequential path makes
    the calls of a prefix of the pairs of the image set, first image first,
    and of all of them, in this order, when it returns, which it does on a
    project where no step fails; the workers of the parallel path are given
    pairs of the image set in this orientation. *)
Theorem discovery_is_deterministic
    (select1 select2 : FS -> Path -> string -> list Path)
    (render : RenderCall -> FS -> option string * FS)
    (cpu_count : option nat)
    (P : Path) (pat : string) (kwargs : list (string * pyval)) (fs : FS) :
  glob select1 fs P pat ≡ₚ glob select2 fs P pat ->
  let images := sorted (glob select1 fs P pat) in
  let run select parallel :=
    show_micmac_matches select render cpu_count P pat parallel kwargs fs in
  images ≡ₚ glob select1 fs P pat /\
  Sorted Pathlib.le images /\
  sorted (glob select2 fs P pat) = images /\
  combinations2 (sorted (glob select2 fs P pat)) = combinations2 images /\
  (forall parallel : bool, run select2 parallel = run select1 parallel) /\
  (forall d : Path,
     (forall p : Path,
        p ∈ glob select1 fs P pat -> exists n : string, p = d ++ [n]) ->
     StronglySorted (fun p q => String.le (Pathlib.name p) (Pathlib.name q))
       images) /\
  (exists k, renders (trace (run select1 false))
             = take k (map (sequential_call P kwargs) (combinations2 images))) /\
  (result (run select1 false) = inr tt ->
   renders (trace (run select1 false))
   = map (sequential_call P kwargs) (combinations2 images)) /\
  renders (trace (run select1 true))
    ⊆+ map (worker_call P) (combinations2 images) /\
  (fs !! P = Some Dir -> is_Some (fs !! (P ++ ["Homol"])) ->
   glob_refusal pat = None ->
   fs !! (P ++ ["match_figs"]) <> Some File ->
   (forall c m, (render c m).1 = None) ->
   (forall pr, pr ∈ combinations2 images ->
               is_Some (fs !! match_record P pr.1 pr.2)) ->
   (forall kv, kv ∈ kwargs -> kv.1 ∉ ["i0_name"; "i1_name"; "out"]) ->
   (forall c m (p : Path),
      is_Some (m !! p) -> is_Some ((render c m).2 !! p)) ->
   result (run select1 false) = inr tt).
Proof.
  intros Hperm images run.
  assert (Heq : sorted (glob select2 fs P pat) = images).
  { symmetry. by apply sorted_order_independent. }
  destruct (sequential_run_renders select1 render cpu_count P pat kwargs fs)
    as [Hsk Hsall].
  destruct (parallel_run_renders select1 render cpu_count P pat kwargs fs)
    as [Hpsub _].
  split_and!.
  - apply sorted_Permutation.
  - apply sorted_Sorted.
  - done.
  - by rewrite Heq.
  - intros parallel. unfold run.
    destruct (fs !! P) as [n|] eqn:HP.
    2:{ by rewrite !run_without_project. }
    destruct (fs !! (P ++ ["Homol"])) as [n'|] eqn:HH.
    2:{ by rewrite !run_without_homol by (by rewrite ?HP). }
    rewrite !show_micmac_matches_checked by (by rewrite ?HP, ?HH).
    by rewrite Heq.
  - intros d Hd.
    eapply StronglySorted_on; [|apply sorted_StronglySorted].
    intros p q Hp Hq Hle.
    unfold images in Hp, Hq. rewrite sorted_Permutation in Hp, Hq.
    destruct (Hd p Hp) as [n ->]. destruct (Hd q Hq) as [m ->].
    rewrite !name_snoc. by eapply le_siblings.
  - exact Hsk.
  - exact Hsall.
  - by apply sublist_submseteq.
  - intros HP HH Hpat Hmd Hquiet Hrec Hfree Hkeep.
    by apply sequential_run_complete.
Qed.

(** The two checks on the demo project: without the project directory, and
    without its [Homol]. *)
Lemma directory_checks_come_first_witness :
  show_micmac_matches Demo.select_from Demo.render Demo.cpu_count
    Demo.project "*.tif" true Demo.kwargs Demo.fs_bare
  = (inl (FileNotFoundError "Project path proj does not exist"),
     Demo.fs_bare, [EvExists Demo.project false]) /\
  show_micmac_matches Demo.select_from Demo.render Demo.cpu_count
    Demo.project "*.tif" false Demo.kwargs Demo.fs_no_homol
  = (inl (FileNotFoundError "Homol path proj/Homol does not exist"),
     Demo.fs_no_homol,
     [EvExists Demo.project true;
      EvExists (Demo.project ++ ["Homol"]) false]).
Proof.
  split.
  - apply (proj1 (directory_checks_come_first Demo.select_from Demo.render
                    Demo.cpu_count Demo.project "*.tif" true Demo.kwargs
                    Demo.fs_bare)).
    reflexivity.
  - apply (proj2 (directory_checks_come_first Demo.select_from Demo.render
                    Demo.cpu_count Demo.project "*.tif" false Demo.kwargs
                    Demo.fs_no_homol)).
    + exists Dir. reflexivity.
    + reflexivity.
Defined.

(** The demo project has the match record of [(a, b)] only: the run renders
    that pair and stops at [(a, c)]. *)
Lemma missing_match_record_aborts_witness :
  let o := show_micmac_matches Demo.select_from Demo.render Demo.cpu_count
             Demo.project "*.tif" false Demo.kwargs Demo.fs in
  result o =
    inl (FileNotFoundError
           "Matches file proj/Homol/Pastisa.tif/c.tif.txt does not exist") /\
  renders (trace o) =
    [sequential_call Demo.project Demo.kwargs
       (Demo.image "a.tif", Demo.image "b.tif")].
Proof.
  pose proof (missing_match_record_aborts Demo.select_from Demo.render
    Demo.cpu_count Demo.project
    "*.tif" Demo.kwargs Demo.fs
    (<[Demo.project ++ ["match_figs"] := Dir]> Demo.fs)
    [(Demo.image "a.tif", Demo.image "b.tif")]
    [(Demo.image "b.tif", Demo.image "c.tif")]
    (Demo.image "a.tif") (Demo.image "c.tif")
    (<[artifact Demo.project (Demo.image "a.tif") (Demo.image "b.tif") := File]>
       (<[Demo.project ++ ["match_figs"] := Dir]> Demo.fs))
    [EvPrint "Exporting matches between a.tif and b.tif";
     EvExists (match_record Demo.project (Demo.image "a.tif")
                 (Demo.image "b.tif")) true;
     EvRender (sequential_call Demo.project Demo.kwargs
                 (Demo.image "a.tif", Demo.image "b.tif"));
     EvPrint "Done."]) as H.
  destruct H as (Hres & Hrenders & _ & _).
  - exists Dir. reflexivity.
  - exists Dir. reflexivity.
  - reflexivity.
  - reflexivity.
  - reflexivity.
  - reflexivity.
  - split; [exact Hres|exact Hrenders].
Defined.

(** C1: the parallel path does not do for a pair what the sequential path
    does.  On the demo project, where only the first pair has its match
    record, the sequential run tests each record, hands the collaborator the
    record, the project directory, both image names, the output path and the
    caller's options, and stops at the first missing record; the parallel
    run tests no record at all and hands each worker three positional
    arguments only: no image name and no option, for all three pairs. *)
Theorem parallel_path_diverges_from_sequential :
  let sequential :=
    show_micmac_matches Demo.select_from Demo.render Demo.cpu_count
      Demo.project "*.tif" false Demo.kwargs Demo.fs in
  let parallel :=
    show_micmac_matches Demo.select_from Demo.render Demo.cpu_count
      Demo.project "*.tif" true Demo.kwargs Demo.fs in
  let a := Demo.image "a.tif" in
  let b := Demo.image "b.tif" in
  let c := Demo.image "c.tif" in
  (result sequential =
     inl (FileNotFoundError
            "Matches file proj/Homol/Pastisa.tif/c.tif.txt does not exist") /\
   exists_checks (trace sequential) =
     [Demo.project; Demo.project ++ ["Homol"];
      match_record Demo.project a b; match_record Demo.project a c] /\
   renders (trace sequential) =
     [mkCall [PyPath (match_record Demo.project a b); PyPath Demo.project]
        [("i0_name", PyStr "a.tif"); ("i1_name", PyStr "b.tif");
         ("out", PyPath (artifact Demo.project a b));
         ("line_thickness", PyInt (-1))]]) /\
  (result parallel = inr tt /\
   exists_checks (trace parallel) =
     [Demo.project; Demo.project ++ ["Homol"]] /\
   renders (trace parallel) =
     [mkCall [PyPath (match_record Demo.project a b); PyPath Demo.project;
              PyPath (artifact Demo.project a b)] [];
      mkCall [PyPath (match_record Demo.project a c); PyPath Demo.project;
              PyPath (artifact Demo.project a c)] [];
      mkCall [PyPath (match_record Demo.project b c); PyPath Demo.project;
              PyPath (artifact Demo.project b c)] []]).
Proof. split_and!; reflexivity. Qed.

(** In general: a parallel run tests the two directories and nothing else,
    and the call of a worker is never the call of the sequential path. *)
Lemma parallel_path_never_checks
    (select_from : FS -> Path -> string -> list Path)
    (render : RenderCall -> FS -> option string * FS)
    (cpu_count : option nat)
    (P : Path) (pat : string) (kwargs : list (string * pyval)) (fs : FS) :
  (exists k,
     exists_checks
       (trace (show_micmac_matches select_from render cpu_count P pat true
                 kwargs fs))
     = take k [P; P ++ ["Homol"]]) /\
  (forall pr : Path * Path, worker_call P pr <> sequential_call P kwargs pr).
Proof.
  split.
  - destruct (run_exists_checks select_from render cpu_count P pat true
                kwargs fs) as [k Hk].
    exists k. by rewrite Hk, app_nil_r.
  - intros pr. unfold worker_call, sequential_call. discriminate.
Qed.

(** C6, as stated, fails: with the images [a], [a-b], [b-c] and [c] in one
    directory, the pairs [(a, b-c)] and [(a-b, c)] both get the output path
    [match_figs/matches_a-b-c.png]. *)
Lemma artifact_paths_can_collide :
  ~ (forall (P : Path) (listing : list Path) (k k' : nat)
            (args args' : list pyval),
       NoDup listing ->
       params P (P ++ ["Homol"]) (P ++ ["match_figs"]) (sorted listing) !! k
       = Some args ->
       params P (P ++ ["Homol"]) (P ++ ["match_figs"]) (sorted listing) !! k'
       = Some args' ->
       k <> k' -> args !! 2 <> args' !! 2).
Proof.
  intros H.
  refine (H Demo.project Demo.hyphenated 1 4 _ _ _ eq_refl eq_refl _ eq_refl).
  - apply (bool_decide_unpack _). reflexivity.
  - lia.
Qed.

(** C7, as stated, fails: images found in two subdirectories come in the
    order of their paths, [a/z.tif] before [b/a.tif], which is not the order
    of their file names; and the order of paths goes component by component,
    [a/x.tif] before [a-b/x.tif], which is not the order of the paths
    written out as strings either. *)
Lemma discovery_order_is_not_by_name :
  ~ (forall listing : list Path,
       NoDup listing ->
       StronglySorted
         (fun p q => String.le (Pathlib.name p) (Pathlib.name q))
         (sorted listing)) /\
  ~ (forall listing : list Path,
       NoDup listing ->
       StronglySorted
         (fun p q => String.le (Pathlib.str p) (Pathlib.str q))
         (sorted listing)).
Proof.
  split.
  - intros H.
    assert (Hnd : NoDup Demo.nested)
      by (apply (bool_decide_unpack _); reflexivity).
    specialize (H Demo.nested Hnd).
    change (sorted Demo.nested)
      with [Demo.project ++ ["a"; "z.tif"]; Demo.project ++ ["b"; "a.tif"]]
      in H.
    apply StronglySorted_cons in H as [Hall _].
    apply Forall_cons in Hall as [Hle _]. exact Hle.
  - intros H.
    assert (Hnd : NoDup Demo.nested_prefix)
      by (apply (bool_decide_unpack _); reflexivity).
    specialize (H Demo.nested_prefix Hnd).
    change (sorted Demo.nested_prefix)
      with [Demo.project ++ ["a"; "x.tif"]; Demo.project ++ ["a-b"; "x.tif"]]
      in H.
    apply StronglySorted_cons in H as [Hall _].
    apply Forall_cons in Hall as [Hle _]. exact Hle.
Qed.

(** C9, as stated, fails: when a regular file stands in the place of
    [match_figs], the run raises [FileExistsError], whatever the number of
    images; and when the pattern is empty, the run raises [ValueError] where
    it lists the images and creates no [match_figs]. *)
Lemma few_images_can_raise :
  ~ (forall (select_from : FS -> Path -> string -> list Path)
            (render : RenderCall -> FS -> option string * FS)
            (cpu_count : option nat)
            (P : Path) (pat : string) (parallel : bool)
            (kwargs : list (string * pyval)) (fs : FS),
       fs !! P = Some Dir -> fs !! (P ++ ["Homol"]) = Some Dir ->
       length (glob select_from fs P pat) < 2 ->
       result (show_micmac_matches select_from render cpu_count P pat parallel
                 kwargs fs)
       = inr tt) /\
  show_micmac_matches Demo.select_from Demo.render Demo.cpu_count
    Demo.project "" false Demo.kwargs Demo.fs_empty
  = (inl (ValueError "Unacceptable pattern: ''"), Demo.fs_empty,
     [EvExists Demo.project true; EvExists (Demo.project ++ ["Homol"]) true;
      EvGlob Demo.project ""]).
Proof.
  split; [|reflexivity].
  intros H.
  specialize (H Demo.select_from Demo.render Demo.cpu_count Demo.project
                "*.tif" false Demo.kwargs Demo.fs_blocked eq_refl eq_refl).
  assert (Hrun :
    result (show_micmac_matches Demo.select_from Demo.render Demo.cpu_count
              Demo.project "*.tif" false Demo.kwargs Demo.fs_blocked)
    = inl (FileExistsError "[Errno 17] File exists: 'proj/match_figs'"))
    by reflexivity.
  rewrite Hrun in H. assert (Habs : inl _ = inr tt) by (apply H; vm_compute; lia).
  discriminate Habs.
Qed.

(** ** The theorems at work *)

(** The three images of the complete project give three pairs, and the
    parallel run makes three calls. *)
Lemma pair_enumeration_witness :
  length (combinations2
            (sorted (glob Gallery.select_from Gallery.fs Gallery.project
                       "*.tif"))) = 3 /\
  length (renders
            (trace (show_micmac_matches Gallery.select_from Gallery.quiet
                      Gallery.cpu_count Gallery.project "*.tif" true
                      Gallery.kwargs Gallery.fs))) = 3.
Proof.
  assert (Hnd : NoDup (glob Gallery.select_from Gallery.fs Gallery.project
                         "*.tif")).
  { apply (bool_decide_unpack _). reflexivity. }
  pose proof (pair_enumeration Gallery.select_from Gallery.quiet
                Gallery.cpu_count Gallery.project "*.tif" Gallery.kwargs
                Gallery.fs Hnd) as H.
  cbv zeta in H.
  destruct H as (Hlen & _ & _ & _ & _ & _ & _ & _ & _ & Hlive).
  split; [exact Hlen|].
  destruct Hlive as [[_ Hcalls] _].
  - reflexivity.
  - exists Dir. reflexivity.
  - reflexivity.
  - discriminate.
  - reflexivity.
  - exact Hcalls.
Defined.

(** On the complete project the sequential run returns, and its calls are
    those of the three pairs, with the paths of the convention. *)
Lemma naming_convention_witness :
  renders (trace (show_micmac_matches Gallery.select_from Gallery.quiet
                    Gallery.cpu_count Gallery.project "*.tif" false
                    Gallery.kwargs Gallery.fs))
  = map (fun pr : Path * Path =>
           mkCall
             [PyPath (Gallery.project ++
                      ["Homol"; "Pastis" +:+ Pathlib.name pr.1;
                       Pathlib.name pr.2 +:+ ".txt"]);
              PyPath Gallery.project]
             ([("i0_name", PyStr (Pathlib.name pr.1));
               ("i1_name", PyStr (Pathlib.name pr.2));
               ("out",
                PyPath (Gallery.project ++
                        ["match_figs";
                         "matches_" +:+ Pathlib.name pr.1 +:+ "-"
                         +:+ Pathlib.name pr.2 +:+ ".png"]))]
              ++ Gallery.kwargs))
        [(Gallery.image "a.tif", Gallery.image "b.tif");
         (Gallery.image "a.tif", Gallery.image "c.tif");
         (Gallery.image "b.tif", Gallery.image "c.tif")].
Proof.
  pose proof (naming_convention Gallery.select_from Gallery.quiet
                Gallery.cpu_count Gallery.project "*.tif" Gallery.kwargs
                Gallery.fs) as H.
  cbv zeta in H.
  destruct H as (_ & _ & Hall & _ & _ & _ & Hlive).
  destruct Hlive as [_ Hseq].
  - reflexivity.
  - exists Dir. reflexivity.
  - reflexivity.
  - discriminate.
  - reflexivity.
  - apply Hall. apply Hseq.
    + apply Forall_forall. apply (bool_decide_unpack _). vm_compute. exact I.
    + apply Forall_forall. apply (bool_decide_unpack _). reflexivity.
    + intros c m p Hp. exact Hp.
Defined.

(** The pairs [(a, b)] and [(a, c)] of the demo images have different
    output paths. *)
Lemma artifact_paths_distinct_witness :
  artifact Demo.project (Demo.image "a.tif") (Demo.image "b.tif")
  <> artifact Demo.project (Demo.image "a.tif") (Demo.image "c.tif").
Proof.
  pose proof (artifact_paths_distinct Demo.project
    [Demo.image "a.tif"; Demo.image "b.tif"; Demo.image "c.tif"]) as H.
  destruct H as [_ H].
  - apply (bool_decide_unpack _). reflexivity.
  - apply Forall_forall. apply (bool_decide_unpack _). reflexivity.
  - apply (H (Demo.image "a.tif", Demo.image "b.tif")
             (Demo.image "a.tif", Demo.image "c.tif")).
    + apply (bool_decide_unpack _). reflexivity.
    + apply (bool_decide_unpack _). reflexivity.
    + discriminate.
Defined.

(** Listing the complete project in the reverse order changes nothing: the
    sequential run returns with the calls of [(a, b)], [(a, c)] and
    [(b, c)], in this order. *)
Lemma discovery_is_deterministic_witness :
  renders (trace (show_micmac_matches
                    (fun fs dir pattern =>
                       rev (Gallery.select_from fs dir pattern))
                    Gallery.quiet Gallery.cpu_count Gallery.project "*.tif"
                    false Gallery.kwargs Gallery.fs))
  = map (sequential_call Gallery.project Gallery.kwargs)
        [(Gallery.image "a.tif", Gallery.image "b.tif");
         (Gallery.image "a.tif", Gallery.image "c.tif");
         (Gallery.image "b.tif", Gallery.image "c.tif")].
Proof.
  pose proof (discovery_is_deterministic Gallery.select_from
    (fun fs dir pattern => rev (Gallery.select_from fs dir pattern))
    Gallery.quiet Gallery.cpu_count Gallery.project "*.tif" Gallery.kwargs
    Gallery.fs) as H.
  cbv zeta in H.
  destruct H as (_ & _ & _ & _ & Hsame & _ & _ & Hall & _ & Hlive).
  - apply Permutation_rev.
  - rewrite (Hsame false). apply Hall. apply Hlive.
    + reflexivity.
    + exists Dir. reflexivity.
    + reflexivity.
    + discriminate.
    + reflexivity.
    + apply Forall_forall. apply (bool_decide_unpack _). vm_compute. exact I.
    + apply Forall_forall. apply (bool_decide_unpack _). reflexivity.
    + intros c m p Hp. exact Hp.
Defined.

(** The complete project has no [match_figs]: the run creates it, and a
    second run finds it and leaves the file system as it is. *)
Lemma output_directory_creation_idempotent_witness :
  let o := show_micmac_matches Gallery.select_from Gallery.quiet
             Gallery.cpu_count Gallery.project "*.tif" true Gallery.kwargs
             Gallery.fs in
  Gallery.fs !! (Gallery.project ++ ["match_figs"]) = None /\
  final_fs o !! (Gallery.project ++ ["match_figs"]) = Some Dir /\
  final_fs (show_micmac_matches Gallery.select_from Gallery.quiet
              Gallery.cpu_count Gallery.project "*.tif" true Gallery.kwargs
              (final_fs o))
  = final_fs o.
Proof.
  pose proof (output_directory_creation_idempotent Gallery.select_from
                Gallery.quiet Gallery.cpu_count Gallery.project "*.tif" true
                Gallery.kwargs Gallery.fs) as H.
  cbv zeta in H.
  destruct H as (_ & _ & Hagain).
  - reflexivity.
  - exists Dir. reflexivity.
  - reflexivity.
  - cbv zeta. split; [reflexivity|].
    destruct Hagain as (Hdir & _ & _ & Hfs).
    + discriminate.
    + intros c m p Hp. exact Hp.
    + intros c m p Hp. exact Hp.
    + split; [exact Hdir|]. rewrite Hfs. reflexivity.
Defined.

(** The project without images: the run creates [match_figs] and returns. *)
Lemma few_images_no_work_witness :
  show_micmac_matches Demo.select_from Demo.render Demo.cpu_count
    Demo.project "*.tif" true Demo.kwargs Demo.fs_empty
  = (inr tt, <[Demo.project ++ ["match_figs"] := Dir]> Demo.fs_empty,
     [EvExists Demo.project true; EvExists (Demo.project ++ ["Homol"]) true;
      EvGlob Demo.project "*.tif"; EvMkdir (Demo.project ++ ["match_figs"])]).
Proof.
  apply (few_images_no_work Demo.select_from Demo.render Demo.cpu_count
           Demo.project "*.tif" true Demo.kwargs Demo.fs_empty).
  - reflexivity.
  - exists Dir. reflexivity.
  - reflexivity.
  - vm_compute. lia.
  - discriminate.
Defined.

(** The aborted demo run has created [match_figs]. *)
Lemma abort_keeps_output_directory_witness :
  exists fs1 : FS,
    mkdir (Demo.project ++ ["match_figs"]) true true Demo.fs = inr fs1 /\
    fs1 !! (Demo.project ++ ["match_figs"]) = Some Dir.
Proof.
  pose proof (abort_keeps_output_directory Demo.select_from Demo.render
    Demo.cpu_count Demo.project
    "*.tif" Demo.kwargs Demo.fs
    (final_fs (show_micmac_matches Demo.select_from Demo.render Demo.cpu_count
                 Demo.project "*.tif" false Demo.kwargs Demo.fs))
    (trace (show_micmac_matches Demo.select_from Demo.render Demo.cpu_count
              Demo.project "*.tif" false Demo.kwargs Demo.fs))
    "proj/Homol/Pastisa.tif/c.tif.txt does not exist" eq_refl)
    as (fs1 & t' & Hmk & Hdir & _).
  exists fs1. split; [exact Hmk|exact Hdir].
Defined.

(** * Further properties of the pipeline *)

Section MoreRuns.

Variable select_from : FS -> Path -> string -> list Path.
Variable render : RenderCall -> FS -> option string * FS.
Variable cpu_count : option nat.

Implicit Types (P : Path) (fs : FS) (kwargs : list (string * pyval))
  (pairs : list (Path * Path)).

(** X1: a sequential run that returns has gone through every pair of the
    enumeration, in order, and for each one has reported it, found its match
    record, rendered it once and reported the completion; nothing else is in
    its trace after the prologue. *)
Theorem sequential_return_trace P pat kwargs fs :
  let o := show_micmac_matches select_from render cpu_count P pat false
             kwargs fs in
  result o = inr tt ->
  trace o =
    prologue P pat ++
    concat (map (pair_events P kwargs)
                (combinations2 (sorted (glob select_from fs P pat)))).
Proof.
  intros o Hres. subst o.
  destruct (run_checked_cases select_from render cpu_count P pat false
              kwargs fs)
    as [[e H]|[[e H]|[(e & _ & H)|[(e & _ & H)|(fs1 & _ & _ & _ & H)]]]];
    rewrite H in Hres |- *; try done.
  cbv beta iota zeta in *.
  destruct (sequential_loop render P kwargs _ fs1) as [[r fs2] t2] eqn:Hloop.
  unfold result, trace in *. simpl in *. subst r.
  by rewrite (sequential_loop_returns _ _ _ _ _ _ _ Hloop).
Qed.

(** X2: on a complete project the run returns, in either mode.  When the
    project directory and [Homol] exist, the pattern is one that [glob]
    accepts, no regular file stands in the place of [match_figs], every pair
    has its match record, no option uses a name the call writes out itself,
    and the renderer neither raises nor removes files, the run returns
    [None] and has made the rendering call of every pair once: in
    enumeration order in sequential mode, in the order the workers take
    them in parallel mode. *)
Theorem complete_project_renders_all P pat (parallel : bool) kwargs fs :
  fs !! P = Some Dir -> is_Some (fs !! (P ++ ["Homol"])) ->
  glob_refusal pat = None ->
  fs !! (P ++ ["match_figs"]) <> Some File ->
  (forall pr, pr ∈ combinations2 (sorted (glob select_from fs P pat)) ->
              is_Some (fs !! match_record P pr.1 pr.2)) ->
  (forall kv, kv ∈ kwargs -> kv.1 ∉ ["i0_name"; "i1_name"; "out"]) ->
  (forall c m, (render c m).1 = None) ->
  (forall c m (p : Path), is_Some (m !! p) -> is_Some ((render c m).2 !! p)) ->
  let o :=
    show_micmac_matches select_from render cpu_count P pat parallel kwargs fs in
  let pairs := combinations2 (sorted (glob select_from fs P pat)) in
  result o = inr tt /\
  if parallel then renders (trace o) ≡ₚ map (worker_call P) pairs
  else renders (trace o) = map (sequential_call P kwargs) pairs.
Proof.
  intros HP HH Hpat Hmd Hrec Hfree Hquiet Hkeep o pairs. subst o pairs.
  destruct parallel.
  - assert (Hres : result (show_micmac_matches select_from render cpu_count
                             P pat true kwargs fs) = inr tt)
      by (by apply parallel_run_complete).
    split; [done|].
    destruct (parallel_run_renders select_from render cpu_count P pat
                kwargs fs) as [_ Hall].
    by rewrite Hall.
  - assert (Hres : result (show_micmac_matches select_from render cpu_count
                             P pat false kwargs fs) = inr tt)
      by (by apply sequential_run_complete).
    split; [done|].
    destruct (sequential_run_renders select_from render cpu_count P pat
                kwargs fs) as [_ Hall].
    by apply Hall.
Qed.

(** X3: an exception of the renderer is not caught.  In sequential mode,
    when the loop has worked through the pairs [pre] and the renderer raises
    on the next pair, the run raises that error; the completion of the pair
    is not reported and no later pair is touched. *)
Theorem rendering_error_propagates P pat kwargs fs fs1
    (pre post : list (Path * Path)) (pr : Path * Path) fs2 (t2 : list event)
    (err : string) fs3 :
  is_Some (fs !! P) -> is_Some (fs !! (P ++ ["Homol"])) ->
  mkdir (P ++ ["match_figs"]) true true fs = inr fs1 ->
  combinations2 (sorted (glob select_from fs P pat)) = pre ++ pr :: post ->
  for_each pre
    (sequential_body render P (P ++ ["Homol"]) (P ++ ["match_figs"]) kwargs)
    fs1 = (inr tt, fs2, t2) ->
  is_Some (fs2 !! match_record P pr.1 pr.2) ->
  (forall kv, kv ∈ kwargs -> kv.1 ∉ ["i0_name"; "i1_name"; "out"]) ->
  render (sequential_call P kwargs pr) fs2 = (Some err, fs3) ->
  show_micmac_matches select_from render cpu_count P pat false kwargs fs =
  (inl (RenderingError err), fs3,
   prologue P pat ++ t2 ++
   [EvPrint ("Exporting matches between " +:+ Pathlib.name pr.1 +:+ " and "
             +:+ Pathlib.name pr.2);
    EvExists (match_record P pr.1 pr.2) true;
    EvRender (sequential_call P kwargs pr)]).
Proof.
  intros HP HH Hmk Hpairs Hpre [n Hn] Hfree Hrender.
  rewrite show_micmac_matches_accepted by (try done; by eapply pairs_accepted).
  rewrite Hmk. cbv beta iota zeta.
  rewrite Hpairs, <-for_each_sequential_loop, for_each_app.
  unfold bind. rewrite Hpre. cbn [for_each]. unfold bind.
  rewrite sequential_body_step. unfold sequential_step.
  rewrite Hn, (clashing_None kwargs Hfree), Hrender. done.
Qed.

Lemma sequential_loop_clash P kwargs pairs fs :
  is_Some (clashing kwargs) ->
  renders (trace (sequential_loop render P kwargs pairs fs)) = [].
Proof.
  intros [kv Hkv]. destruct pairs as [|pr pairs]; simpl; [done|].
  unfold sequential_step. rewrite Hkv.
  by destruct (fs !! match_record P pr.1 pr.2).
Qed.

(** X4: an option named [i0_name], [i1_name] or [out] clashes with the
    keywords the sequential call writes out itself.  With such an option a
    sequential run never makes a rendering call; and when the first pair has
    its match record, the run raises [TypeError] on it. *)
Theorem clashing_option_prevents_rendering P pat kwargs fs
    (kv : string * pyval) :
  kv ∈ kwargs -> kv.1 ∈ ["i0_name"; "i1_name"; "out"] ->
  let o := show_micmac_matches select_from render cpu_count P pat false
             kwargs fs in
  renders (trace o) = [] /\
  (forall fs1 (pr : Path * Path) (rest : list (Path * Path)),
     is_Some (fs !! P) -> is_Some (fs !! (P ++ ["Homol"])) ->
     mkdir (P ++ ["match_figs"]) true true fs = inr fs1 ->
     combinations2 (sorted (glob select_from fs P pat)) = pr :: rest ->
     is_Some (fs1 !! match_record P pr.1 pr.2) ->
     exists key : string,
       key ∈ ["i0_name"; "i1_name"; "out"] /\
       result o =
         inl (TypeError
                ("got multiple values for keyword argument '" +:+ key
                 +:+ "'"))).
Proof.
  intros Hin Hres o.
  destruct (clashing_Some kwargs kv Hin Hres) as (kv' & Hkv' & Hkey).
  split.
  - subst o.
    destruct (run_checked_cases select_from render cpu_count P pat false
                kwargs fs)
      as [[e H]|[[e H]|[(e & _ & H)|[(e & _ & H)|(fs1 & _ & _ & _ & H)]]]];
      rewrite H; try done.
    cbv beta iota zeta.
    pose proof (sequential_loop_clash P kwargs
                  (combinations2 (sorted (glob select_from fs P pat))) fs1)
      as Hloop.
    destruct (sequential_loop _ _ _ _ _) as [[r fs2] t2].
    unfold trace in *. simpl in *. apply Hloop. by rewrite Hkv'.
  - intros fs1 pr rest HP HH Hmk Hpairs [n Hn]. exists kv'.1. split; [done|].
    subst o.
    rewrite show_micmac_matches_accepted
      by (try done; by eapply (pairs_accepted _ _ _ _ [])).
    rewrite Hmk. cbv beta iota zeta.
    rewrite Hpairs. simpl. unfold sequential_step. by rewrite Hn, Hkv'.
Qed.

(** X5: in parallel mode the rendering options are never looked at: a run
    does the same whatever options it is given. *)
Theorem parallel_ignores_options P pat kwargs kwargs' fs :
  show_micmac_matches select_from render cpu_count P pat true kwargs fs
  = show_micmac_matches select_from render cpu_count P pat true kwargs' fs.
Proof.
  destruct (fs !! P) as [n|] eqn:HP.
  2:{ by rewrite !run_without_project. }
  destruct (fs !! (P ++ ["Homol"])) as [n'|] eqn:HH.
  2:{ by rewrite !run_without_homol by (by rewrite ?HP). }
  by rewrite !show_micmac_matches_checked by (by rewrite ?HP, ?HH).
Qed.

Lemma sequential_loop_checks_first P kwargs pairs fs
    (t1 t2 : list event) (c : RenderCall) :
  trace (sequential_loop render P kwargs pairs fs) = t1 ++ EvRender c :: t2 ->
  exists (t0 : list event) (pr : Path * Path),
    pr ∈ pairs /\
    t1 = t0 ++ [EvExists (match_record P pr.1 pr.2) true] /\
    c = sequential_call P kwargs pr.
Proof.
  revert fs t1. induction pairs as [|pr pairs IH]; intros fs t1; simpl.
  - unfold trace. simpl. by destruct t1.
  - unfold sequential_step.
    destruct (fs !! match_record P pr.1 pr.2).
    2:{ unfold trace. simpl. by destruct t1 as [|? [|? [|? ?]]]. }
    destruct (clashing kwargs).
    { unfold trace. simpl. by destruct t1 as [|? [|? [|? ?]]]. }
    destruct (render (sequential_call P kwargs pr) fs) as [[err|] fs1].
    { unfold trace. simpl. intros Heq.
      destruct t1 as [|e1 [|e2 [|e3 [|e4 t1]]]]; simplify_eq/=.
      eexists [_], pr. split_and!; [by left|reflexivity|done]. }
    specialize (IH fs1).
    destruct (sequential_loop render P kwargs pairs fs1) as [[r fs2] t3].
    unfold trace in *. simpl in *. intros Heq.
    destruct t1 as [|e1 [|e2 [|e3 [|e4 t1]]]]; simplify_eq/=.
    + eexists [_], pr. split_and!; [by left|reflexivity|done].
    + destruct (IH t1 eq_refl) as (t0 & pr' & Hin & -> & ->).
      eexists (_ :: _ :: _ :: _ :: t0), pr'.
      split_and!; [by right|reflexivity|done].
Qed.

(** X6: the sequential path never renders a pair without having found its
    match record just before: in the trace of any sequential run, every
    rendering call comes right after the successful existence test of the
    match record it is given, and is the call of a pair of the
    enumeration. *)
Theorem render_follows_its_check P pat kwargs fs
    (t1 t2 : list event) (c : RenderCall) :
  trace (show_micmac_matches select_from render cpu_count P pat false kwargs fs)
  = t1 ++ EvRender c :: t2 ->
  exists (t0 : list event) (pr : Path * Path),
    pr ∈ combinations2 (sorted (glob select_from fs P pat)) /\
    t1 = t0 ++ [EvExists (match_record P pr.1 pr.2) true] /\
    c = sequential_call P kwargs pr.
Proof.
  destruct (run_checked_cases select_from render cpu_count P pat false
              kwargs fs)
    as [[e H]|[[e H]|[(e & _ & H)|[(e & _ & H)|(fs1 & _ & _ & _ & H)]]]];
    rewrite H.
  - unfold trace. simpl. by destruct t1 as [|? [|? ?]].
  - unfold trace. simpl. by destruct t1 as [|? [|? [|? ?]]].
  - unfold trace, refused_prologue. simpl.
    by destruct t1 as [|? [|? [|? [|? ?]]]].
  - unfold trace, prologue. simpl.
    by destruct t1 as [|? [|? [|? [|? [|? ?]]]]].
  - cbv beta iota zeta.
    pose proof (sequential_loop_checks_first P kwargs
                  (combinations2 (sorted (glob select_from fs P pat))) fs1)
      as Hloop.
    destruct (sequential_loop _ _ _ _ _) as [[r fs2] t3].
    unfold trace, prologue in *. simpl in *. intros Heq.
    destruct t1 as [|e1 [|e2 [|e3 [|e4 t1]]]]; simplify_eq/=.
    destruct (Hloop t1 t2 c eq_refl) as (t0 & pr & Hin & -> & ->).
    eexists (_ :: _ :: _ :: _ :: t0), pr. split_and!; [done|reflexivity|done].
Qed.

(** X7: the pipeline itself writes nothing but the output directory: after
    any run, in either mode, the file system is the initial one, with
    [match_figs] made a directory or not, changed by the rendering calls of
    the trace and by nothing else. *)
Theorem pipeline_writes_only_output_directory P pat (parallel : bool)
    kwargs fs :
  let o :=
    show_micmac_matches select_from render cpu_count P pat parallel kwargs fs in
  exists fs_mid : FS,
    (fs_mid = fs \/ fs_mid = <[P ++ ["match_figs"] := Dir]> fs) /\
    final_fs o = after_renders render (renders (trace o)) fs_mid.
Proof.
  intros o. subst o.
  destruct (run_final_fs select_from render cpu_count P pat parallel kwargs fs)
    as (fs_mid & Hmid & Hfs).
  by exists fs_mid.
Qed.

(** ** A task that raises in parallel mode *)

Lemma get_tasks_from_map {A B : Type} (f : A -> B) (turns size : nat)
    (l : list A) :
  get_tasks_from turns size (map f l)
  = map (map f) (get_tasks_from turns size l).
Proof.
  revert l. induction turns as [|turns IH]; intros l; simpl; [done|].
  rewrite firstn_map, skipn_map.
  destruct (take size l) as [|x b]; simpl; [done|]. by rewrite IH.
Qed.

Lemma get_tasks_map {A B : Type} (f : A -> B) (size : nat) (l : list A) :
  get_tasks size (map f l) = map (map f) (get_tasks size l).
Proof. unfold get_tasks. by rewrite length_map, get_tasks_from_map. Qed.

Lemma get_tasks_from_lengths {A : Type} (turns size : nat) (l : list A) :
  Forall (fun b => length b <= size) (get_tasks_from turns size l).
Proof.
  revert l. induction turns as [|turns IH]; intros l; simpl; [constructor|].
  destruct (take size l) as [|x b] eqn:Htake; [constructor|].
  constructor; [|apply IH]. rewrite <-Htake, length_take. lia.
Qed.

Lemma chunksize_one (n : nat) :
  0 < n -> n <= processes cpu_count * 4 -> chunksize cpu_count n = 1.
Proof.
  intros Hn Hle. unfold chunksize.
  destruct (n =? 0) eqn:Hz; [apply Nat.eqb_eq in Hz; lia|].
  destruct (decide (n = processes cpu_count * 4)) as [Heq|Hne].
  - rewrite <-Heq, Nat.Div0.mod_same, Nat.div_same by lia. done.
  - rewrite Nat.mod_small, Nat.div_small by lia. by rewrite Hz.
Qed.

(** The first call of a batch is always made. *)
Lemma starmapstar_head (args : list pyval) (rest : list (list pyval)) fs :
  exists t' : list RenderCall,
    renders (trace (starmapstar render (args :: rest) fs))
    = task_call args :: t'.
Proof.
  unfold starmapstar. cbn [for_each]. unfold bind, run_render.
  fold (task_call args).
  destruct (render (task_call args) fs) as [[err|] fs1].
  - by exists [].
  - destruct (for_each rest _ fs1) as [[r fs2] t2].
    unfold trace. simpl. by eexists.
Qed.

Lemma run_batches_heads (batches : list (list (list pyval))) fs
    (batch : list (list pyval)) (args : list pyval) :
  batch ∈ batches -> head batch = Some args ->
  task_call args ∈ renders (run_batches render batches fs).2.
Proof.
  revert fs. induction batches as [|b bs IH]; intros fs Hin Hhead;
    [by apply elem_of_nil in Hin|].
  simpl.
  destruct (starmapstar render b fs) as [[r fs1] t1] eqn:Hb.
  specialize (IH fs1).
  destruct (run_batches render bs fs1) as [[e fs2] t2]. simpl in *.
  rewrite renders_app. apply elem_of_app.
  apply elem_of_cons in Hin as [->|Hin].
  - left. destruct b as [|a rest]; [done|].
    simpl in Hhead. injection Hhead as ->.
    destruct (starmapstar_head args rest fs) as [t' Ht'].
    rewrite Hb in Ht'. unfold trace in Ht'. simpl in Ht'. rewrite Ht'.
    by left.
  - right. by apply IH.
Qed.

(** When no batch holds more than one task, every task is called. *)
Lemma run_batches_singletons (batches : list (list (list pyval))) fs :
  Forall (fun b => length b <= 1) batches ->
  renders (run_batches render batches fs).2 = map task_call (concat batches).
Proof.
  intros Hall. revert fs.
  induction Hall as [|b bs Hb Hbs IH]; intros fs; [done|].
  cbn [run_batches].
  destruct b as [|args [|args' rest]]; [| |simpl in Hb; lia].
  - unfold starmapstar. cbn [for_each]. unfold ret.
    specialize (IH fs).
    destruct (run_batches render bs fs) as [[e fs2] t2]. simpl in *.
    exact IH.
  - unfold starmapstar. cbn [for_each]. unfold bind, run_render, ret.
    fold (task_call args).
    destruct (render (task_call args) fs) as [[err|] fs1];
      specialize (IH fs1);
      destruct (run_batches render bs fs1) as [[e fs2] t2]; simpl in *;
      by rewrite IH.
Qed.

(** X17: in parallel mode a task that raises does not end the run.  The
    tasks are cut into batches of [chunksize] pairs; a call that raises ends
    its own batch only, and the exception is raised again once every batch
    is done.  So in a run that reaches the pool the first pair of every
    batch is always handed to the renderer; when there are no more pairs
    than four per worker process the batches hold one pair each, and every
    pair is, whatever the renderer does; and the only exception such a run
    can raise is the renderer's. *)
Theorem parallel_failure_keeps_going P pat kwargs fs :
  fs !! P = Some Dir -> is_Some (fs !! (P ++ ["Homol"])) ->
  glob_refusal pat = None ->
  fs !! (P ++ ["match_figs"]) <> Some File ->
  let pairs := combinations2 (sorted (glob select_from fs P pat)) in
  let batches := get_tasks (chunksize cpu_count (length pairs)) pairs in
  let o :=
    show_micmac_matches select_from render cpu_count P pat true kwargs fs in
  concat batches = pairs /\
  (forall (batch : list (Path * Path)) (pr : Path * Path),
     batch ∈ batches -> head batch = Some pr ->
     worker_call P pr ∈ renders (trace o)) /\
  (length pairs <= processes cpu_count * 4 ->
   renders (trace o) ≡ₚ map (worker_call P) pairs) /\
  (forall e : exn, result o = inl e ->
     exists err : string, e = RenderingError err).
Proof.
  intros HP HH Hpat Hmd pairs batches o.
  assert (Hsize : pairs <> [] -> 0 < chunksize cpu_count (length pairs)).
  { intros Hne. apply chunksize_pos. destruct pairs; [done|simpl; lia]. }
  set (tasks := params P (P ++ ["Homol"]) (P ++ ["match_figs"])
                  (sorted (glob select_from fs P pat))).
  set (fs1 := <[P ++ ["match_figs"] := Dir]> fs).
  assert (Htasks : tasks = map (fun pr => pos_args (worker_call P pr)) pairs)
    by apply params_worker_calls.
  assert (Hrun : o = match starmap render cpu_count tasks fs1 with
                     | (r, fs2, t) => (r, fs2, prologue P pat ++ t)
                     end).
  { subst o. rewrite show_micmac_matches_accepted by (by rewrite ?HP).
    by rewrite mkdir_child by done. }
  assert (Hbatches :
    get_tasks (chunksize cpu_count (length tasks)) tasks
    = map (map (fun pr => pos_args (worker_call P pr))) batches).
  { rewrite Htasks, length_map. apply get_tasks_map. }
  assert (Htrace : renders (trace o)
    = renders (run_batches render
                 (map (map (fun pr => pos_args (worker_call P pr))) batches)
                 fs1).2).
  { rewrite Hrun. unfold starmap. rewrite Hbatches.
    by destruct (run_batches _ _ _) as [[[e|] fs2] t]. }
  split_and!.
  - by apply get_tasks_concat.
  - intros batch pr Hin Hhead. rewrite Htrace.
    change (worker_call P pr) with (task_call (pos_args (worker_call P pr))).
    eapply run_batches_heads.
    + apply list_elem_of_fmap. by exists batch.
    + by destruct batch as [|pr' batch]; simplify_eq/=.
  - intros Hfew. rewrite Htrace.
    assert (Hconcat : concat batches = pairs) by (by apply get_tasks_concat).
    rewrite run_batches_singletons.
    + by rewrite <-concat_map, Hconcat, map_map.
    + apply Forall_fmap. unfold batches.
      destruct (decide (length pairs = 0)) as [Hz|Hnz].
      * apply nil_length_inv in Hz. rewrite Hz. constructor.
      * rewrite chunksize_one by lia.
        eapply Forall_impl; [apply get_tasks_from_lengths|].
        intros b Hb. simpl. by rewrite length_map.
  - intros e Hres. rewrite Hrun in Hres.
    pose proof (starmap_error_kind render cpu_count tasks fs1 e) as Herr.
    destruct (starmap _ _ _ _) as [[r fs2] t]. by apply Herr.
Qed.

End MoreRuns.

(** The run on the complete project with the quiet renderer returns. *)
Lemma sequential_return_trace_witness :
  length (trace (show_micmac_matches Gallery.select_from Gallery.quiet
                   Gallery.cpu_count Gallery.project "*.tif" false
                   Gallery.kwargs Gallery.fs))
  = 16.
Proof.
  rewrite (sequential_return_trace Gallery.select_from Gallery.quiet
             Gallery.cpu_count Gallery.project "*.tif" Gallery.kwargs
             Gallery.fs eq_refl).
  reflexivity.
Defined.

(** The complete project, rendered in parallel. *)
Lemma complete_project_renders_all_witness :
  result (show_micmac_matches Gallery.select_from Gallery.quiet
            Gallery.cpu_count Gallery.project "*.tif" true Gallery.kwargs
            Gallery.fs) = inr tt.
Proof.
  apply (complete_project_renders_all Gallery.select_from Gallery.quiet
           Gallery.cpu_count Gallery.project "*.tif" true Gallery.kwargs
           Gallery.fs).
  - reflexivity.
  - exists Dir. reflexivity.
  - reflexivity.
  - discriminate.
  - apply Forall_forall. apply (bool_decide_unpack _). vm_compute. exact I.
  - apply Forall_forall. apply (bool_decide_unpack _). reflexivity.
  - reflexivity.
  - intros c m p Hp. exact Hp.
Defined.

(** The complete project with the broken renderer: the first pair fails. *)
Lemma rendering_error_propagates_witness :
  result (show_micmac_matches Gallery.select_from Gallery.broken
            Gallery.cpu_count Gallery.project "*.tif" false Gallery.kwargs
            Gallery.fs)
  = inl (RenderingError "cannot read image").
Proof.
  rewrite (rendering_error_propagates Gallery.select_from Gallery.broken
             Gallery.cpu_count Gallery.project "*.tif" Gallery.kwargs
             Gallery.fs
             (<[Gallery.project ++ ["match_figs"] := Dir]> Gallery.fs)
             []
             [(Gallery.image "a.tif", Gallery.image "c.tif");
              (Gallery.image "b.tif", Gallery.image "c.tif")]
             (Gallery.image "a.tif", Gallery.image "b.tif")
             (<[Gallery.project ++ ["match_figs"] := Dir]> Gallery.fs)
             [] "cannot read image"
             (<[Gallery.project ++ ["match_figs"] := Dir]> Gallery.fs)).
  - reflexivity.
  - exists Dir. reflexivity.
  - exists Dir. reflexivity.
  - reflexivity.
  - reflexivity.
  - reflexivity.
  - exists File. reflexivity.
  - apply Forall_forall. apply (bool_decide_unpack _). reflexivity.
  - reflexivity.
Defined.

(** The complete project with an option named [out]: nothing is rendered. *)
Lemma clashing_option_prevents_rendering_witness :
  renders (trace (show_micmac_matches Gallery.select_from Gallery.quiet
                    Gallery.cpu_count Gallery.project "*.tif" false
                    Gallery.kwargs_out Gallery.fs)) = [].
Proof.
  apply (clashing_option_prevents_rendering Gallery.select_from Gallery.quiet
           Gallery.cpu_count Gallery.project "*.tif" Gallery.kwargs_out
           Gallery.fs ("out", PyStr "here.png")).
  - apply elem_of_cons. right. apply elem_of_cons. by left.
  - apply (bool_decide_unpack _). reflexivity.
Defined.

(** The first rendering call of the complete project comes after the test
    of the record of [(a, b)]. *)
Lemma render_follows_its_check_witness :
  exists (t0 : list event) (pr : Path * Path),
    pr ∈ combinations2
           (sorted (glob Gallery.select_from Gallery.fs Gallery.project
                      "*.tif")) /\
    take 6 (trace (show_micmac_matches Gallery.select_from Gallery.quiet
                     Gallery.cpu_count Gallery.project "*.tif" false
                     Gallery.kwargs Gallery.fs))
    = t0 ++ [EvExists (match_record Gallery.project pr.1 pr.2) true] /\
    sequential_call Gallery.project Gallery.kwargs
      (Gallery.image "a.tif", Gallery.image "b.tif")
    = sequential_call Gallery.project Gallery.kwargs pr.
Proof.
  apply (render_follows_its_check Gallery.select_from Gallery.quiet
           Gallery.cpu_count Gallery.project "*.tif" Gallery.kwargs Gallery.fs
           (take 6 (trace (show_micmac_matches Gallery.select_from
                             Gallery.quiet Gallery.cpu_count Gallery.project
                             "*.tif" false Gallery.kwargs Gallery.fs)))
           (drop 7 (trace (show_micmac_matches Gallery.select_from
                             Gallery.quiet Gallery.cpu_count Gallery.project
                             "*.tif" false Gallery.kwargs Gallery.fs)))).
  reflexivity.
Defined.

(** Four images on a host with one processor: six tasks in batches of two.
    The renderer raises on [(a, b)]; [(a, c)], in the same batch, is given
    up, and the four pairs of the other batches are rendered all the
    same. *)
Lemma parallel_failure_keeps_going_witness :
  let o := show_micmac_matches Studio.select_from Studio.render
             Studio.cpu_count Studio.project "*.tif" true [] Studio.fs in
  result o = inl (RenderingError "cannot read the match record") /\
  renders (trace o)
  = map (worker_call Studio.project)
        [(Studio.image "a.tif", Studio.image "b.tif");
         (Studio.image "a.tif", Studio.image "d.tif");
         (Studio.image "b.tif", Studio.image "c.tif");
         (Studio.image "b.tif", Studio.image "d.tif");
         (Studio.image "c.tif", Studio.image "d.tif")] /\
  worker_call Studio.project (Studio.image "a.tif", Studio.image "d.tif")
  ∈ renders (trace o).
Proof.
  pose proof (parallel_failure_keeps_going Studio.select_from Studio.render
                Studio.cpu_count Studio.project "*.tif" [] Studio.fs) as H.
  cbv zeta in H.
  destruct H as (_ & Hheads & _ & _).
  - reflexivity.
  - exists Dir. reflexivity.
  - reflexivity.
  - discriminate.
  - cbv zeta. split_and!; [reflexivity|reflexivity|].
    apply (Hheads [(Studio.image "a.tif", Studio.image "d.tif");
                   (Studio.image "b.tif", Studio.image "c.tif")]).
    + apply elem_of_cons. right. apply elem_of_cons. by left.
    + reflexivity.
Defined.

(** * Properties of the workflow steps *)

(** ** Strings *)

Section StringFacts.

Lemma string_app_assoc (a b c : string) : (a +:+ b) +:+ c = a +:+ b +:+ c.
Proof.
  induction a as [|x a IH]; [done|].
  cbv [String.append]. fold String.append. by rewrite IH.
Qed.

Lemma string_app_nil_r (a : string) : a +:+ "" = a.
Proof.
  induction a as [|x a IH]; [done|].
  cbv [String.append]. fold String.append. by rewrite IH.
Qed.

Lemma string_app_cons (x : ascii) (a b : string) :
  String x a +:+ b = String x (a +:+ b).
Proof. done. Qed.

Lemma snoc_app (tok : string) (c : ascii) (w : string) :
  Shlex.snoc tok c +:+ w = tok +:+ String c w.
Proof. unfold Shlex.snoc. by rewrite string_app_assoc. Qed.

Lemma all_chars_app (f : ascii -> bool) (a b : string) :
  all_chars f (a +:+ b) = all_chars f a && all_chars f b.
Proof.
  induction a as [|x a IH]; [done|].
  rewrite string_app_cons. simpl. by rewrite IH, andb_assoc.
Qed.

Lemma all_chars_impl (f g : ascii -> bool) (s : string) :
  (forall c, f c = true -> g c = true) ->
  all_chars f s = true -> all_chars g s = true.
Proof.
  intros Himp. induction s as [|c s IH]; simpl; [done|].
  intros [Hc Hs]%andb_true_iff. by rewrite (Himp c Hc), IH.
Qed.

Lemma plain_dquote_safe (c : ascii) : plain c = true -> dquote_safe c = true.
Proof.
  by destruct c as [[|] [|] [|] [|] [|] [|] [|] [|]].
Qed.

Lemma plain_squote_safe (c : ascii) : plain c = true -> squote_safe c = true.
Proof.
  by destruct c as [[|] [|] [|] [|] [|] [|] [|] [|]].
Qed.

Lemma uint_plain (u : Decimal.uint) :
  all_chars plain (DecimalString.NilEmpty.string_of_uint u) = true.
Proof. induction u; simpl; done. Qed.

Lemma str_of_int_plain (z : Z) : all_chars plain (str_of_int z) = true.
Proof.
  unfold str_of_int, DecimalString.NilZero.string_of_int,
    DecimalString.NilZero.string_of_uint.
  destruct (Z.to_int z) as [u|u]; destruct u; simpl; try done;
    apply uint_plain.
Qed.

Lemma str_of_int_nonempty (z : Z) : String.eqb (str_of_int z) "" = false.
Proof.
  unfold str_of_int, DecimalString.NilZero.string_of_int,
    DecimalString.NilZero.string_of_uint.
  destruct (Z.to_int z) as [u|u]; destruct u; done.
Qed.

End StringFacts.

(** ** Tokenization *)

Section ShlexFacts.

Implicit Types (tok w rest : string) (quoted : bool).

(** Once inside quotes, the token counts as quoted. *)
Lemma lex_quote_flag (q : ascii) tok quoted rest :
  Shlex.lex (Shlex.Quote q) tok quoted rest
  = Shlex.lex (Shlex.Quote q) tok true rest.
Proof. by destruct rest. Qed.

Lemma lex_dquote_run tok w rest :
  all_chars dquote_safe w = true ->
  Shlex.lex (Shlex.Quote "034") tok true (w +:+ rest)
  = Shlex.lex (Shlex.Quote "034") (tok +:+ w) true rest.
Proof.
  revert tok. induction w as [|c w IH]; intros tok; simpl.
  - by rewrite string_app_nil_r.
  - intros [Hc Hw]%andb_true_iff.
    unfold dquote_safe in Hc. apply andb_true_iff in Hc as [Hq He].
    apply negb_true_iff in Hq, He. rewrite Hq, He. simpl.
    by rewrite IH, snoc_app.
Qed.

Lemma lex_squote_run tok w rest :
  all_chars squote_safe w = true ->
  Shlex.lex (Shlex.Quote "'") tok true (w +:+ rest)
  = Shlex.lex (Shlex.Quote "'") (tok +:+ w) true rest.
Proof.
  revert tok. induction w as [|c w IH]; intros tok; simpl.
  - by rewrite string_app_nil_r.
  - intros [Hc Hw]%andb_true_iff.
    unfold squote_safe in Hc. apply negb_true_iff in Hc. rewrite Hc.
    rewrite andb_false_r. by rewrite IH, snoc_app.
Qed.

Lemma lex_word_run tok quoted w rest :
  all_chars plain w = true ->
  Shlex.lex Shlex.Word tok quoted (w +:+ rest)
  = Shlex.lex Shlex.Word (tok +:+ w) quoted rest.
Proof.
  revert tok. induction w as [|c w IH]; intros tok; simpl.
  - by rewrite string_app_nil_r.
  - intros [Hc Hw]%andb_true_iff.
    unfold plain in Hc. apply andb_true_iff in Hc as [[Hs Hq]%andb_true_iff He].
    apply negb_true_iff in Hs, Hq, He. rewrite Hs, Hq, He.
    by rewrite IH, snoc_app.
Qed.

Lemma lex_blank_run w rest :
  all_chars plain w = true -> String.eqb w "" = false ->
  Shlex.lex Shlex.Blank "" false (w +:+ rest)
  = Shlex.lex Shlex.Word w false rest.
Proof.
  destruct w as [|c w]; [done|]. simpl.
  intros [Hc Hw]%andb_true_iff _.
  unfold plain in Hc. apply andb_true_iff in Hc as [[Hs Hq]%andb_true_iff He].
  apply negb_true_iff in Hs, Hq, He. rewrite Hs, Hq, He.
  by rewrite lex_word_run.
Qed.

End ShlexFacts.

Section Commands.

Implicit Types (tok rest pref ext : string).

Lemma lex_close_dquote_space tok rest :
  Shlex.lex (Shlex.Quote "034") tok true (dquote +:+ " " +:+ rest)
  = Shlex.emit tok (Shlex.lex Shlex.Blank "" false rest).
Proof. reflexivity. Qed.

Lemma lex_close_dquote_end tok :
  Shlex.lex (Shlex.Quote "034") tok true dquote = inr [tok].
Proof. reflexivity. Qed.

Lemma lex_word_space tok rest :
  String.eqb tok "" = false ->
  Shlex.lex Shlex.Word tok false (" " +:+ rest)
  = Shlex.emit tok (Shlex.lex Shlex.Blank "" false rest).
Proof.
  intros Htok. change (" " +:+ rest) with (String " " rest). simpl.
  by rewrite Htok.
Qed.

Lemma lex_word_end tok :
  String.eqb tok "" = false -> Shlex.lex Shlex.Word tok false "" = inr [tok].
Proof. intros Htok. simpl. by rewrite Htok. Qed.

Lemma pattern_dquote_safe pref ext :
  all_chars dquote_safe pref = true -> all_chars dquote_safe ext = true ->
  all_chars dquote_safe (pref +:+ "(.*)." +:+ ext) = true.
Proof. intros Hp He. by rewrite !all_chars_app, Hp, He. Qed.

(** The command line of [find_tiepoints], split. *)
Lemma tapioca_argv (method : string) pref ext (resize : Z) (export : bool) :
  method ∈ ["MulScale"; "All"; "Line"; "File"; "Graph"] ->
  all_chars dquote_safe pref = true -> all_chars dquote_safe ext = true ->
  Shlex.split
    ("mm3d Tapioca " +:+ method +:+ " " +:+ dquote +:+ pref +:+ "(.*)."
     +:+ ext +:+ dquote +:+ " " +:+ str_of_int resize +:+ " ExpTxt="
     +:+ str_of_flag export)
  = inr ["mm3d"; "Tapioca"; method; pref +:+ "(.*)." +:+ ext;
         str_of_int resize; "ExpTxt=" +:+ str_of_flag export].
Proof.
  intros Hm Hp He. unfold Shlex.split.
  assert (Hhead : forall rest,
    Shlex.lex Shlex.Blank "" false
      ("mm3d Tapioca " +:+ method +:+ " " +:+ dquote +:+ rest)
    = Shlex.emit "mm3d" (Shlex.emit "Tapioca" (Shlex.emit method
        (Shlex.lex (Shlex.Quote "034") "" true rest)))).
  { intros rest. rewrite <-(lex_quote_flag _ _ false).
    repeat (apply elem_of_cons in Hm as [->|Hm]); try reflexivity.
    by apply elem_of_nil in Hm. }
  rewrite Hhead.
  replace (pref +:+ "(.*)." +:+ ext +:+ dquote +:+ " " +:+ str_of_int resize
           +:+ " ExpTxt=" +:+ str_of_flag export)
    with ((pref +:+ "(.*)." +:+ ext) +:+ dquote +:+ " " +:+ str_of_int resize
          +:+ " ExpTxt=" +:+ str_of_flag export)
    by (by rewrite !string_app_assoc).
  rewrite lex_dquote_run by by apply pattern_dquote_safe.
  rewrite lex_close_dquote_space.
  rewrite lex_blank_run
    by (apply str_of_int_plain || apply str_of_int_nonempty).
  change (" ExpTxt=" +:+ str_of_flag export)
    with (" " +:+ "ExpTxt=" +:+ str_of_flag export).
  rewrite lex_word_space by apply str_of_int_nonempty.
  by destruct export.
Qed.

Lemma lex_open_dquote rest :
  Shlex.lex Shlex.Blank "" false (dquote +:+ rest)
  = Shlex.lex (Shlex.Quote "034") "" true rest.
Proof. rewrite <-(lex_quote_flag _ _ false). reflexivity. Qed.

Lemma lex_word_run_end tok (w : string) :
  all_chars plain w = true -> String.eqb (tok +:+ w) "" = false ->
  Shlex.lex Shlex.Word tok false w = inr [tok +:+ w].
Proof.
  intros Hw Hne. rewrite <-(string_app_nil_r w) at 1.
  rewrite lex_word_run by done. by apply lex_word_end.
Qed.

Lemma plain_dquote_safe_all (w : string) :
  all_chars plain w = true -> all_chars dquote_safe w = true.
Proof. apply all_chars_impl, plain_dquote_safe. Qed.

(** The command line of [convert_rpc_info], split. *)
Lemma convert_argv pref ext (rpc_ext : string) (deg : Z) (proj_file : string) :
  all_chars dquote_safe pref = true -> all_chars dquote_safe ext = true ->
  all_chars dquote_safe rpc_ext = true -> all_chars plain proj_file = true ->
  Shlex.split
    ("mm3d Convert2GenBundle " +:+ dquote +:+ pref +:+ "(.*)." +:+ ext
     +:+ dquote +:+ " " +:+ dquote +:+ "$1." +:+ rpc_ext +:+ dquote +:+ " "
     +:+ dquote +:+ "RPC-d" +:+ str_of_int deg +:+ dquote +:+ " Degre="
     +:+ str_of_int deg +:+ " ChSys=" +:+ proj_file)
  = inr ["mm3d"; "Convert2GenBundle"; pref +:+ "(.*)." +:+ ext;
         "$1." +:+ rpc_ext; "RPC-d" +:+ str_of_int deg;
         "Degre=" +:+ str_of_int deg; "ChSys=" +:+ proj_file].
Proof.
  intros Hp He Hr Hf. unfold Shlex.split.
  assert (Hhead : forall rest,
    Shlex.lex Shlex.Blank "" false
      ("mm3d Convert2GenBundle " +:+ dquote +:+ rest)
    = Shlex.emit "mm3d" (Shlex.emit "Convert2GenBundle"
        (Shlex.lex (Shlex.Quote "034") "" true rest))).
  { intros rest. rewrite <-(lex_quote_flag _ _ false). reflexivity. }
  rewrite Hhead.
  rewrite <-(string_app_assoc "(.*)." ext), <-(string_app_assoc pref).
  rewrite lex_dquote_run by by apply pattern_dquote_safe.
  rewrite lex_close_dquote_space, lex_open_dquote.
  rewrite <-(string_app_assoc "$1." rpc_ext).
  rewrite lex_dquote_run by by rewrite all_chars_app, Hr.
  rewrite lex_close_dquote_space, lex_open_dquote.
  rewrite <-(string_app_assoc "RPC-d" (str_of_int deg)).
  rewrite lex_dquote_run
    by (rewrite all_chars_app, (plain_dquote_safe_all _ (str_of_int_plain deg));
        done).
  change (" Degre=" +:+ str_of_int deg +:+ " ChSys=" +:+ proj_file)
    with (" " +:+ "Degre=" +:+ str_of_int deg +:+ " ChSys=" +:+ proj_file).
  rewrite lex_close_dquote_space.
  change (Shlex.lex Shlex.Blank "" false
            ("Degre=" +:+ str_of_int deg +:+ " ChSys=" +:+ proj_file))
    with (Shlex.lex Shlex.Word "Degre=" false
            (str_of_int deg +:+ " ChSys=" +:+ proj_file)).
  rewrite lex_word_run by apply str_of_int_plain.
  change (" ChSys=" +:+ proj_file) with (" " +:+ "ChSys=" +:+ proj_file).
  rewrite lex_word_space by reflexivity.
  change (Shlex.lex Shlex.Blank "" false ("ChSys=" +:+ proj_file))
    with (Shlex.lex Shlex.Word "ChSys=" false proj_file).
  rewrite lex_word_run_end by done. reflexivity.
Qed.

(** The command line of [bundle_adjustment], split: the parenthesis after
    the closing quote ends up in the pattern. *)
Lemma campari_argv pref ext (deg : Z) (export : bool) :
  all_chars squote_safe pref = true -> all_chars squote_safe ext = true ->
  Shlex.split
    ("mm3d Campari '" +:+ pref +:+ "(.*)." +:+ ext +:+ "') RPC-d"
     +:+ str_of_int deg +:+ " RPC-d" +:+ str_of_int deg +:+ "-adj ExpTxt="
     +:+ str_of_flag export)
  = inr ["mm3d"; "Campari"; pref +:+ "(.*)." +:+ ext +:+ ")";
         "RPC-d" +:+ str_of_int deg; "RPC-d" +:+ str_of_int deg +:+ "-adj";
         "ExpTxt=" +:+ str_of_flag export].
Proof.
  intros Hp He. unfold Shlex.split.
  assert (Hhead : forall rest,
    Shlex.lex Shlex.Blank "" false ("mm3d Campari '" +:+ rest)
    = Shlex.emit "mm3d" (Shlex.emit "Campari"
        (Shlex.lex (Shlex.Quote "'") "" true rest))).
  { intros rest. rewrite <-(lex_quote_flag _ _ false). reflexivity. }
  rewrite Hhead.
  rewrite <-(string_app_assoc "(.*)." ext), <-(string_app_assoc pref).
  rewrite lex_squote_run by by rewrite !all_chars_app, Hp, He.
  assert (Hclose : forall tok rest,
    Shlex.lex (Shlex.Quote "'") tok true ("') RPC-d" +:+ rest)
    = Shlex.emit (tok +:+ ")") (Shlex.lex Shlex.Word "RPC-d" false rest))
    by reflexivity.
  rewrite Hclose.
  rewrite lex_word_run by apply str_of_int_plain.
  change (" RPC-d" +:+ str_of_int deg +:+ "-adj ExpTxt=" +:+ str_of_flag export)
    with (" " +:+ "RPC-d" +:+ str_of_int deg +:+ "-adj ExpTxt="
          +:+ str_of_flag export).
  rewrite lex_word_space by reflexivity.
  change (Shlex.lex Shlex.Blank "" false
            ("RPC-d" +:+ str_of_int deg +:+ "-adj ExpTxt="
             +:+ str_of_flag export))
    with (Shlex.lex Shlex.Word "RPC-d" false
            (str_of_int deg +:+ "-adj ExpTxt=" +:+ str_of_flag export)).
  rewrite lex_word_run by apply str_of_int_plain.
  change ("-adj ExpTxt=" +:+ str_of_flag export)
    with ("-adj" +:+ " " +:+ "ExpTxt=" +:+ str_of_flag export).
  rewrite lex_word_run by reflexivity.
  rewrite lex_word_space by reflexivity.
  rewrite !string_app_assoc. by destruct export.
Qed.

(** The command line of [find_tiepoints] when the prefix holds a double
    quote: the quotes do not pair up. *)
Lemma tapioca_unbalanced (method : string) (p1 p2 : string) ext
    (resize : Z) (export : bool) :
  method ∈ ["MulScale"; "All"; "Line"; "File"; "Graph"] ->
  all_chars dquote_safe p1 = true -> all_chars plain p2 = true ->
  all_chars plain ext = true ->
  Shlex.split
    ("mm3d Tapioca " +:+ method +:+ " " +:+ dquote
     +:+ (p1 +:+ dquote +:+ p2) +:+ "(.*)." +:+ ext +:+ dquote +:+ " "
     +:+ str_of_int resize +:+ " ExpTxt=" +:+ str_of_flag export)
  = inl "No closing quotation".
Proof.
  intros Hm H1 H2 He. unfold Shlex.split.
  assert (Hhead : forall rest,
    Shlex.lex Shlex.Blank "" false
      ("mm3d Tapioca " +:+ method +:+ " " +:+ dquote +:+ rest)
    = Shlex.emit "mm3d" (Shlex.emit "Tapioca" (Shlex.emit method
        (Shlex.lex (Shlex.Quote "034") "" true rest)))).
  { intros rest. rewrite <-(lex_quote_flag _ _ false).
    repeat (apply elem_of_cons in Hm as [->|Hm]); try reflexivity.
    by apply elem_of_nil in Hm. }
  rewrite Hhead, !string_app_assoc.
  rewrite lex_dquote_run by done.
  assert (Hclose : forall tok rest,
    Shlex.lex (Shlex.Quote "034") tok true (dquote +:+ rest)
    = Shlex.lex Shlex.Word tok true rest) by reflexivity.
  rewrite Hclose.
  rewrite <-(string_app_assoc "(.*)." ext), <-(string_app_assoc p2).
  rewrite lex_word_run by by rewrite !all_chars_app, H2, He.
  assert (Hopen : forall tok rest,
    Shlex.lex Shlex.Word tok true (dquote +:+ rest)
    = Shlex.lex (Shlex.Quote "034") tok true rest) by reflexivity.
  rewrite Hopen.
  rewrite <-(string_app_nil_r (str_of_flag export)), <-!string_app_assoc.
  rewrite lex_dquote_run; [by destruct method|].
  rewrite !all_chars_app, (plain_dquote_safe_all _ (str_of_int_plain resize)).
  by destruct export.
Qed.

Lemma strings_of_Str (argv : list string) :
  Workflow.strings_of (Workflow.Str <$> argv) = Some argv.
Proof.
  induction argv as [|a argv IH]; [done|].
  rewrite fmap_cons. cbn [Workflow.strings_of]. by rewrite IH.
Qed.

End Commands.

Section Steps.

Variable spawn : list string -> Workflow.Disk ->
                 (string + string) * Workflow.Disk.

Implicit Types (pref ext : string) (d : Workflow.Disk).

(** X8: a method that is not one of the five known ones is refused with a
    [ValueError] before anything is printed and before any program is
    started: only the opening log line has been written. *)
Theorem find_tiepoints_refuses_unknown_method ext (pref_im : option string)
    (method : string) (resize : Z) (export_text use_schnaps verbose : bool) d :
  method ∉ ["MulScale"; "All"; "Line"; "File"; "Graph"] ->
  Workflow.find_tiepoints spawn ext pref_im method resize export_text
    use_schnaps verbose d
  = (inl (Workflow.ValueError
            "Invalid method. Must be one of: MulScale, All, Line, File, Graph"),
     d, [Workflow.Log "Computing tie points..."]).
Proof.
  intros Hm. unfold Workflow.find_tiepoints, Workflow.bind, Workflow.log.
  by rewrite bool_decide_eq_false_2.
Qed.

(** X9: with a known method, and a prefix and an extension that hold no
    double quote and no backslash (whitespace is allowed), [find_tiepoints]
    starts [mm3d Tapioca] once, with the pattern (the prefix, a group for the
    rest of the name, a dot, the extension) as one argument, the size and
    the text-export flag; without [use_schnaps] it
    then returns, whatever the exit status, having printed the command and
    the output of the program only when [verbose] is set.  A missing prefix
    is the empty prefix. *)
Theorem find_tiepoints_runs_tapioca ext (pref_im : option string)
    (method : string) (resize : Z) (export_text verbose : bool) d
    (out : string) d' :
  method ∈ ["MulScale"; "All"; "Line"; "File"; "Graph"] ->
  all_chars dquote_safe (default "" pref_im) = true ->
  all_chars dquote_safe ext = true ->
  let argv :=
    ["mm3d"; "Tapioca"; method; default "" pref_im +:+ "(.*)." +:+ ext;
     str_of_int resize; "ExpTxt=" +:+ str_of_flag export_text] in
  let cmd :=
    "mm3d Tapioca " +:+ method +:+ " " +:+ dquote +:+ default "" pref_im
    +:+ "(.*)." +:+ ext +:+ dquote +:+ " " +:+ str_of_int resize
    +:+ " ExpTxt=" +:+ str_of_flag export_text in
  spawn argv d = (inr out, d') ->
  Workflow.find_tiepoints spawn ext pref_im method resize export_text false
    verbose d
  = (inr tt, d',
     [Workflow.Log "Computing tie points..."] ++
     (if verbose then [Workflow.Print cmd] else []) ++
     [Workflow.Spawn argv] ++
     (if verbose then [Workflow.Print out] else []) ++
     [Workflow.Log "Tie points computed."]).
Proof.
  intros Hm Hp He argv cmd Hspawn.
  unfold Workflow.find_tiepoints, Workflow.bind, Workflow.log,
    Workflow.shlex_split, Workflow.subprocess_run.
  rewrite bool_decide_eq_true_2 by done. cbn [negb].
  rewrite tapioca_argv by done.
  unfold argv in Hspawn. by destruct verbose; simpl; rewrite Hspawn.
Qed.

(** X10: with [use_schnaps] set, [find_tiepoints] cannot return: once
    [mm3d Tapioca] has run, the argument list for [mm3d Schnaps] holds the
    integer [1], which [subprocess.run] refuses with a [TypeError]; no
    second program is started and the closing log line is never written. *)
Theorem find_tiepoints_schnaps_raises ext (pref_im : option string)
    (method : string) (resize : Z) (export_text verbose : bool) d
    (out : string) d' :
  method ∈ ["MulScale"; "All"; "Line"; "File"; "Graph"] ->
  all_chars dquote_safe (default "" pref_im) = true ->
  all_chars dquote_safe ext = true ->
  let argv :=
    ["mm3d"; "Tapioca"; method; default "" pref_im +:+ "(.*)." +:+ ext;
     str_of_int resize; "ExpTxt=" +:+ str_of_flag export_text] in
  let cmd :=
    "mm3d Tapioca " +:+ method +:+ " " +:+ dquote +:+ default "" pref_im
    +:+ "(.*)." +:+ ext +:+ dquote +:+ " " +:+ str_of_int resize
    +:+ " ExpTxt=" +:+ str_of_flag export_text in
  spawn argv d = (inr out, d') ->
  Workflow.find_tiepoints spawn ext pref_im method resize export_text true
    verbose d
  = (inl (Workflow.TypeError
            "expected str, bytes or os.PathLike object, not int"),
     d',
     [Workflow.Log "Computing tie points..."] ++
     (if verbose then [Workflow.Print cmd] else []) ++
     [Workflow.Spawn argv] ++
     (if verbose then [Workflow.Print out] else [])).
Proof.
  intros Hm Hp He argv cmd Hspawn.
  unfold Workflow.find_tiepoints, Workflow.bind, Workflow.log,
    Workflow.shlex_split, Workflow.subprocess_run.
  rewrite bool_decide_eq_true_2 by done. cbn [negb].
  rewrite tapioca_argv by done.
  unfold argv in Hspawn. by destruct verbose; simpl; rewrite Hspawn.
Qed.

(** X11: with a prefix, an extension and an RPC extension that hold no
    double quote and no backslash, and a projection file name without
    whitespace, quote or backslash, [convert_rpc_info] starts
    [mm3d Convert2GenBundle] once with seven arguments and returns the name of
    the orientation directory, [RPC-d] followed by the degree, whatever the
    exit status; the output of the program is printed only when [verbose]
    is set. *)
Theorem convert_rpc_info_runs_convert pref ext (rpc_ext : string) (deg : Z)
    (proj_file : string) (verbose : bool) d (out : string) d' :
  all_chars dquote_safe pref = true -> all_chars dquote_safe ext = true ->
  all_chars dquote_safe rpc_ext = true -> all_chars plain proj_file = true ->
  let argv :=
    ["mm3d"; "Convert2GenBundle"; pref +:+ "(.*)." +:+ ext;
     "$1." +:+ rpc_ext; "RPC-d" +:+ str_of_int deg;
     "Degre=" +:+ str_of_int deg; "ChSys=" +:+ proj_file] in
  spawn argv d = (inr out, d') ->
  Workflow.convert_rpc_info spawn pref ext rpc_ext deg proj_file verbose d
  = (inr ("RPC-d" +:+ str_of_int deg), d',
     [Workflow.Spawn argv] ++
     (if verbose then [Workflow.Print out] else []) ++
     [Workflow.Log ("RPC information converted. Output directory: "
                    +:+ "RPC-d" +:+ str_of_int deg)]).
Proof.
  intros Hp He Hr Hf argv Hspawn.
  unfold Workflow.convert_rpc_info, Workflow.bind, Workflow.log,
    Workflow.shlex_split, Workflow.subprocess_run.
  rewrite convert_argv by done.
  unfold argv in Hspawn. by destruct verbose; simpl; rewrite Hspawn.
Qed.

(** X12: with a prefix and an extension that hold no single quote,
    [bundle_adjustment] starts [mm3d Campari] once; the parenthesis written
    after the closing quote is part of the pattern argument; the orientation
    it reads is [RPC-d] followed by the degree and the one it writes, and
    returns, is that name followed by [-adj].  The command and the output of
    the program are printed whatever [verbose] is, and [homol_set] has no
    effect. *)
Theorem bundle_adjustment_runs_campari pref ext (deg : Z)
    (homol_set : option string) (export_text verbose : bool) d
    (out : string) d' :
  all_chars squote_safe pref = true -> all_chars squote_safe ext = true ->
  let argv :=
    ["mm3d"; "Campari"; pref +:+ "(.*)." +:+ ext +:+ ")";
     "RPC-d" +:+ str_of_int deg; "RPC-d" +:+ str_of_int deg +:+ "-adj";
     "ExpTxt=" +:+ str_of_flag export_text] in
  let cmd :=
    "mm3d Campari '" +:+ pref +:+ "(.*)." +:+ ext +:+ "') RPC-d"
    +:+ str_of_int deg +:+ " RPC-d" +:+ str_of_int deg +:+ "-adj ExpTxt="
    +:+ str_of_flag export_text in
  spawn argv d = (inr out, d') ->
  Workflow.bundle_adjustment spawn pref ext deg homol_set export_text verbose d
  = (inr ("RPC-d" +:+ str_of_int deg +:+ "-adj"), d',
     [Workflow.Log "Performing bundle adjustment..."; Workflow.Print cmd;
      Workflow.Spawn argv; Workflow.Print out;
      Workflow.Log ("Bundle adjustment completed. Output directory: "
                    +:+ "RPC-d" +:+ str_of_int deg +:+ "-adj")]).
Proof.
  intros Hp He argv cmd Hspawn.
  unfold Workflow.bundle_adjustment, Workflow.bind, Workflow.log,
    Workflow.print, Workflow.shlex_split, Workflow.subprocess_run.
  rewrite campari_argv by done.
  unfold argv in Hspawn. simpl. by rewrite Hspawn.
Qed.

(** X13: a double quote in the prefix leaves the quotes of the command line
    unpaired: [find_tiepoints] raises the [ValueError] of [shlex.split]
    before any program is started and without the closing log line. *)
Theorem find_tiepoints_unpaired_quote ext (p1 p2 : string) (method : string)
    (resize : Z) (export_text use_schnaps verbose : bool) d :
  method ∈ ["MulScale"; "All"; "Line"; "File"; "Graph"] ->
  all_chars dquote_safe p1 = true -> all_chars plain p2 = true ->
  all_chars plain ext = true ->
  let pref_im := p1 +:+ dquote +:+ p2 in
  let cmd :=
    "mm3d Tapioca " +:+ method +:+ " " +:+ dquote +:+ pref_im
    +:+ "(.*)." +:+ ext +:+ dquote +:+ " " +:+ str_of_int resize
    +:+ " ExpTxt=" +:+ str_of_flag export_text in
  Workflow.find_tiepoints spawn ext (Some pref_im) method resize export_text
    use_schnaps verbose d
  = (inl (Workflow.ValueError "No closing quotation"), d,
     [Workflow.Log "Computing tie points..."] ++
     (if verbose then [Workflow.Print cmd] else [])).
Proof.
  intros Hm H1 H2 He pref_im cmd.
  unfold Workflow.find_tiepoints, Workflow.bind, Workflow.log,
    Workflow.shlex_split.
  rewrite bool_decide_eq_true_2 by done. cbn [negb default from_option id].
  unfold pref_im. rewrite tapioca_unbalanced by done.
  by destruct verbose.
Qed.

End Steps.

Section Projection.

Variable CRS : Type.
Variable crs_from_epsg : Z -> Workflow.error + CRS.
Variable crs_from_text : string -> Workflow.error + CRS.
Variable to_proj4 : CRS -> string.

Implicit Types (d : Workflow.Disk) (fname : Path).

Lemma parent_neq fname : fname <> [] -> Pathlib.parent fname <> fname.
Proof.
  intros Hne Heq. apply (f_equal length) in Heq.
  destruct fname as [|c fname _] using rev_ind; [done|].
  rewrite parent_snoc, length_app in Heq. simpl in Heq. lia.
Qed.

Lemma node_at_insert_ne d fname (q : Path) (n : Workflow.fnode) :
  q <> fname ->
  Workflow.node_at (<[fname := n]> d) q = Workflow.node_at d q.
Proof.
  intros Hne. destruct q; [done|]. simpl. by rewrite lookup_insert_ne.
Qed.

Lemma node_at_delete_ne d fname (q : Path) :
  q <> fname -> Workflow.node_at (delete fname d) q = Workflow.node_at d q.
Proof.
  intros Hne. destruct q; [done|]. simpl. by rewrite lookup_delete_ne.
Qed.

(** Writing the projection file where nothing stands in the way. *)
Lemma sysproj_written d fname (proj : string) :
  d !! fname = None -> fname <> [] ->
  Workflow.node_at d (Pathlib.parent fname) = Some Workflow.Directory ->
  Workflow.bind (Workflow.open_w fname) (fun _ =>
    Workflow.bind (Workflow.file_write fname
      ("<?xml version=" +:+ dquote +:+ "1.0" +:+ dquote +:+ " ?>" +:+ newline))
    (fun _ => Workflow.bind (Workflow.file_write fname
      ("<SystemeCoord>" +:+ newline))
    (fun _ => Workflow.bind (Workflow.file_write fname
      ("     <BSC>" +:+ newline))
    (fun _ => Workflow.bind (Workflow.file_write fname
      ("          <TypeCoord>eTC_Proj4</TypeCoord>" +:+ newline))
    (fun _ => Workflow.bind (Workflow.file_write fname
      ("          <AuxStr>" +:+ proj +:+ "</AuxStr>" +:+ newline))
    (fun _ => Workflow.bind (Workflow.file_write fname
      ("     </BSC>" +:+ newline))
    (fun _ => Workflow.bind (Workflow.file_write fname
      ("</SystemeCoord>" +:+ newline))
    (fun _ => Workflow.bind
      (Workflow.log ("Created SysPROJ.xml file: " +:+ Pathlib.str fname))
    (fun _ => Workflow.pure fname))))))))) d
  = (inr fname, <[fname := Workflow.Regular (Workflow.sysproj_text proj)]> d,
     [Workflow.Log ("Created SysPROJ.xml file: " +:+ Pathlib.str fname)]).
Proof.
  intros Hnone Hne Hpar.
  unfold Workflow.bind, Workflow.open_w, Workflow.file_write, Workflow.log,
    Workflow.pure.
  assert (Hnode : Workflow.node_at d fname = None)
    by (destruct fname; [done|exact Hnone]).
  rewrite Hnode, Hpar.
  rewrite !lookup_insert_eq, !insert_insert_eq. simpl.
  do 2 f_equal. f_equal. f_equal. unfold Workflow.sysproj_text.
  rewrite !string_app_assoc. reflexivity.
Qed.

(** X14: [create_sysproj_xml] removes the file before it looks at its
    argument.  When the argument is neither an integer nor a string, or
    [pyproj] does not know it, the call raises and a projection file that was
    there is gone. *)
Theorem create_sysproj_xml_failure_removes_file (epsg : Workflow.epsg_arg)
    fname d (e : Workflow.error) :
  Workflow.resolve_epsg crs_from_epsg crs_from_text epsg = inl e ->
  Workflow.node_at d fname <> Some Workflow.Directory ->
  Workflow.create_sysproj_xml CRS crs_from_epsg crs_from_text to_proj4 epsg
    fname d
  = (inl e, delete fname d, []).
Proof.
  intros Hres Hdir.
  unfold Workflow.create_sysproj_xml, Workflow.bind, Workflow.path_exists,
    Workflow.when, Workflow.path_unlink.
  assert (Hne : fname <> []) by (intros ->; by apply Hdir).
  assert (Hnode : Workflow.node_at d fname = d !! fname)
    by (by destruct fname).
  rewrite Hnode in *.
  destruct (d !! fname) as [[old|]|] eqn:Hlook; [|done|].
  - rewrite bool_decide_eq_true_2 by by eexists. simpl. rewrite Hnode.
    destruct epsg as [code|text|]; simpl in Hres.
    + destruct (crs_from_epsg code); [|done]. by injection Hres as ->.
    + destruct (crs_from_text text); [|done]. by injection Hres as ->.
    + by injection Hres as <-.
  - rewrite bool_decide_eq_false_2 by (by intros [? ?]). simpl.
    rewrite delete_id by done.
    destruct epsg as [code|text|]; simpl in Hres.
    + destruct (crs_from_epsg code); [|done]. by injection Hres as ->.
    + destruct (crs_from_text text); [|done]. by injection Hres as ->.
    + by injection Hres as <-.
Qed.

(** A run of [create_sysproj_xml] that can write. *)
Lemma create_sysproj_xml_run (epsg : Workflow.epsg_arg) fname d (crs : CRS) :
  Workflow.resolve_epsg crs_from_epsg crs_from_text epsg = inr crs ->
  Workflow.node_at d fname <> Some Workflow.Directory ->
  Workflow.node_at d (Pathlib.parent fname) = Some Workflow.Directory ->
  Workflow.create_sysproj_xml CRS crs_from_epsg crs_from_text to_proj4 epsg
    fname d
  = (inr fname,
     <[fname := Workflow.Regular (Workflow.sysproj_text (to_proj4 crs))]> d,
     [Workflow.Log ("Created SysPROJ.xml file: " +:+ Pathlib.str fname)]).
Proof.
  intros Hres Hdir Hpar.
  assert (Hne : fname <> []) by (intros ->; by apply Hdir).
  assert (Hcrs : forall (A : Type) (k : CRS -> Workflow.W A)
                        (d1 : Workflow.Disk),
    Workflow.bind
      match epsg with
      | Workflow.EpsgInt code =>
          match crs_from_epsg code with
          | inl e => Workflow.raise e
          | inr c => Workflow.pure c
          end
      | Workflow.EpsgStr text =>
          match crs_from_text text with
          | inl e => Workflow.raise e
          | inr c => Workflow.pure c
          end
      | Workflow.EpsgOther =>
          Workflow.raise
            (Workflow.ValueError "EPSG must be an integer or string.")
      end k d1
    = match k crs d1 with (r, d2, t2) => (r, d2, [] ++ t2) end).
  { intros A k d1. unfold Workflow.bind.
    destruct epsg as [code|text|]; simpl in Hres.
    - by destruct (crs_from_epsg code); simplify_eq.
    - by destruct (crs_from_text text); simplify_eq.
    - done. }
  unfold Workflow.create_sysproj_xml.
  assert (Hnode : Workflow.node_at d fname = d !! fname)
    by (by destruct fname).
  unfold Workflow.bind at 1. unfold Workflow.path_exists.
  unfold Workflow.bind at 1. unfold Workflow.when, Workflow.path_unlink.
  rewrite Hnode in *.
  destruct (d !! fname) as [[old|]|] eqn:Hlook; [|done|].
  - rewrite bool_decide_eq_true_2 by by eexists.
    rewrite Hnode. cbv beta iota.
    rewrite Hcrs, sysproj_written.
    + by rewrite insert_delete_eq.
    + apply lookup_delete_eq.
    + done.
    + rewrite node_at_delete_ne; [done|by apply parent_neq].
  - rewrite bool_decide_eq_false_2 by (by intros [? ?]).
    unfold Workflow.pure at 1. cbv beta iota.
    by rewrite Hcrs, sysproj_written.
Qed.

(** X15: when [pyproj] knows the argument and the file can be written (no
    directory stands in its place, and its parent is a directory),
    [create_sysproj_xml] returns the file name and leaves a file whose text
    is the seven lines of the projection file around the PROJ.4 string,
    whatever was there before; calling it again changes nothing. *)
Theorem create_sysproj_xml_writes_projection (epsg : Workflow.epsg_arg)
    fname d (crs : CRS) :
  Workflow.resolve_epsg crs_from_epsg crs_from_text epsg = inr crs ->
  Workflow.node_at d fname <> Some Workflow.Directory ->
  Workflow.node_at d (Pathlib.parent fname) = Some Workflow.Directory ->
  let d' :=
    <[fname := Workflow.Regular (Workflow.sysproj_text (to_proj4 crs))]> d in
  let written :=
    (inr fname, d',
     [Workflow.Log ("Created SysPROJ.xml file: " +:+ Pathlib.str fname)]) in
  Workflow.create_sysproj_xml CRS crs_from_epsg crs_from_text to_proj4 epsg
    fname d = written /\
  Workflow.create_sysproj_xml CRS crs_from_epsg crs_from_text to_proj4 epsg
    fname d' = written.
Proof.
  intros Hres Hdir Hpar d' written.
  assert (Hne : fname <> []) by (intros ->; by apply Hdir).
  split; [by apply create_sysproj_xml_run|].
  unfold written. rewrite (create_sysproj_xml_run _ _ _ crs).
  - unfold d'. by rewrite insert_insert_eq.
  - done.
  - unfold d'. destruct fname; [done|]. simpl. by rewrite lookup_insert_eq.
  - unfold d'. rewrite node_at_insert_ne; [done|by apply parent_neq].
Qed.

End Projection.

Section Script.

Variable spawn : list string -> Workflow.Disk ->
                 (string + string) * Workflow.Disk.
Variable CRS : Type.
Variable crs_from_epsg : Z -> Workflow.error + CRS.
Variable crs_from_text : string -> Workflow.error + CRS.
Variable to_proj4 : CRS -> string.

(** X16: the script, run to its end.  When the projection is known, the
    three names hold no whitespace, quote or backslash, [use_schnaps] is off
    and each program starts, the script writes the projection file and then
    starts three programs in this order: [mm3d Tapioca], whose pattern has
    the extension where the prefix belongs and the prefix where the extension
    belongs; [mm3d Convert2GenBundle] with the prefix and the extension in
    their places and the projection file it has just written; and
    [mm3d Campari], which reads the orientation the conversion has named and
    is never asked for text export, whatever was asked of the tie points. *)
Theorem script_starts_three_programs (a : Workflow.config)
    (d : Workflow.Disk) (crs : CRS) (o1 o2 o3 : string)
    (d2 d3 d4 : Workflow.Disk) :
  all_chars plain (Workflow.pref_im a) = true ->
  all_chars plain (Workflow.ext_im a) = true ->
  all_chars plain (Workflow.rpc_ext a) = true ->
  Workflow.use_schnaps a = false ->
  crs_from_text (Workflow.proj a) = inr crs ->
  d !! ["SysPROJ.xml"] <> Some Workflow.Directory ->
  let d1 :=
    <[["SysPROJ.xml"] :=
        Workflow.Regular (Workflow.sysproj_text (to_proj4 crs))]> d in
  let tapioca :=
    ["mm3d"; "Tapioca"; "All";
     Workflow.ext_im a +:+ "(.*)." +:+ Workflow.pref_im a;
     str_of_int (Workflow.resize a);
     "ExpTxt=" +:+ str_of_flag (Workflow.export_text a)] in
  let convert :=
    ["mm3d"; "Convert2GenBundle";
     Workflow.pref_im a +:+ "(.*)." +:+ Workflow.ext_im a;
     "$1." +:+ Workflow.rpc_ext a;
     "RPC-d" +:+ str_of_int (Workflow.deg a);
     "Degre=" +:+ str_of_int (Workflow.deg a); "ChSys=SysPROJ.xml"] in
  let campari :=
    ["mm3d"; "Campari";
     Workflow.pref_im a +:+ "(.*)." +:+ Workflow.ext_im a +:+ ")";
     "RPC-d" +:+ str_of_int (Workflow.deg a);
     "RPC-d" +:+ str_of_int (Workflow.deg a) +:+ "-adj"; "ExpTxt=0"] in
  spawn tapioca d1 = (inr o1, d2) ->
  spawn convert d2 = (inr o2, d3) ->
  spawn campari d3 = (inr o3, d4) ->
  exists t : list Workflow.wevent,
    Workflow.script spawn CRS crs_from_epsg crs_from_text to_proj4 a d
    = (inr tt, d4, t) /\
    Workflow.spawns t = [tapioca; convert; campari] /\
    last t = Some (Workflow.Print "Done.").
Proof.
  intros Hp He Hr Hs Hcrs Hdir d1 tapioca convert campari H1 H2 H3.
  unfold Workflow.script.
  unfold Workflow.bind at 1.
  rewrite (create_sysproj_xml_run CRS crs_from_epsg crs_from_text to_proj4
             _ _ _ crs) by done.
  fold d1. rewrite Hs. cbv beta iota.
  change (Pathlib.str ["SysPROJ.xml"]) with "SysPROJ.xml".
  unfold Workflow.find_tiepoints, Workflow.convert_rpc_info,
    Workflow.bundle_adjustment, Workflow.bind, Workflow.log, Workflow.print,
    Workflow.shlex_split, Workflow.subprocess_run, Workflow.when.
  rewrite bool_decide_eq_true_2
    by (apply elem_of_cons; right; apply elem_of_cons; by left).
  cbn [negb default from_option id].
  rewrite tapioca_argv
    by (first [by apply plain_dquote_safe_all
              |apply elem_of_cons; right; apply elem_of_cons; by left]).
  rewrite convert_argv by (by try apply plain_dquote_safe_all).
  rewrite campari_argv
    by (eapply all_chars_impl; [apply plain_squote_safe|done]).
  unfold tapioca in H1. unfold convert in H2. unfold campari in H3.
  change "ChSys=SysPROJ.xml" with ("ChSys=" +:+ "SysPROJ.xml") in H2.
  change "ExpTxt=0" with ("ExpTxt=" +:+ "0") in H3.
  simpl. rewrite H1. simpl. rewrite H2. simpl. rewrite H3.
  eexists. split; [reflexivity|]. split; reflexivity.
Qed.

End Script.

(** ** The steps on the bench *)

(** A method the tool does not have. *)
Lemma find_tiepoints_refuses_unknown_method_witness :
  Workflow.spawns
    (Workflow.find_tiepoints Bench.spawn "tif" (Some "IMG") "Fast" (-1)
       false false true Bench.disk).2 = [].
Proof.
  rewrite (find_tiepoints_refuses_unknown_method Bench.spawn "tif"
             (Some "IMG") "Fast" (-1) false false true Bench.disk).
  - reflexivity.
  - apply (bool_decide_unpack _). reflexivity.
Defined.

(** Tie points of the images [IMG*.tif], reduced to 5000 pixels. *)
Lemma find_tiepoints_runs_tapioca_witness :
  Workflow.spawns
    (Workflow.find_tiepoints Bench.spawn "tif" (Some "IMG") "All" 5000
       true false true Bench.disk).2
  = [["mm3d"; "Tapioca"; "All"; "IMG(.*).tif"; "5000"; "ExpTxt=1"]].
Proof.
  rewrite (find_tiepoints_runs_tapioca Bench.spawn "tif" (Some "IMG") "All"
             5000 true true Bench.disk "mm3d Tapioca: done"
             (<[["Tapioca.log"] := Workflow.Regular "ok"]> Bench.disk)).
  - reflexivity.
  - apply (bool_decide_unpack _). reflexivity.
  - reflexivity.
  - reflexivity.
  - reflexivity.
Defined.

(** The same call with [use_schnaps] set. *)
Lemma find_tiepoints_schnaps_raises_witness :
  (Workflow.find_tiepoints Bench.spawn "tif" None "All" (-1) false true
     false Bench.disk).1.1
  = inl (Workflow.TypeError
           "expected str, bytes or os.PathLike object, not int").
Proof.
  rewrite (find_tiepoints_schnaps_raises Bench.spawn "tif" None "All" (-1)
             false false Bench.disk "mm3d Tapioca: done"
             (<[["Tapioca.log"] := Workflow.Regular "ok"]> Bench.disk)).
  - reflexivity.
  - apply (bool_decide_unpack _). reflexivity.
  - reflexivity.
  - reflexivity.
  - reflexivity.
Defined.

(** The conversion as the script asks for it. *)
Lemma convert_rpc_info_runs_convert_witness :
  (Workflow.convert_rpc_info Bench.spawn "IMG" "tif" "xml" 3 "SysPROJ.xml"
     true Bench.disk).1.1 = inr "RPC-d3".
Proof.
  rewrite (convert_rpc_info_runs_convert Bench.spawn "IMG" "tif" "xml" 3
             "SysPROJ.xml" true Bench.disk "mm3d Convert2GenBundle: done"
             (<[["Convert2GenBundle.log"] := Workflow.Regular "ok"]>
                Bench.disk)).
  - reflexivity.
  - reflexivity.
  - reflexivity.
  - reflexivity.
  - reflexivity.
  - reflexivity.
Defined.

(** The adjustment as the script asks for it. *)
Lemma bundle_adjustment_runs_campari_witness :
  Workflow.spawns
    (Workflow.bundle_adjustment Bench.spawn "IMG" "tif" 3 None false true
       Bench.disk).2
  = [["mm3d"; "Campari"; "IMG(.*).tif)"; "RPC-d3"; "RPC-d3-adj"; "ExpTxt=0"]].
Proof.
  rewrite (bundle_adjustment_runs_campari Bench.spawn "IMG" "tif" 3 None
             false true Bench.disk "mm3d Campari: done"
             (<[["Campari.log"] := Workflow.Regular "ok"]> Bench.disk)).
  - reflexivity.
  - reflexivity.
  - reflexivity.
  - reflexivity.
Defined.

(** A prefix with a double quote in it. *)
Lemma find_tiepoints_unpaired_quote_witness :
  (Workflow.find_tiepoints Bench.spawn "tif" (Some ("IM" +:+ dquote +:+ "G"))
     "All" (-1) false false false Bench.disk).1.1
  = inl (Workflow.ValueError "No closing quotation").
Proof.
  rewrite (find_tiepoints_unpaired_quote Bench.spawn "tif" "IM" "G" "All"
             (-1) false false false Bench.disk).
  - reflexivity.
  - apply (bool_decide_unpack _). reflexivity.
  - reflexivity.
  - reflexivity.
  - reflexivity.
Defined.

(** An argument that is neither an integer nor a string: the old file is
    gone. *)
Lemma create_sysproj_xml_failure_removes_file_witness :
  Bench.disk !! ["SysPROJ.xml"] = Some (Workflow.Regular "old text") /\
  (Workflow.create_sysproj_xml string Bench.crs_from_epsg Bench.crs_from_text
     Bench.to_proj4 Workflow.EpsgOther ["SysPROJ.xml"] Bench.disk).1.2
  !! ["SysPROJ.xml"] = None.
Proof.
  split; [reflexivity|].
  rewrite (create_sysproj_xml_failure_removes_file string Bench.crs_from_epsg
             Bench.crs_from_text Bench.to_proj4 Workflow.EpsgOther
             ["SysPROJ.xml"] Bench.disk
             (Workflow.ValueError "EPSG must be an integer or string.")).
  - reflexivity.
  - reflexivity.
  - intros H. vm_compute in H. discriminate H.
Defined.

(** The projection file for EPSG 32632, over the old one. *)
Lemma create_sysproj_xml_writes_projection_witness :
  (Workflow.create_sysproj_xml string Bench.crs_from_epsg Bench.crs_from_text
     Bench.to_proj4 (Workflow.EpsgInt 32632) ["SysPROJ.xml"] Bench.disk).1.2
  !! ["SysPROJ.xml"]
  = Some (Workflow.Regular
            (Workflow.sysproj_text "+init=epsg:32632 +type=crs")).
Proof.
  destruct (create_sysproj_xml_writes_projection string Bench.crs_from_epsg
              Bench.crs_from_text Bench.to_proj4 (Workflow.EpsgInt 32632)
              ["SysPROJ.xml"] Bench.disk "+init=epsg:32632")
    as [Hrun _].
  - reflexivity.
  - intros H. vm_compute in H. discriminate H.
  - reflexivity.
  - rewrite Hrun. reflexivity.
Defined.

(** The script with its own values. *)
Lemma script_starts_three_programs_witness :
  exists t : list Workflow.wevent,
    (Workflow.script Bench.spawn string Bench.crs_from_epsg
       Bench.crs_from_text Bench.to_proj4 Workflow.args Bench.disk).2 = t /\
    Workflow.spawns t
    = [["mm3d"; "Tapioca"; "All"; "tif(.*).IMG"; "5000"; "ExpTxt=1"];
       ["mm3d"; "Convert2GenBundle"; "IMG(.*).tif"; "$1.xml"; "RPC-d3";
        "Degre=3"; "ChSys=SysPROJ.xml"];
       ["mm3d"; "Campari"; "IMG(.*).tif)"; "RPC-d3"; "RPC-d3-adj";
        "ExpTxt=0"]].
Proof.
  destruct (script_starts_three_programs Bench.spawn string
              Bench.crs_from_epsg Bench.crs_from_text Bench.to_proj4
              Workflow.args Bench.disk "+init=EPSG:32632"
              "mm3d Tapioca: done" "mm3d Convert2GenBundle: done"
              "mm3d Campari: done"
              (<[["Tapioca.log"] := Workflow.Regular "ok"]>
                 (<[["SysPROJ.xml"] :=
                      Workflow.Regular
                        (Workflow.sysproj_text
                           (Bench.to_proj4 "+init=EPSG:32632"))]>
                    Bench.disk))
              (<[["Convert2GenBundle.log"] := Workflow.Regular "ok"]>
                 (<[["Tapioca.log"] := Workflow.Regular "ok"]>
                    (<[["SysPROJ.xml"] :=
                         Workflow.Regular
                           (Workflow.sysproj_text
                              (Bench.to_proj4 "+init=EPSG:32632"))]>
                       Bench.disk)))
              (<[["Campari.log"] := Workflow.Regular "ok"]>
                 (<[["Convert2GenBundle.log"] := Workflow.Regular "ok"]>
                    (<[["Tapioca.log"] := Workflow.Regular "ok"]>
                       (<[["SysPROJ.xml"] :=
                            Workflow.Regular
                              (Workflow.sysproj_text
                                 (Bench.to_proj4 "+init=EPSG:32632"))]>
                          Bench.disk)))))
    as (t & Hrun & Hspawns & _).
  - reflexivity.
  - reflexivity.
  - reflexivity.
  - reflexivity.
  - reflexivity.
  - intros H. vm_compute in H. discriminate H.
  - reflexivity.
  - reflexivity.
  - reflexivity.
  - exists t. split; [by rewrite Hrun|]. exact Hspawns.
Defined.
